(** * Dense_U_Net_lidar_helper: sensor-to-tensor pipeline

    A shallow embedding of the numeric core of
    [deepcvlab/utils/Dense_U_Net_lidar_helper.py]: the lidar range
    re-encoding and pooling, the point splatter, the ground-truth heat-map
    synthesis and the whole-image overlap metric.

    Tensors are nested lists (channel, row, column).  Cell values are
    exact rationals: the source computes in binary floating point, and the
    embedding takes the real-number reading of each operation (no rounding,
    no NaN inside a grid).  The one place where the source relies on a
    non-number, the 0/0 of the overlap metric, is modelled explicitly. *)

From Stdlib Require Import List ZArith QArith Qminmax Lia Lqa Bool Arith.
Import ListNotations.

Local Open Scope Q_scope.

(** ** Results of fallible operations *)

Inductive error : Type :=
| InvalidLabelClass   (* TypeError: the ground truth label class does not exist *)
| ShapeMismatch       (* ValueError: could not broadcast input array *)
| NegativeDimension   (* ValueError: negative dimensions are not allowed *)
| IndexOutOfRange     (* IndexError on an integer index *)
| PoolTooSmall        (* RuntimeError: output size is too small *)
| EmptyTensor.        (* RuntimeError: non-empty 3D or 4D input tensor expected *)

Inductive result (A : Type) : Type :=
| Ok (a : A)
| Err (e : error).
Arguments Ok {A} a.
Arguments Err {A} e.

Definition bind {A B} (r : result A) (k : A -> result B) : result B :=
  match r with
  | Ok a => k a
  | Err e => Err e
  end.

Notation "x <- r ;; k" := (bind r (fun x => k))
  (at level 61, r at next level, right associativity).

Fixpoint mapM {A B} (f : A -> result B) (l : list A) : result (list B) :=
  match l with
  | [] => Ok []
  | a :: t => b <- f a ;; bs <- mapM f t ;; Ok (b :: bs)
  end.

(** ** Tensors *)

Abbreviation row := (list Q).
Abbreviation grid := (list (list Q)).            (* H x W *)
Abbreviation tensor := (list (list (list Q))).   (* C x H x W *)

Definition cell2 (g : grid) (r c : nat) : option Q :=
  match nth_error g r with
  | Some rw => nth_error rw c
  | None => None
  end.

Definition cell (t : tensor) (ch r c : nat) : option Q :=
  match nth_error t ch with
  | Some g => cell2 g r c
  | None => None
  end.

Definition grid_shapeb (h w : nat) (g : grid) : bool :=
  Nat.eqb (length g) h && forallb (fun rw => Nat.eqb (length rw) w) g.

Definition has_shapeb (c h w : nat) (t : tensor) : bool :=
  Nat.eqb (length t) c && forallb (grid_shapeb h w) t.

Definition full_grid (h w : nat) (v : Q) : grid := repeat (repeat v w) h.
Definition full (c h w : nat) (v : Q) : tensor := repeat (full_grid h w v) c.

Definition map_grid (f : Q -> Q) (g : grid) : grid := map (map f) g.
Definition map_tensor (f : Q -> Q) (t : tensor) : tensor := map (map_grid f) t.

(** Boolean comparisons on cell values. *)
Definition Qlt_bool (x y : Q) : bool := negb (Qle_bool y x).
Definition Qgt_bool (x y : Q) : bool := Qlt_bool y x.

(** [t[mask(t)] = f(t[mask(t)])]: an in-place masked update whose mask and
    new value depend on the cell alone. *)
Definition masked_cell (mask : Q -> bool) (f : Q -> Q) (v : Q) : Q :=
  if mask v then f v else v.
Definition masked_update (mask : Q -> bool) (f : Q -> Q) (t : tensor) : tensor :=
  map_tensor (masked_cell mask f) t.

(** ** Range re-encoding (first half of [pool_lidar_tensor]) *)

Module Reencode.

Definition lidar_max_range : Q := 75.

(* lidar_tensor[lidar_tensor>lidar_max_range] = lidar_max_range *)
Definition clip_mask (v : Q) : bool := Qgt_bool v lidar_max_range.
Definition clip_val (_ : Q) : Q := lidar_max_range.

(* lidar_tensor[lidar_tensor==-1.0] = lidar_max_range+1 *)
Definition sentinel_mask (v : Q) : bool := Qeq_bool v (-1).
Definition sentinel_val (_ : Q) : Q := lidar_max_range + 1.

(* lidar_tensor[lidar_tensor<=25] = lidar_tensor[lidar_tensor<=25]*-6.2+255 *)
Definition near_mask (v : Q) : bool := Qle_bool v 25.
Definition near_val (v : Q) : Q := v * -(62 # 10) + 255.

(* lidar_tensor[(lidar_tensor>25)&(lidar_tensor<=lidar_max_range+1)] = ...*-2+150 *)
Definition far_mask (v : Q) : bool :=
  Qgt_bool v 25 && Qle_bool v (lidar_max_range + 1).
Definition far_val (v : Q) : Q := v * -2 + 150.

Definition clip_cell := masked_cell clip_mask clip_val.
Definition sentinel_cell := masked_cell sentinel_mask sentinel_val.
Definition near_cell := masked_cell near_mask near_val.
Definition far_cell := masked_cell far_mask far_val.

(** The two band updates, in the order the source runs them. *)
Definition band_cell (v : Q) : Q := far_cell (near_cell v).

(** All four updates on one cell. *)
Definition reencode_cell (v : Q) : Q :=
  band_cell (sentinel_cell (clip_cell v)).

Definition clip_remap (t : tensor) : tensor :=
  masked_update sentinel_mask sentinel_val
    (masked_update clip_mask clip_val t).

Definition band_updates (t : tensor) : tensor :=
  masked_update far_mask far_val (masked_update near_mask near_val t).

Definition reencode (t : tensor) : tensor := band_updates (clip_remap t).

(** The piecewise function of the specification: near band for values up to
    25, far band for values in (25, 76], anything else untouched; each cell
    is looked at once. *)
Definition reencode_piecewise (v : Q) : Q :=
  if Qle_bool v 25 then v * -(62 # 10) + 255
  else if Qle_bool v 76 then v * -2 + 150
  else v.

End Reencode.

(** ** Pooling ([torch.nn.MaxPool2d], [torch.nn.AvgPool2d], no padding,
    dilation 1) *)

Definition window {A} (start len : nat) (l : list A) : list A :=
  firstn len (skipn start l).

(** Number of window positions along a dimension of size [n]:
    floor((n - k) / s) + 1, for [k <= n]. *)
Definition pool_out (n k s : nat) : nat := ((n - k) / s + 1)%nat.

Definition pool_cell (red : list Q -> Q) (kh kw sh sw : nat) (g : grid)
  (i j : nat) : Q :=
  red (concat (map (window (j * sw) kw) (window (i * sh) kh g))).

Definition pool_grid (red : list Q -> Q) (kh kw sh sw : nat) (g : grid)
  : result grid :=
  let h := length g in
  let w := length (hd [] g) in
  if (h <? kh)%nat || (w <? kw)%nat then Err PoolTooSmall
  else Ok (map (fun i =>
                  map (fun j => pool_cell red kh kw sh sw g i j)
                      (seq 0 (pool_out w kw sw)))
               (seq 0 (pool_out h kh sh))).

Definition max_list (l : list Q) : Q :=
  match l with
  | [] => 0
  | x :: t => fold_left Qmax t x
  end.

Definition avg_list (l : list Q) : Q :=
  fold_left Qplus l 0 / inject_Z (Z.of_nat (length l)).

(** A pooling layer applied to a (C, H, W) tensor: every channel is pooled
    on its own; a tensor without channels is refused. *)
Definition pool_tensor (red : list Q -> Q) (kh kw sh sw : nat) (t : tensor)
  : result tensor :=
  match t with
  | [] => Err EmptyTensor
  | _ :: _ => mapM (pool_grid red kh kw sh sw) t
  end.

Definition MaxPool2d (kh kw sh sw : nat) (t : tensor) : result tensor :=
  pool_tensor max_list kh kw sh sw t.

Definition AvgPool2d (kh kw sh sw : nat) (t : tensor) : result tensor :=
  pool_tensor avg_list kh kw sh sw t.

(* avg_pool = torch.nn.AvgPool2d(10, stride=10) *)
Definition avgpool_tensor (img_tensor : tensor) : result tensor :=
  AvgPool2d 10 10 10 10 img_tensor.

(* max_pool = torch.nn.MaxPool2d(10, stride=10) *)
Definition maxpool_tensor (img_tensor : tensor) : result tensor :=
  MaxPool2d 10 10 10 10 img_tensor.

(** [torch.nn.functional.pad(x.unsqueeze(0), pad=(0,0,0,1),
    mode='replicate').squeeze(0)]: nothing on the last dimension, one more
    row at the end of the one before it, a copy of the last row. *)
Definition pad_bottom_replicate (g : grid) : grid := g ++ [last g []].

Definition pad_tensor (t : tensor) : tensor := map pad_bottom_replicate t.

(* lidar_tensor[lidar_tensor<0] = 0 *)
Definition negative_mask (v : Q) : bool := Qlt_bool v 0.
Definition clamp_negative (t : tensor) : tensor :=
  masked_update negative_mask (fun _ => 0) t.

(* max_pool = torch.nn.MaxPool2d((20,10), stride=(10,10)) *)
Definition lidar_max_pool (t : tensor) : result tensor :=
  MaxPool2d 20 10 10 10 t.

Definition pool_lidar_tensor (lidar_tensor : tensor) : result tensor :=
  pooled <- lidar_max_pool (Reencode.reencode lidar_tensor) ;;
  Ok (clamp_negative (pad_tensor pooled)).

(** ** Slices *)

Fixpoint mapi_from {A B} (f : nat -> A -> B) (n : nat) (l : list A) : list B :=
  match l with
  | [] => []
  | a :: t => f n a :: mapi_from f (S n) t
  end.

Definition mapi {A B} (f : nat -> A -> B) (l : list A) : list B :=
  mapi_from f 0 l.

(** A bound of [a[start:stop]] on a dimension of size [n]: a negative bound
    counts from the end, and the result is cut to [0, n]. *)
Definition slice_bound (n : Z) (i : Z) : Z :=
  if (i <? 0)%Z then Z.max 0 (i + n) else Z.min i n.

Definition slice_lo (n : nat) (start : option Z) : Z :=
  match start with
  | Some i => slice_bound (Z.of_nat n) i
  | None => 0%Z
  end.

Definition slice_hi (n : nat) (stop : option Z) : Z :=
  match stop with
  | Some i => slice_bound (Z.of_nat n) i
  | None => Z.of_nat n
  end.

Definition in_slice (n : nat) (start stop : option Z) (i : nat) : bool :=
  (slice_lo n start <=? Z.of_nat i)%Z && (Z.of_nat i <? slice_hi n stop)%Z.

Definition slice_len (n : nat) (start stop : option Z) : nat :=
  Z.to_nat (slice_hi n stop - slice_lo n start).

(** [g[y0:y1, x0:x1] = v] for a scalar [v]. *)
Definition fill_row (x0 x1 : option Z) (v : Q) (rw : row) : row :=
  mapi (fun j old => if in_slice (length rw) x0 x1 j then v else old) rw.

Definition fill_slice (y0 y1 x0 x1 : option Z) (v : Q) (g : grid) : grid :=
  mapi (fun i rw => if in_slice (length g) y0 y1 i
                    then fill_row x0 x1 v rw else rw) g.

(** [t[ch, ...] = ...] with an integer first index. *)
Definition update_channel (ch : nat) (f : grid -> result grid) (t : tensor)
  : result tensor :=
  match nth_error t ch with
  | None => Err IndexOutOfRange
  | Some g => g' <- f g ;;
              Ok (mapi (fun k old => if Nat.eqb k ch then g' else old) t)
  end.

(** ** Point splatter *)

Record sample : Type := { s_x : Q; s_y : Q; s_d : Q }.

(** Python's [int] on a float: truncation towards zero. *)
Definition py_int (q : Q) : Z := Z.quot (Qnum q) (Z.pos (Qden q)).

Definition splat_bounds (size shift : Z) (p : Q) : Z * Z :=
  let lo := py_int (p - inject_Z shift) in
  let lo := if (lo <? 0)%Z then 0%Z else lo in
  let hi := py_int (p + inject_Z shift + 1) in
  let hi := if (hi >? size - 1)%Z then (size - 1)%Z else hi in
  (lo, hi).

Definition splat (h w : nat) (shift : Z) (range_tensor : tensor) (s : sample)
  : result tensor :=
  let '(min_y, max_y) := splat_bounds (Z.of_nat h) shift (s_y s) in
  let '(min_x, max_x) := splat_bounds (Z.of_nat w) shift (s_x s) in
  update_channel 0
    (fun g => Ok (fill_slice (Some min_y) (Some max_y)
                             (Some min_x) (Some max_x) (s_d s) g))
    range_tensor.

Definition lidar_array_to_image_like_tensor (lidar_array : list sample)
  (shape : nat * nat * nat) (kernel_size : Z) : result tensor :=
  let '(c, h, w) := shape in
  let shift := ((kernel_size - 1) / 2)%Z in
  let range_tensor := map_tensor (fun v => v * -1) (full c h w 1) in
  fold_left (fun acc s => t <- acc ;; splat h w shift t s)
            lidar_array (Ok range_tensor).

(** ** Ground-truth heat maps *)

(** One entry of the label dictionary ([type], [x], [y], [width],
    [height]); the dictionary is read through [.values()], in insertion
    order, so a frame's labels are a list. *)
Record label : Type :=
  { l_type : Z; l_x : Z; l_y : Z; l_width : Z; l_height : Z }.

Definition unlikely : Q := 3 # 10.
Definition uncertain : Q := 1 # 2.
Definition half_certain : Q := 3 # 4.

(** A numpy array together with its shape, which an empty nested list would
    lose. *)
Record box : Type := { b_height : nat; b_width : nat; b_cells : grid }.

(* np.ones((height, width)) *)
Definition np_ones (height width : Z) : result box :=
  if (height <? 0)%Z || (width <? 0)%Z then Err NegativeDimension
  else Ok {| b_height := Z.to_nat height;
             b_width := Z.to_nat width;
             b_cells := full_grid (Z.to_nat height) (Z.to_nat width) 1 |}.

Definition with_cells (b : box) (g : grid) : box :=
  {| b_height := b_height b; b_width := b_width b; b_cells := g |}.

Definition _create_ground_truth_bb_pedestrian (ground_truth_box : box) : box :=
  let height := Z.of_nat (b_height ground_truth_box) in
  let width := Z.of_nat (b_width ground_truth_box) in
  let height_fraction := (height / 5)%Z in
  let width_fraction := (width / 4)%Z in
  let g := b_cells ground_truth_box in
  let g := fill_slice (Some 0%Z) (Some height_fraction)
                      None (Some width_fraction) unlikely g in
  let g := fill_slice (Some 0%Z) (Some height_fraction)
                      (Some (width_fraction * 3)%Z) None unlikely g in
  let g := fill_slice (Some (height_fraction * 3)%Z) None
                      None (Some width_fraction) uncertain g in
  let g := fill_slice (Some (height_fraction * 3)%Z) None
                      (Some (width_fraction * 3)%Z) None uncertain g in
  let g := fill_slice (Some (height_fraction * 3)%Z) None
                      (Some width_fraction) (Some (width_fraction * 3)%Z)
                      half_certain g in
  with_cells ground_truth_box g.

Definition _create_ground_truth_bb_cyclist (ground_truth_box : box) : box :=
  ground_truth_box.

Definition _create_ground_truth_bb_vehicle (ground_truth_box : box) : box :=
  ground_truth_box.

Definition _create_ground_truth_bb (object_class width height : Z)
  : result box :=
  ground_truth_box <- np_ones height width ;;
  if (object_class =? 2)%Z then
    Ok (_create_ground_truth_bb_pedestrian ground_truth_box)
  else if (object_class =? 4)%Z then
    Ok (_create_ground_truth_bb_cyclist ground_truth_box)
  else if (object_class =? 1)%Z then
    Ok (_create_ground_truth_bb_vehicle ground_truth_box)
  else Err InvalidLabelClass.

(** Can a source dimension of size [src] be written into a destination
    dimension of size [dst]?  Equal sizes, or a source of size 1, which
    numpy stretches (also to size 0). *)
Definition broadcastable (src dst : nat) : bool :=
  Nat.eqb src dst || Nat.eqb src 1.

Definition box_cell (b : box) (i j : nat) : Q :=
  nth (if Nat.eqb (b_width b) 1 then 0 else j)
      (nth (if Nat.eqb (b_height b) 1 then 0 else i) (b_cells b) [])
      0.

(** [g[y0:y1, x0:x1] = b] on a grid of shape [(h, w)]. *)
Definition assign_box (h w : nat) (y0 y1 x0 x1 : Z) (b : box) (g : grid)
  : result grid :=
  let dh := slice_len h (Some y0) (Some y1) in
  let dw := slice_len w (Some x0) (Some x1) in
  if broadcastable (b_height b) dh && broadcastable (b_width b) dw then
    let r0 := Z.to_nat (slice_lo h (Some y0)) in
    let c0 := Z.to_nat (slice_lo w (Some x0)) in
    Ok (mapi (fun i rw =>
                if in_slice h (Some y0) (Some y1) i then
                  mapi (fun j old =>
                          if in_slice w (Some x0) (Some x1) j
                          then box_cell b (i - r0) (j - c0) else old) rw
                else rw) g)
  else Err ShapeMismatch.

(* np.zeros((3, height_img, width_img)) *)
Definition np_zeros3 (height_img width_img : Z) : result tensor :=
  if (height_img <? 0)%Z || (width_img <? 0)%Z then Err NegativeDimension
  else Ok (full 3 (Z.to_nat height_img) (Z.to_nat width_img) 0).

Definition recognized (object_class : Z) : bool :=
  (object_class =? 1)%Z || (object_class =? 2)%Z || (object_class =? 4)%Z.

(* (object_class==1)*0+(object_class==2)*1+(object_class==4)*2 *)
Definition obj_idx (object_class : Z) : nat :=
  ((if (object_class =? 1)%Z then 1 else 0) * 0
   + (if (object_class =? 2)%Z then 1 else 0) * 1
   + (if (object_class =? 4)%Z then 1 else 0) * 2)%nat.

Definition write_label (height_img width_img : Z) (maps : tensor) (elem : label)
  : result tensor :=
  let object_class := l_type elem in
  if recognized object_class then
    let width_bb := l_width elem in
    let height_bb := l_height elem in
    let x := l_x elem in
    let y := l_y elem in
    b <- _create_ground_truth_bb object_class width_bb height_bb ;;
    update_channel (obj_idx object_class)
      (assign_box (Z.to_nat height_img) (Z.to_nat width_img)
                  y (y + height_bb) x (x + width_bb) b)
      maps
  else Ok maps.

Definition create_ground_truth_maps (ground_truth : list label)
  (width_img height_img : Z) : result tensor :=
  maps <- np_zeros3 height_img width_img ;;
  fold_left (fun acc elem => m <- acc ;; write_label height_img width_img m elem)
            ground_truth (Ok maps).

(** ** Overlap metric *)

Definition Qge_bool (x y : Q) : bool := Qle_bool y x.

Abbreviation bgrid := (list (list bool)).

Definition binarize (threshold : Q) (g : grid) : bgrid :=
  map (map (fun v => Qge_bool v threshold)) g.

Definition zip_with {A B C} (f : A -> B -> C) (l1 : list A) (l2 : list B)
  : list C :=
  map (fun p => f (fst p) (snd p)) (combine l1 l2).

Definition count_row (r : list bool) : nat := length (filter (fun b => b) r).

(* torch.sum(..., axis=(1,2)) of one class *)
Definition count_true (b : bgrid) : nat :=
  fold_right (fun r acc => (count_row r + acc)%nat) 0%nat b.

(** What dividing one integer count tensor by another yields in a cell:
    true division, so a quotient, [inf] for n/0 and [nan] for 0/0. *)
Inductive score : Type :=
| Nan
| Inf
| Num (q : Q).

Definition true_divide (a b : nat) : score :=
  if Nat.eqb b 0 then (if Nat.eqb a 0 then Nan else Inf)
  else Num (inject_Z (Z.of_nat a) / inject_Z (Z.of_nat b)).

Definition isnan (s : score) : bool :=
  match s with Nan => true | _ => false end.

Definition intersection (threshold : Q) (gt est : grid) : nat :=
  count_true (zip_with (zip_with andb) (binarize threshold est)
                       (binarize threshold gt)).

Definition union (threshold : Q) (gt est : grid) : nat :=
  count_true (zip_with (zip_with orb) (binarize threshold est)
                       (binarize threshold gt)).

Definition iou_class (threshold : Q) (gt est : grid) : score :=
  let iou := true_divide (intersection threshold gt est)
                         (union threshold gt est) in
  if isnan iou then Num 0 else iou.

(** Both maps have the same shape (classes, H, W), as in every call of the
    repository, and the theorems about the metric state that as a
    hypothesis: on maps of different shapes torch broadcasts or raises,
    which the zips below do not describe. *)
Definition compute_IoU_whole_img_per_class (ground_truth_map
  estimated_heat_map : tensor) (threshold : Q) : list score :=
  zip_with (iou_class threshold) ground_truth_map estimated_heat_map.

(** ** Specification predicates *)

(** [p] is the pooling of the (h, w) grid [g]: it has the pooled shape and
    its cell (i, j) reduces the window of [g] whose corner is
    (i * sh, j * sw). *)
Definition pooled_from (red : list Q -> Q) (kh kw sh sw h w : nat)
  (g p : grid) : Prop :=
  grid_shapeb h w g = true /\
  grid_shapeb (pool_out h kh sh) (pool_out w kw sw) p = true /\
  forall i j, (i < pool_out h kh sh)%nat -> (j < pool_out w kw sw)%nat ->
    cell2 p i j = Some (pool_cell red kh kw sh sw g i j).

(** The box of a label lies inside a [width_img] x [height_img] image: a
    corner at non-negative coordinates, non-negative extent, and the far
    edges within the image. *)
Definition inside_image (width_img height_img : Z) (l : label) : bool :=
  (0 <=? l_x l)%Z && (0 <=? l_y l)%Z &&
  (0 <=? l_width l)%Z && (0 <=? l_height l)%Z &&
  (l_x l + l_width l <=? width_img)%Z &&
  (l_y l + l_height l <=? height_img)%Z.

(** Every cell of a tensor satisfies [P]. *)
Definition all_cells (P : Q -> Prop) (t : tensor) : Prop :=
  forall ch r c v, cell t ch r c = Some v -> P v.

Definition unit_interval (v : Q) : Prop := 0 <= v /\ v <= 1.

(** Counting cells, as the specification words the overlap metric: a cell
    (r, c) of a map counts when its value is at or above the threshold. *)
Definition above (threshold : Q) (g : grid) (r c : nat) : bool :=
  match cell2 g r c with
  | Some v => Qle_bool threshold v
  | None => false
  end.

(** The number of cells (r, c), r < h and c < w, that satisfy [p]. *)
Definition count_cells (h w : nat) (p : nat -> nat -> bool) : nat :=
  list_sum (map (fun r => length (filter (p r) (seq 0 w))) (seq 0 h)).

(** Intersection count: cells at or above the threshold in both maps. *)
Definition both_above (threshold : Q) (h w : nat) (gt est : grid) : nat :=
  count_cells h w (fun r c => above threshold gt r c && above threshold est r c).

(** Union count: cells at or above the threshold in at least one map. *)
Definition either_above (threshold : Q) (h w : nat) (gt est : grid) : nat :=
  count_cells h w (fun r c => above threshold gt r c || above threshold est r c).

(** ** Batch overlap metric *)

(** Sum and mean of scores as the float unit computes them. *)
Definition score_add (a b : score) : score :=
  match a, b with
  | Nan, _ | _, Nan => Nan
  | Inf, _ | _, Inf => Inf
  | Num x, Num y => Num (x + y)
  end.

Definition score_div_nat (s : score) (n : nat) : score :=
  match s with
  | Nan => Nan
  | Inf => Inf
  | Num x =>
      if Nat.eqb n 0 then (if Qeq_bool x 0 then Nan else Inf)
      else Num (x / inject_Z (Z.of_nat n))
  end.

(** [rows[i, :] = row] on a (B, classes) table: the row must have [classes]
    entries, or one entry, which is repeated. *)
Definition assign_row (classes : nat) (i : nat) (row : list score)
  (rows : list (list score)) : result (list (list score)) :=
  if (i <? length rows)%nat then
    if Nat.eqb (length row) classes then
      Ok (mapi (fun k old => if Nat.eqb k i then row else old) rows)
    else if Nat.eqb (length row) 1 then
      Ok (mapi (fun k old => if Nat.eqb k i
                             then repeat (hd Nan row) classes else old) rows)
    else Err ShapeMismatch
  else Err IndexOutOfRange.

(* for i, (gt_map, h_map) in enumerate(zip(...)): iou[i, :] = ... *)
Fixpoint iou_loop (classes : nat) (threshold : Q) (i : nat)
  (pairs : list (list (list (list Q)) * list (list (list Q))))
  (rows : list (list score)) : result (list (list score)) :=
  match pairs with
  | [] => Ok rows
  | (gt_map, h_map) :: rest =>
      rows' <- assign_row classes i
                 (compute_IoU_whole_img_per_class gt_map h_map threshold)
                 rows ;;
      iou_loop classes threshold (S i) rest rows'
  end.

(* torch.mean(iou_per_instance_per_class, axis=0) *)
Definition mean_axis0 (classes : nat) (rows : list (list score)) : list score :=
  map (fun k => score_div_nat
                  (fold_left score_add (map (fun row => nth k row Nan) rows)
                             (Num 0))
                  (length rows))
      (seq 0 classes).

(** [classes] is [ground_truth_map_batch.shape[1]]; the batches are lists of
    instances. *)
Definition compute_IoU_whole_img_batch (classes : nat)
  (ground_truth_map_batch estimated_heat_map_batch : list (list (list (list Q))))
  (threshold : Q) : result (list score) :=
  let iou_per_instance_per_class :=
    repeat (repeat (Num 0) classes) (length ground_truth_map_batch) in
  rows <- iou_loop classes threshold 0
            (combine ground_truth_map_batch estimated_heat_map_batch)
            iou_per_instance_per_class ;;
  Ok (mean_axis0 classes rows).

(** ** Labels of a frame (label loop of [waymo_to_pytorch_offline]) *)

(** A camera label of the dataset: class, centre and extent of the box.
    The dataset calls the horizontal extent [length] and the vertical one
    [width]. *)
Record camera_label : Type :=
  { cl_type : Z; center_x : Q; center_y : Q; box_length : Q; box_width : Q }.

Definition label_entry (cl : camera_label) : label :=
  {| l_type := cl_type cl;
     l_x := py_int (center_x cl - (1 # 2) * box_length cl);
     l_y := py_int (center_y cl - (1 # 2) * box_width cl);
     l_width := py_int (box_length cl);
     l_height := py_int (box_width cl) |}.

Definition label_dict (camera_labels : list camera_label) : list label :=
  map label_entry camera_labels.

(** ** Further specification predicates *)

(** Cell (r, c) of channel ch lies in the box of the recognized label [l]. *)
Definition covers (l : label) (ch r c : nat) : bool :=
  recognized (l_type l) && Nat.eqb (obj_idx (l_type l)) ch &&
  (l_y l <=? Z.of_nat r)%Z && (Z.of_nat r <? l_y l + l_height l)%Z &&
  (l_x l <=? Z.of_nat c)%Z && (Z.of_nat c <? l_x l + l_width l)%Z.

Definition in_range (lo hi : Q) (v : Q) : Prop := lo <= v /\ v <= hi.

(** A lidar cell is a range in metres or the no-return sentinel. *)
Definition range_or_sentinel (v : Q) : Prop := 0 <= v \/ v == -1.

(** The indices of a dimension of size [n] that a sample at the integer
    coordinate [p] writes: from max(0, p - shift) up to, but not including,
    the stop.  The stop is min(p + shift + 1, n - 1); when p + shift + 1 is
    negative it is a negative slice bound and counts from the end. *)
Definition written (n : nat) (shift p : Z) (i : nat) : bool :=
  let stop := if (p + shift + 1 <? 0)%Z then (Z.of_nat n + (p + shift + 1))%Z
              else Z.min (p + shift + 1) (Z.of_nat n - 1) in
  (Z.max 0 (p - shift) <=? Z.of_nat i)%Z && (Z.of_nat i <? stop)%Z.

(** ** Selection of train, validation and test files
    (index arithmetic of [distribute_data_into_train_val_test]) *)

(* l[start:stop] *)
Definition py_slice {A} (l : list A) (start stop : Z) : list A :=
  firstn (slice_len (length l) (Some start) (Some stop))
         (skipn (Z.to_nat (slice_lo (length l) (Some start))) l).

(* split = np.array(split)*num_samples *)
Definition scale_split (split : Q * Q * Q) (num_samples : nat) : Q * Q * Q :=
  let '(train, val, test) := split in
  let n := inject_Z (Z.of_nat num_samples) in
  (train * n, val * n, test * n).

(* split_indices = [0, int(split[0]), int(split[0]+split[1]), num_samples] *)
Definition split_indices (split : Q * Q * Q) (num_samples : nat) : list Z :=
  let '(train, val, _) := split in
  [0%Z; py_int train; py_int (train + val); Z.of_nat num_samples].

(** The indices moved to train, val and test, in that order:
    [indices[split_indices[set_idx]:split_indices[set_idx+1]]] for
    [set_idx] 0, 1, 2. *)
Definition subsets (indices : list nat) (bounds : list Z) : list (list nat) :=
  map (fun set_idx =>
         py_slice indices (nth set_idx bounds 0%Z) (nth (S set_idx) bounds 0%Z))
      (seq 0 3).

(** The loop over the [tf_] directories.  Each directory comes with its
    shuffled index list (one index per sample); [split] is reassigned in the
    loop body, so the scaled value is what the next directory starts from. *)
Fixpoint distribute (split : Q * Q * Q) (dirs : list (list nat))
  : list (list (list nat)) :=
  match dirs with
  | [] => []
  | indices :: rest =>
      let num_samples := length indices in
      let split' := scale_split split num_samples in
      subsets indices (split_indices split' num_samples)
      :: distribute split' rest
  end.

(** * Properties *)

(** ** Comparisons *)

Lemma Qlt_bool_iff (x y : Q) : Qlt_bool x y = true <-> x < y.
Proof.
  unfold Qlt_bool. rewrite negb_true_iff.
  destruct (Qle_bool y x) eqn:E.
  - apply Qle_bool_iff in E. split; [discriminate | intro H; lra].
  - split; [intros _ | reflexivity].
    apply Qnot_le_lt. intro H. apply Qle_bool_iff in H. congruence.
Qed.

Lemma Qlt_bool_false (x y : Q) : Qlt_bool x y = false <-> y <= x.
Proof.
  unfold Qlt_bool. rewrite negb_false_iff. apply Qle_bool_iff.
Qed.

Lemma Qle_bool_false (x y : Q) : Qle_bool x y = false <-> y < x.
Proof.
  rewrite <- Qlt_bool_iff. unfold Qlt_bool.
  destruct (Qle_bool x y); simpl; split; congruence.
Qed.

Module ReencodeFacts.
Import Reencode.

Lemma near_mask_true (d : Q) : d <= 25 -> near_mask d = true.
Proof. intro H. apply Qle_bool_iff. exact H. Qed.

Lemma near_mask_false (d : Q) : 25 < d -> near_mask d = false.
Proof. intro H. apply Qle_bool_false. exact H. Qed.

Lemma far_mask_true (d : Q) : 25 < d -> d <= 76 -> far_mask d = true.
Proof.
  intros H1 H2. unfold far_mask, Qgt_bool. apply andb_true_iff. split.
  - apply Qlt_bool_iff. exact H1.
  - apply Qle_bool_iff. unfold lidar_max_range. lra.
Qed.

Lemma far_mask_high (d : Q) : 76 < d -> far_mask d = false.
Proof.
  intro H. unfold far_mask. apply andb_false_iff. right.
  apply Qle_bool_false. unfold lidar_max_range. lra.
Qed.

Lemma far_mask_low (d : Q) : d <= 25 -> far_mask d = false.
Proof.
  intro H. unfold far_mask, Qgt_bool. apply andb_false_iff. left.
  apply Qlt_bool_false. exact H.
Qed.

Lemma near_val_ge_100 (d : Q) : d <= 25 -> 100 <= near_val d.
Proof. unfold near_val. intro H. lra. Qed.

(** A value written by the near-band update is never selected by the
    far-band mask. *)
Lemma near_output_not_far (d : Q) : d <= 25 -> far_mask (near_val d) = false.
Proof.
  intro H. apply far_mask_high. pose proof (near_val_ge_100 d H). lra.
Qed.

Lemma band_cell_near (d : Q) : d <= 25 -> band_cell d = near_val d.
Proof.
  intro H. unfold band_cell, near_cell, far_cell, masked_cell.
  rewrite (near_mask_true d H), (near_output_not_far d H). reflexivity.
Qed.

Lemma band_cell_far (d : Q) : 25 < d -> d <= 76 -> band_cell d = far_val d.
Proof.
  intros H1 H2. unfold band_cell, near_cell, far_cell, masked_cell.
  rewrite (near_mask_false d H1), (far_mask_true d H1 H2). reflexivity.
Qed.

Lemma band_cell_beyond (d : Q) : 76 < d -> band_cell d = d.
Proof.
  intro H. unfold band_cell, near_cell, far_cell, masked_cell.
  rewrite near_mask_false by lra. rewrite (far_mask_high d H). reflexivity.
Qed.

Lemma band_cell_piecewise (d : Q) : band_cell d = reencode_piecewise d.
Proof.
  unfold reencode_piecewise.
  destruct (Qle_bool d 25) eqn:E1.
  - apply Qle_bool_iff in E1. apply band_cell_near. exact E1.
  - apply Qle_bool_false in E1.
    destruct (Qle_bool d 76) eqn:E2.
    + apply Qle_bool_iff in E2. apply band_cell_far; assumption.
    + apply Qle_bool_false in E2. apply band_cell_beyond. exact E2.
Qed.

Lemma map_tensor_compose (f g : Q -> Q) (t : tensor) :
  map_tensor f (map_tensor g t) = map_tensor (fun v => f (g v)) t.
Proof.
  unfold map_tensor, map_grid. rewrite map_map.
  apply map_ext. intro gr. rewrite map_map.
  apply map_ext. intro rw. apply map_map.
Qed.

Lemma map_tensor_ext (f g : Q -> Q) (t : tensor) :
  (forall v, f v = g v) -> map_tensor f t = map_tensor g t.
Proof.
  intro H. unfold map_tensor, map_grid.
  apply map_ext. intro gr. apply map_ext. intro rw. apply map_ext. exact H.
Qed.

Lemma band_updates_cellwise (t : tensor) :
  band_updates t = map_tensor band_cell t.
Proof.
  unfold band_updates, masked_update. rewrite map_tensor_compose.
  apply map_tensor_ext. reflexivity.
Qed.

Lemma reencode_cellwise (t : tensor) :
  reencode t = map_tensor reencode_cell t.
Proof.
  unfold reencode, clip_remap, masked_update.
  rewrite band_updates_cellwise, !map_tensor_compose.
  apply map_tensor_ext. reflexivity.
Qed.

Lemma clip_remap_in_range (d : Q) :
  0 <= d -> d <= 75 -> sentinel_cell (clip_cell d) = d.
Proof.
  intros H0 H1. unfold sentinel_cell, clip_cell, masked_cell.
  unfold clip_mask, Qgt_bool, lidar_max_range.
  replace (Qlt_bool 75 d) with false
    by (symmetry; apply Qlt_bool_false; exact H1).
  unfold sentinel_mask.
  destruct (Qeq_bool d (-1)) eqn:E; [ | reflexivity].
  apply Qeq_bool_iff in E. lra.
Qed.

(** C3.  After clipping and sentinel remapping, the two band updates send a
    value d in [0,25] to d * -6.2 + 255, strictly decreasing in d, and a
    value d in (25,76] to d * -2 + 150; the near band takes [0,25) into
    (100,255], its value at 25 is 100, and the far band stays below that
    ceiling, in [-2,100).  Raw values in [0,75] reach the band updates
    unchanged. *)
Theorem reencode_bands :
  (forall d, 0 <= d -> d <= 25 -> band_cell d = d * -(62 # 10) + 255) /\
  (forall d1 d2, 0 <= d1 -> d1 < d2 -> d2 <= 25 ->
     band_cell d2 < band_cell d1) /\
  (forall d, 25 < d -> d <= 76 -> band_cell d = d * -2 + 150) /\
  (forall d, 0 <= d -> d < 25 -> 100 < band_cell d /\ band_cell d <= 255) /\
  band_cell 25 == 100 /\
  (forall d, 25 < d -> d <= 76 -> -2 <= band_cell d /\ band_cell d < 100) /\
  (forall d, 0 <= d -> d <= 75 -> reencode_cell d = band_cell d) /\
  (forall t, reencode t = map_tensor reencode_cell t).
Proof.
  split; [ | split; [ | split; [ | split; [ | split; [ | split; [ | split]]]]]].
  - intros d _ H. apply band_cell_near. exact H.
  - intros d1 d2 H0 H1 H2.
    rewrite !band_cell_near by lra. unfold near_val. lra.
  - intros d H1 H2. apply band_cell_far; assumption.
  - intros d H0 H1. rewrite band_cell_near by lra. unfold near_val. lra.
  - rewrite band_cell_near by lra. unfold near_val. lra.
  - intros d H0 H1. rewrite band_cell_far by assumption. unfold far_val. lra.
  - intros d H0 H1. unfold reencode_cell.
    rewrite clip_remap_in_range by assumption. reflexivity.
  - apply reencode_cellwise.
Qed.

(** C8.  The near-band and far-band updates, run one after the other on the
    same tensor, are one application of the piecewise re-encoding to each
    original cell: a cell rewritten by the near band (at least 100) is never
    picked up again by the far-band mask. *)
Theorem band_updates_once (t : tensor) :
  band_updates t = map_tensor reencode_piecewise t /\
  (forall d, d <= 25 ->
     100 <= near_val d /\ far_mask (near_val d) = false).
Proof.
  split.
  - rewrite band_updates_cellwise. apply map_tensor_ext.
    exact band_cell_piecewise.
  - intros d H. split.
    + apply near_val_ge_100. exact H.
    + apply near_output_not_far. exact H.
Qed.

End ReencodeFacts.

(** ** Lists, indices and shapes *)

Section ListFacts.
Context {A B : Type}.

Lemma nth_error_mapi_from (f : nat -> A -> B) (l : list A) (n i : nat) :
  nth_error (mapi_from f n l) i = option_map (f (n + i)%nat) (nth_error l i).
Proof.
  revert n i. induction l as [ | a t IH]; intros n i.
  - destruct i; reflexivity.
  - destruct i as [ | i]; simpl.
    + rewrite Nat.add_0_r. reflexivity.
    + rewrite IH. rewrite Nat.add_succ_r. reflexivity.
Qed.

Lemma nth_error_mapi (f : nat -> A -> B) (l : list A) (i : nat) :
  nth_error (mapi f l) i = option_map (f i) (nth_error l i).
Proof. unfold mapi. apply nth_error_mapi_from. Qed.

Lemma length_mapi_from (f : nat -> A -> B) (l : list A) (n : nat) :
  length (mapi_from f n l) = length l.
Proof.
  revert n. induction l as [ | a t IH]; intro n; simpl; [ | rewrite IH];
    reflexivity.
Qed.

Lemma length_mapi (f : nat -> A -> B) (l : list A) :
  length (mapi f l) = length l.
Proof. apply length_mapi_from. Qed.

Lemma Forall_mapi_from (P : B -> Prop) (f : nat -> A -> B) (l : list A) (n : nat) :
  (forall i a, In a l -> P (f i a)) -> Forall P (mapi_from f n l).
Proof.
  revert n. induction l as [ | a t IH]; intros n H; simpl; constructor.
  - apply H. left. reflexivity.
  - apply IH. intros i b Hb. apply H. right. exact Hb.
Qed.

Lemma Forall_mapi (P : B -> Prop) (f : nat -> A -> B) (l : list A) :
  (forall i a, In a l -> P (f i a)) -> Forall P (mapi f l).
Proof. apply Forall_mapi_from. Qed.

Lemma nth_error_repeat_lt (a : A) (n i : nat) :
  (i < n)%nat -> nth_error (repeat a n) i = Some a.
Proof.
  revert i. induction n as [ | n IH]; intros i H; [lia | ].
  destruct i as [ | i]; simpl; [reflexivity | apply IH; lia].
Qed.

Lemma mapM_ok (f : A -> result B) (g : A -> B) (l : list A) :
  (forall a, In a l -> f a = Ok (g a)) -> mapM f l = Ok (map g l).
Proof.
  induction l as [ | a t IH]; intro H; simpl; [reflexivity | ].
  rewrite (H a (or_introl eq_refl)). simpl.
  rewrite IH by (intros b Hb; apply H; right; exact Hb).
  reflexivity.
Qed.

Lemma In_window (l : list A) (start len : nat) (a : A) :
  In a (window start len l) ->
  exists k, (start <= k < start + len)%nat /\ nth_error l k = Some a.
Proof.
  unfold window. intro H.
  apply In_nth_error in H. destruct H as [k Hk].
  assert (Hlt : (k < len)%nat).
  { destruct (Nat.lt_ge_cases k len) as [Hl | Hl]; [exact Hl | ].
    rewrite nth_error_firstn in Hk.
    destruct (Nat.ltb_spec k len); [lia | discriminate]. }
  rewrite nth_error_firstn in Hk.
  destruct (Nat.ltb_spec k len); [ | lia].
  rewrite nth_error_skipn in Hk.
  exists (start + k)%nat. split; [lia | exact Hk].
Qed.

Lemma length_window (l : list A) (start len : nat) :
  (start + len <= length l)%nat -> length (window start len l) = len.
Proof.
  intro H. unfold window. rewrite length_firstn, length_skipn. lia.
Qed.

End ListFacts.

Lemma grid_shapeb_true (h w : nat) (g : grid) :
  grid_shapeb h w g = true <->
  length g = h /\ (forall rw, In rw g -> length rw = w).
Proof.
  unfold grid_shapeb. rewrite andb_true_iff, Nat.eqb_eq, forallb_forall.
  split; intros [H1 H2]; split; try exact H1; intros rw Hrw.
  - apply Nat.eqb_eq. apply H2. exact Hrw.
  - apply Nat.eqb_eq. apply H2. exact Hrw.
Qed.

Lemma has_shapeb_true (c h w : nat) (t : tensor) :
  has_shapeb c h w t = true <->
  length t = c /\ (forall g, In g t -> grid_shapeb h w g = true).
Proof.
  unfold has_shapeb. rewrite andb_true_iff, Nat.eqb_eq, forallb_forall.
  reflexivity.
Qed.

Lemma grid_shape_row (h w : nat) (g : grid) (r : nat) :
  grid_shapeb h w g = true -> (r < h)%nat ->
  exists rw, nth_error g r = Some rw /\ length rw = w.
Proof.
  intros Hs Hr. apply grid_shapeb_true in Hs. destruct Hs as [Hl Hw].
  destruct (nth_error g r) as [rw | ] eqn:E.
  - exists rw. split; [reflexivity | ]. apply Hw.
    apply nth_error_In with (n := r). exact E.
  - apply nth_error_None in E. lia.
Qed.

Lemma grid_shape_cell (h w : nat) (g : grid) (r c : nat) :
  grid_shapeb h w g = true -> (r < h)%nat -> (c < w)%nat ->
  exists v, cell2 g r c = Some v.
Proof.
  intros Hs Hr Hc. destruct (grid_shape_row h w g r Hs Hr) as [rw [E Hl]].
  unfold cell2. rewrite E.
  destruct (nth_error rw c) as [v | ] eqn:E2; [exists v; reflexivity | ].
  apply nth_error_None in E2. lia.
Qed.

Lemma has_shape_channel (c h w : nat) (t : tensor) (ch : nat) :
  has_shapeb c h w t = true -> (ch < c)%nat ->
  exists g, nth_error t ch = Some g /\ grid_shapeb h w g = true.
Proof.
  intros Hs Hc. apply has_shapeb_true in Hs. destruct Hs as [Hl Hg].
  destruct (nth_error t ch) as [g | ] eqn:E.
  - exists g. split; [reflexivity | ]. apply Hg.
    apply nth_error_In with (n := ch). exact E.
  - apply nth_error_None in E. lia.
Qed.

Lemma full_grid_shape (h w : nat) (v : Q) :
  grid_shapeb h w (full_grid h w v) = true.
Proof.
  apply grid_shapeb_true. unfold full_grid. split.
  - apply repeat_length.
  - intros rw Hrw. apply repeat_spec in Hrw. subst rw. apply repeat_length.
Qed.

Lemma full_shape (c h w : nat) (v : Q) :
  has_shapeb c h w (full c h w v) = true.
Proof.
  apply has_shapeb_true. unfold full. split.
  - apply repeat_length.
  - intros g Hg. apply repeat_spec in Hg. subst g. apply full_grid_shape.
Qed.

Lemma cell2_full_grid (h w : nat) (v : Q) (r c : nat) :
  (r < h)%nat -> (c < w)%nat -> cell2 (full_grid h w v) r c = Some v.
Proof.
  intros Hr Hc. unfold cell2, full_grid.
  rewrite nth_error_repeat_lt by exact Hr.
  apply nth_error_repeat_lt. exact Hc.
Qed.

Lemma cell_full_inv (c h w : nat) (v x : Q) (ch r col : nat) :
  cell (full c h w v) ch r col = Some x -> x = v.
Proof.
  unfold cell, cell2, full, full_grid.
  destruct (nth_error _ ch) as [g | ] eqn:E1; [ | intro X; discriminate X].
  apply nth_error_In, repeat_spec in E1. subst g.
  destruct (nth_error _ r) as [rw | ] eqn:E2; [ | intro X; discriminate X].
  apply nth_error_In, repeat_spec in E2. subst rw.
  intro H. apply nth_error_In, repeat_spec in H. exact H.
Qed.

Lemma map_grid_shape (f : Q -> Q) (h w : nat) (g : grid) :
  grid_shapeb h w g = true -> grid_shapeb h w (map_grid f g) = true.
Proof.
  rewrite !grid_shapeb_true. intros [Hl Hw]. unfold map_grid. split.
  - rewrite length_map. exact Hl.
  - intros rw Hrw. apply in_map_iff in Hrw. destruct Hrw as [rw0 [E Hin]].
    subst rw. rewrite length_map. apply Hw. exact Hin.
Qed.

Lemma map_tensor_shape (f : Q -> Q) (c h w : nat) (t : tensor) :
  has_shapeb c h w t = true -> has_shapeb c h w (map_tensor f t) = true.
Proof.
  rewrite !has_shapeb_true. intros [Hl Hg]. unfold map_tensor. split.
  - rewrite length_map. exact Hl.
  - intros g Hin. apply in_map_iff in Hin. destruct Hin as [g0 [E Hin]].
    subst g. apply map_grid_shape. apply Hg. exact Hin.
Qed.

Lemma cell2_map_grid (f : Q -> Q) (g : grid) (r c : nat) :
  cell2 (map_grid f g) r c = option_map f (cell2 g r c).
Proof.
  unfold cell2, map_grid. rewrite nth_error_map.
  destruct (nth_error g r) as [rw | ]; simpl; [ | reflexivity].
  apply nth_error_map.
Qed.

Lemma cell_map_tensor (f : Q -> Q) (t : tensor) (ch r c : nat) :
  cell (map_tensor f t) ch r c = option_map f (cell t ch r c).
Proof.
  unfold cell, map_tensor. rewrite nth_error_map.
  destruct (nth_error t ch) as [g | ]; simpl; [ | reflexivity].
  apply cell2_map_grid.
Qed.

(** ** Pooling *)

Section MapM.
Context {A B : Type}.

Lemma mapM_Forall2 (R : A -> B -> Prop) (f : A -> result B) (l : list A) :
  (forall a, In a l -> exists b, f a = Ok b /\ R a b) ->
  exists bs, mapM f l = Ok bs /\ Forall2 R l bs.
Proof.
  induction l as [ | a t IH]; intro H.
  - exists []. split; [reflexivity | constructor].
  - destruct (H a (or_introl eq_refl)) as [b [Eb Rb]].
    destruct IH as [bs [Ebs Rbs]].
    { intros x Hx. apply H. right. exact Hx. }
    exists (b :: bs). simpl. rewrite Eb. simpl. rewrite Ebs. simpl.
    split; [reflexivity | constructor; assumption].
Qed.

Lemma Forall2_nth_error_left (R : A -> B -> Prop) (l : list A) (l' : list B)
  (i : nat) (a : A) :
  Forall2 R l l' -> nth_error l i = Some a ->
  exists b, nth_error l' i = Some b /\ R a b.
Proof.
  intro H. revert i. induction H as [ | x y l l' Hxy _ IH]; intros i Hi.
  - destruct i; discriminate Hi.
  - destruct i as [ | i]; simpl in *.
    + injection Hi as ->. exists y. split; [reflexivity | exact Hxy].
    + apply IH. exact Hi.
Qed.

End MapM.

Lemma pool_out_fits (n k s i : nat) :
  (k <= n)%nat -> (i < pool_out n k s)%nat -> (i * s + k <= n)%nat.
Proof.
  unfold pool_out. intros Hk Hi.
  assert (H1 : (i <= (n - k) / s)%nat) by lia.
  pose proof (Nat.Div0.mul_div_le (n - k) s) as H2.
  assert (H3 : (i * s <= s * ((n - k) / s))%nat).
  { rewrite (Nat.mul_comm s). apply Nat.mul_le_mono_r. exact H1. }
  lia.
Qed.

Lemma nth_error_window {A} (l : list A) (start len k : nat) :
  (k < len)%nat -> nth_error (window start len l) k = nth_error l (start + k).
Proof.
  intro H. unfold window. rewrite nth_error_firstn.
  destruct (Nat.ltb_spec k len); [ | lia].
  apply nth_error_skipn.
Qed.

Lemma In_pool_window (g : grid) (r0 kh c0 kw : nat) (v : Q) :
  In v (concat (map (window c0 kw) (window r0 kh g))) ->
  exists r c, (r0 <= r < r0 + kh)%nat /\ (c0 <= c < c0 + kw)%nat /\
              cell2 g r c = Some v.
Proof.
  intro H. apply in_concat in H. destruct H as [wr [Hwr Hv]].
  apply in_map_iff in Hwr. destruct Hwr as [rw [E Hrw]]. subst wr.
  apply In_window in Hrw. destruct Hrw as [r [Hr Er]].
  apply In_window in Hv. destruct Hv as [c [Hc Ec]].
  exists r, c. repeat split; try lia.
  unfold cell2. rewrite Er. exact Ec.
Qed.

Lemma pool_window_In (g : grid) (r0 kh c0 kw r c : nat) (v : Q) :
  (r0 <= r < r0 + kh)%nat -> (c0 <= c < c0 + kw)%nat ->
  cell2 g r c = Some v ->
  In v (concat (map (window c0 kw) (window r0 kh g))).
Proof.
  intros Hr Hc. unfold cell2.
  destruct (nth_error g r) as [rw | ] eqn:Er; [ | intro X; discriminate X].
  intro Ec. apply in_concat. exists (window c0 kw rw). split.
  - apply in_map. apply nth_error_In with (n := (r - r0)%nat).
    rewrite nth_error_window by lia.
    replace (r0 + (r - r0))%nat with r by lia. exact Er.
  - apply nth_error_In with (n := (c - c0)%nat).
    rewrite nth_error_window by lia.
    replace (c0 + (c - c0))%nat with c by lia. exact Ec.
Qed.

(** Pooling a grid of shape (h, w) that is at least as large as the kernel
    succeeds, has the shape given by [pool_out], and its cell (i, j) reduces
    the window whose corner is (i * sh, j * sw). *)
Lemma pool_grid_ok (red : list Q -> Q) (kh kw sh sw h w : nat) (g : grid) :
  grid_shapeb h w g = true -> (0 < h)%nat -> (kh <= h)%nat -> (kw <= w)%nat ->
  exists p, pool_grid red kh kw sh sw g = Ok p /\
    grid_shapeb (pool_out h kh sh) (pool_out w kw sw) p = true /\
    forall i j, (i < pool_out h kh sh)%nat -> (j < pool_out w kw sw)%nat ->
      cell2 p i j = Some (pool_cell red kh kw sh sw g i j).
Proof.
  intros Hs Hh Hkh Hkw.
  destruct (grid_shape_row h w g 0 Hs Hh) as [rw0 [E0 Hl0]].
  apply grid_shapeb_true in Hs. destruct Hs as [Hlen _].
  assert (Hhd : length (hd [] g) = w).
  { destruct g as [ | x t]; [discriminate E0 | ].
    simpl in E0. injection E0 as ->. exact Hl0. }
  unfold pool_grid. rewrite Hlen, Hhd.
  destruct (Nat.ltb_spec h kh); [lia | ].
  destruct (Nat.ltb_spec w kw); [lia | ]. simpl.
  eexists. split; [reflexivity | ]. split.
  - apply grid_shapeb_true. split.
    + rewrite length_map, length_seq. reflexivity.
    + intros rw Hrw. apply in_map_iff in Hrw. destruct Hrw as [i [E _]].
      subst rw. rewrite length_map, length_seq. reflexivity.
  - intros i j Hi Hj. unfold cell2.
    rewrite nth_error_map, nth_error_seq.
    destruct (Nat.ltb_spec i (pool_out h kh sh)); [ | lia]. simpl.
    rewrite nth_error_map, nth_error_seq.
    destruct (Nat.ltb_spec j (pool_out w kw sw)); [ | lia]. reflexivity.
Qed.

Lemma pool_tensor_ok (red : list Q -> Q) (kh kw sh sw c h w : nat) (t : tensor) :
  has_shapeb c h w t = true -> (0 < c)%nat ->
  (0 < h)%nat -> (kh <= h)%nat -> (kw <= w)%nat ->
  exists p, pool_tensor red kh kw sh sw t = Ok p /\
    has_shapeb c (pool_out h kh sh) (pool_out w kw sw) p = true /\
    Forall2 (pooled_from red kh kw sh sw h w) t p.
Proof.
  intros Hs Hpos Hh Hkh Hkw. apply has_shapeb_true in Hs.
  destruct Hs as [Hc Hg].
  destruct (mapM_Forall2 (pooled_from red kh kw sh sw h w)
              (pool_grid red kh kw sh sw) t) as [p [Ep Hp]].
  { intros g Hin.
    destruct (pool_grid_ok red kh kw sh sw h w g (Hg g Hin) Hh Hkh Hkw)
      as [pg [E [S C]]].
    exists pg. split; [exact E | ]. split; [apply Hg; exact Hin | ].
    split; assumption. }
  exists p. split.
  { unfold pool_tensor. destruct t as [ | g0 t0]; [simpl in Hc; lia | exact Ep]. }
  split; [ | exact Hp].
  apply has_shapeb_true. split.
  - rewrite <- Hc. symmetry. apply (Forall2_length Hp).
  - intros pg Hin. apply In_nth_error in Hin. destruct Hin as [k Hk].
    apply Forall2_flip in Hp.
    destruct (Forall2_nth_error_left _ _ _ _ _ Hp Hk) as [g [_ [_ [S _]]]].
    exact S.
Qed.

Lemma max_list_const (l : list Q) (v : Q) :
  l <> [] -> (forall x, In x l -> x = v) -> Qmax v v = v -> max_list l = v.
Proof.
  intros Hne Hall Hmax. destruct l as [ | x t]; [congruence | ]. simpl.
  rewrite (Hall x (or_introl eq_refl)).
  assert (Ht : forall y, In y t -> y = v)
    by (intros y Hy; apply Hall; right; exact Hy).
  clear Hall Hne. induction t as [ | y t IH]; simpl; [reflexivity | ].
  rewrite (Ht y (or_introl eq_refl)), Hmax.
  apply IH. intros z Hz. apply Ht. right. exact Hz.
Qed.

Lemma cell2_pad_above (g : grid) (r c : nat) :
  (r < length g)%nat -> cell2 (pad_bottom_replicate g) r c = cell2 g r c.
Proof.
  intro H. unfold cell2, pad_bottom_replicate.
  rewrite nth_error_app1 by exact H. reflexivity.
Qed.

Lemma cell2_pad_last (g : grid) (c : nat) :
  (0 < length g)%nat ->
  cell2 (pad_bottom_replicate g) (length g) c = cell2 g (length g - 1) c.
Proof.
  intro H. unfold cell2, pad_bottom_replicate.
  rewrite nth_error_app2 by lia. rewrite Nat.sub_diag. simpl.
  destruct g as [ | x t] using rev_ind; [simpl in H; lia | ].
  rewrite last_last, length_app. simpl.
  rewrite nth_error_app2 by lia.
  replace (length t + 1 - 1 - length t)%nat with 0%nat by lia.
  reflexivity.
Qed.

Lemma pad_shape (h w : nat) (g : grid) :
  grid_shapeb h w g = true -> (0 < h)%nat ->
  grid_shapeb (S h) w (pad_bottom_replicate g) = true.
Proof.
  intros Hs Hh. apply grid_shapeb_true in Hs. destruct Hs as [Hl Hw].
  apply grid_shapeb_true. unfold pad_bottom_replicate. split.
  - rewrite length_app. simpl. lia.
  - intros rw Hin. apply in_app_or in Hin. destruct Hin as [Hin | [E | []]].
    + apply Hw. exact Hin.
    + subst rw. apply Hw.
      destruct g as [ | x t] using rev_ind; [simpl in Hl; lia | ].
      rewrite last_last. apply in_or_app. right. left. reflexivity.
Qed.

Lemma pad_tensor_shape (c h w : nat) (t : tensor) :
  has_shapeb c h w t = true -> (0 < h)%nat ->
  has_shapeb c (S h) w (pad_tensor t) = true.
Proof.
  intros Hs Hh. apply has_shapeb_true in Hs. destruct Hs as [Hl Hg].
  apply has_shapeb_true. unfold pad_tensor. split.
  - rewrite length_map. exact Hl.
  - intros g Hin. apply in_map_iff in Hin. destruct Hin as [g0 [E Hin]].
    subst g. apply pad_shape; [apply Hg; exact Hin | exact Hh].
Qed.

Lemma cell_pad_tensor_above (c h w : nat) (t : tensor) (ch r col : nat) :
  has_shapeb c h w t = true -> (r < h)%nat ->
  cell (pad_tensor t) ch r col = cell t ch r col.
Proof.
  intros Hs Hr. apply has_shapeb_true in Hs. destruct Hs as [_ Hg].
  unfold cell, pad_tensor. rewrite nth_error_map.
  destruct (nth_error t ch) as [g | ] eqn:E; simpl; [ | reflexivity].
  apply cell2_pad_above.
  apply nth_error_In in E. apply Hg, grid_shapeb_true in E.
  destruct E as [-> _]. exact Hr.
Qed.

Lemma cell_pad_tensor_last (c h w : nat) (t : tensor) (ch col : nat) :
  has_shapeb c h w t = true -> (0 < h)%nat ->
  cell (pad_tensor t) ch h col = cell t ch (h - 1) col.
Proof.
  intros Hs Hh. apply has_shapeb_true in Hs. destruct Hs as [_ Hg].
  unfold cell, pad_tensor. rewrite nth_error_map.
  destruct (nth_error t ch) as [g | ] eqn:E; simpl; [ | reflexivity].
  apply nth_error_In in E. apply Hg, grid_shapeb_true in E.
  destruct E as [E _]. subst h. apply cell2_pad_last. exact Hh.
Qed.

(** ** The lidar downsampler *)

Module LidarPoolFacts.
Import Reencode.

Lemma reencode_sentinel (d : Q) :
  d == -1 -> reencode_cell d = far_val (lidar_max_range + 1).
Proof.
  intro H. unfold reencode_cell, clip_cell, sentinel_cell, masked_cell.
  assert (E1 : clip_mask d = false).
  { unfold clip_mask, Qgt_bool. apply Qlt_bool_false.
    unfold lidar_max_range. lra. }
  assert (E2 : sentinel_mask d = true).
  { unfold sentinel_mask. apply Qeq_bool_iff. exact H. }
  rewrite E1, E2. reflexivity.
Qed.

Lemma sentinel_clamped :
  masked_cell negative_mask (fun _ => 0) (far_val (lidar_max_range + 1)) = 0.
Proof. reflexivity. Qed.

Lemma nth_error_reencode (t : tensor) (ch : nat) :
  nth_error (reencode t) ch
  = option_map (map_grid reencode_cell) (nth_error t ch).
Proof.
  rewrite ReencodeFacts.reencode_cellwise. unfold map_tensor.
  apply nth_error_map.
Qed.

(** Pooling after re-encoding, on a tensor of shape (c, h, w) with
    20 <= h and 10 <= w. *)
Lemma lidar_max_pool_ok (c h w : nat) (t : tensor) :
  has_shapeb c h w t = true -> (0 < c)%nat ->
  (20 <= h)%nat -> (10 <= w)%nat ->
  exists p, lidar_max_pool (reencode t) = Ok p /\
    has_shapeb c (pool_out h 20 10) (pool_out w 10 10) p = true /\
    Forall2 (pooled_from max_list 20 10 10 10 h w) (reencode t) p /\
    pool_lidar_tensor t = Ok (clamp_negative (pad_tensor p)).
Proof.
  intros Hs Hc Hh Hw.
  assert (Hs' : has_shapeb c h w (reencode t) = true).
  { rewrite ReencodeFacts.reencode_cellwise. apply map_tensor_shape. exact Hs. }
  destruct (pool_tensor_ok max_list 20 10 10 10 c h w (reencode t) Hs')
    as [p [Ep [Sp Fp]]]; try lia.
  exists p. unfold lidar_max_pool, MaxPool2d.
  split; [exact Ep | ]. split; [exact Sp | ]. split; [exact Fp | ].
  unfold pool_lidar_tensor, lidar_max_pool, MaxPool2d. rewrite Ep.
  reflexivity.
Qed.

(** The pooled cell over a window of sentinels. *)
Lemma sentinel_window_pooled (h w : nat) (g : grid) (i j : nat) :
  grid_shapeb h w g = true -> (20 <= h)%nat -> (10 <= w)%nat ->
  (i < pool_out h 20 10)%nat -> (j < pool_out w 10 10)%nat ->
  (forall r col v, (i * 10 <= r < i * 10 + 20)%nat ->
     (j * 10 <= col < j * 10 + 10)%nat ->
     cell2 g r col = Some v -> v == -1) ->
  pool_cell max_list 20 10 10 10 (map_grid reencode_cell g) i j
  = far_val (lidar_max_range + 1).
Proof.
  intros Hs Hh Hw Hi Hj Hall. unfold pool_cell.
  pose proof (pool_out_fits h 20 10 i Hh Hi) as Fi.
  pose proof (pool_out_fits w 10 10 j Hw Hj) as Fj.
  apply max_list_const.
  - destruct (grid_shape_cell h w g (i * 10) (j * 10) Hs) as [v Ev]; try lia.
    intro Hnil.
    assert (Hin : In (reencode_cell v)
                     (concat (map (window (j * 10) 10)
                        (window (i * 10) 20 (map_grid reencode_cell g))))).
    { apply pool_window_In with (r := (i * 10)%nat) (c := (j * 10)%nat);
        try lia.
      rewrite cell2_map_grid, Ev. reflexivity. }
    rewrite Hnil in Hin. exact Hin.
  - intros x Hx. apply In_pool_window in Hx.
    destruct Hx as [r [col [Hr [Hc Ex]]]].
    rewrite cell2_map_grid in Ex.
    destruct (cell2 g r col) as [v | ] eqn:Ev; [ | discriminate Ex].
    simpl in Ex. injection Ex as <-.
    apply reencode_sentinel. apply (Hall r col v Hr Hc Ev).
  - reflexivity.
Qed.

(** C5.  For a tensor of shape (c, h, w) that the pooling accepts, if every
    cell of the window of output cell (i, j) of channel ch (rows 10i to
    10i+19, columns 10j to 10j+9) holds the sentinel -1, then the cell
    (i, j) of the returned tensor is exactly 0; the replicated bottom row,
    which repeats the last pooled row, is 0 there as well. *)
Theorem sentinel_window_pools_to_zero (t : tensor) (c h w ch i j : nat) :
  has_shapeb c h w t = true -> (20 <= h)%nat -> (10 <= w)%nat ->
  (ch < c)%nat -> (i < pool_out h 20 10)%nat -> (j < pool_out w 10 10)%nat ->
  (forall r col v, (i * 10 <= r < i * 10 + 20)%nat ->
     (j * 10 <= col < j * 10 + 10)%nat ->
     cell t ch r col = Some v -> v == -1) ->
  exists out, pool_lidar_tensor t = Ok out /\
    cell out ch i j = Some 0 /\
    (S i = pool_out h 20 10 -> cell out ch (S i) j = Some 0).
Proof.
  intros Hs Hh Hw Hch Hi Hj Hall.
  assert (Hcpos : (0 < c)%nat) by lia.
  destruct (lidar_max_pool_ok c h w t Hs Hcpos Hh Hw)
    as [p [_ [Sp [Fp Eout]]]].
  exists (clamp_negative (pad_tensor p)). split; [exact Eout | ].
  destruct (has_shape_channel c h w t ch Hs Hch) as [g [Eg Sg]].
  assert (Eg' : nth_error (reencode t) ch = Some (map_grid reencode_cell g)).
  { rewrite nth_error_reencode, Eg. reflexivity. }
  destruct (Forall2_nth_error_left _ _ _ _ _ Fp Eg') as [pg [Epg [_ [_ Cpg]]]].
  assert (Hcell : cell p ch i j = Some (far_val (lidar_max_range + 1))).
  { unfold cell. rewrite Epg, (Cpg i j Hi Hj). f_equal.
    apply (sentinel_window_pooled h w g i j Sg Hh Hw Hi Hj).
    intros r col v Hr Hc Ev. apply (Hall r col v Hr Hc).
    unfold cell. rewrite Eg. exact Ev. }
  assert (Hpos : (0 < pool_out h 20 10)%nat) by (unfold pool_out; lia).
  unfold clamp_negative, masked_update. split.
  - rewrite cell_map_tensor.
    rewrite (cell_pad_tensor_above _ _ _ p ch i j Sp Hi), Hcell.
    reflexivity.
  - intro Hlast. rewrite cell_map_tensor, Hlast.
    rewrite (cell_pad_tensor_last _ _ _ p ch j Sp Hpos).
    rewrite <- Hlast. replace (S i - 1)%nat with i by lia.
    rewrite Hcell. reflexivity.
Qed.

Lemma sentinel_window_pools_to_zero_witness :
  exists out, pool_lidar_tensor (full 1 30 20 (-1)) = Ok out /\
    cell out 0 1 1 = Some 0 /\
    (2%nat = pool_out 30 20 10 -> cell out 0 2 1 = Some 0).
Proof.
  apply (sentinel_window_pools_to_zero (full 1 30 20 (-1)) 1 30 20 0 1 1).
  - vm_compute. reflexivity.
  - lia.
  - lia.
  - lia.
  - vm_compute. lia.
  - vm_compute. lia.
  - intros r col v _ _ Hv. apply cell_full_inv in Hv. subst v. reflexivity.
Defined.

Lemma pool_out_height : pool_out 1280 20 10 = 127%nat.
Proof. vm_compute. reflexivity. Qed.

Lemma pool_out_width : pool_out 1920 10 10 = 192%nat.
Proof. vm_compute. reflexivity. Qed.

Lemma pool_out_height10 : pool_out 1280 10 10 = 128%nat.
Proof. vm_compute. reflexivity. Qed.

Lemma clamp_shape (c h w : nat) (t : tensor) :
  has_shapeb c h w t = true -> has_shapeb c h w (clamp_negative t) = true.
Proof. apply map_tensor_shape. Qed.

(** C6.  On an input of shape (1, 1280, 1920) the (20,10)/(10,10) max
    pooling yields 127 = (1280-20)/10+1 rows and 192 = (1920-10)/10+1
    columns; padding keeps the 127 pooled rows, appends one row equal to the
    last pooled row, and the returned tensor has shape (1, 128, 192). *)
Theorem pool_lidar_tensor_shape (t : tensor) :
  has_shapeb 1 1280 1920 t = true ->
  pool_out 1280 20 10 = 127%nat /\ pool_out 1920 10 10 = 192%nat /\
  exists p, lidar_max_pool (reencode t) = Ok p /\
    has_shapeb 1 127 192 p = true /\
    (forall r col, (r < 127)%nat ->
       cell (pad_tensor p) 0 r col = cell p 0 r col) /\
    (forall col, cell (pad_tensor p) 0 127 col = cell p 0 126 col) /\
    has_shapeb 1 128 192 (pad_tensor p) = true /\
    pool_lidar_tensor t = Ok (clamp_negative (pad_tensor p)) /\
    has_shapeb 1 128 192 (clamp_negative (pad_tensor p)) = true.
Proof.
  intro Hs. split; [exact pool_out_height | ]. split; [exact pool_out_width | ].
  destruct (lidar_max_pool_ok 1 1280 1920 t Hs) as [p [Ep [Sp [_ Eout]]]];
    try lia.
  rewrite pool_out_height, pool_out_width in Sp.
  assert (Spad : has_shapeb 1 128 192 (pad_tensor p) = true)
    by (apply pad_tensor_shape; [exact Sp | lia]).
  exists p. split; [exact Ep | ]. split; [exact Sp | ].
  split; [ | split; [ | split; [exact Spad | split; [exact Eout | ]]]].
  - intros r col Hr. apply (cell_pad_tensor_above _ _ _ p 0 r col Sp Hr).
  - intro col. apply (cell_pad_tensor_last 1 127 192 p 0 col Sp). lia.
  - apply clamp_shape. exact Spad.
Qed.

Lemma pool_lidar_tensor_shape_witness :
  pool_out 1280 20 10 = 127%nat /\ pool_out 1920 10 10 = 192%nat /\
  exists p, lidar_max_pool (reencode (full 1 1280 1920 (-1))) = Ok p /\
    has_shapeb 1 127 192 p = true /\
    (forall r col, (r < 127)%nat ->
       cell (pad_tensor p) 0 r col = cell p 0 r col) /\
    (forall col, cell (pad_tensor p) 0 127 col = cell p 0 126 col) /\
    has_shapeb 1 128 192 (pad_tensor p) = true /\
    pool_lidar_tensor (full 1 1280 1920 (-1))
      = Ok (clamp_negative (pad_tensor p)) /\
    has_shapeb 1 128 192 (clamp_negative (pad_tensor p)) = true.
Proof.
  apply (pool_lidar_tensor_shape (full 1 1280 1920 (-1))).
  vm_compute. reflexivity.
Defined.

End LidarPoolFacts.

(** ** The three downsampled artifacts *)

Lemma pool10_ok (red : list Q -> Q) (c : nat) (t : tensor) :
  has_shapeb c 1280 1920 t = true -> (0 < c)%nat ->
  exists p, pool_tensor red 10 10 10 10 t = Ok p /\
    has_shapeb c 128 192 p = true /\
    forall ch r col, (ch < c)%nat -> (r < 128)%nat -> (col < 192)%nat ->
      exists g, nth_error t ch = Some g /\
        cell p ch r col = Some (pool_cell red 10 10 10 10 g r col).
Proof.
  intros Hs Hpos.
  destruct (pool_tensor_ok red 10 10 10 10 c 1280 1920 t Hs)
    as [p [Ep [Sp Fp]]]; try lia.
  rewrite LidarPoolFacts.pool_out_height10, LidarPoolFacts.pool_out_width in Sp.
  exists p. split; [exact Ep | ]. split; [exact Sp | ].
  intros ch r col Hch Hr Hc.
  destruct (has_shape_channel c 1280 1920 t ch Hs Hch) as [g [Eg _]].
  exists g. split; [exact Eg | ].
  destruct (Forall2_nth_error_left _ _ _ _ _ Fp Eg) as [pg [Epg [_ [_ Cpg]]]].
  unfold cell. rewrite Epg. apply Cpg.
  - rewrite LidarPoolFacts.pool_out_height10. exact Hr.
  - rewrite LidarPoolFacts.pool_out_width. exact Hc.
Qed.

(** C9 (amended).  For one frame of original size 1280 x 1920, the pooled
    lidar tensor, the average-pooled image (at least one channel) and the
    max-pooled heat map all come out 128 x 192 with strides (10, 10).  In the
    image and the heat map, cell (r, col) reduces the 10 x 10 window whose
    corner is (10 r, 10 col), for every r < 128.  In the lidar tensor,
    cell (r, col) with r < 127 reduces the re-encoded window of 20 rows and
    10 columns with that same corner, and row 127 is a copy of row 126
    (pixel rows 1260..1279), not a window at pixel row 1270. *)
Theorem downsampled_artifacts_aligned (lidar img heat : tensor) (c : nat) :
  has_shapeb 1 1280 1920 lidar = true ->
  has_shapeb c 1280 1920 img = true -> (0 < c)%nat ->
  has_shapeb 3 1280 1920 heat = true ->
  exists l i hm,
    pool_lidar_tensor lidar = Ok l /\ avgpool_tensor img = Ok i /\
    maxpool_tensor heat = Ok hm /\
    has_shapeb 1 128 192 l = true /\ has_shapeb c 128 192 i = true /\
    has_shapeb 3 128 192 hm = true /\
    (forall ch r col, (ch < c)%nat -> (r < 128)%nat -> (col < 192)%nat ->
       exists g, nth_error img ch = Some g /\
         cell i ch r col = Some (pool_cell avg_list 10 10 10 10 g r col)) /\
    (forall ch r col, (ch < 3)%nat -> (r < 128)%nat -> (col < 192)%nat ->
       exists g, nth_error heat ch = Some g /\
         cell hm ch r col = Some (pool_cell max_list 10 10 10 10 g r col)) /\
    (forall r col, (r < 127)%nat -> (col < 192)%nat ->
       exists g, nth_error (Reencode.reencode lidar) 0 = Some g /\
         cell l 0 r col
         = Some (masked_cell negative_mask (fun _ => 0)
                   (pool_cell max_list 20 10 10 10 g r col))) /\
    (forall col, cell l 0 127 col = cell l 0 126 col).
Proof.
  intros Hl Hi Hcpos Hh.
  destruct (LidarPoolFacts.lidar_max_pool_ok 1 1280 1920 lidar Hl)
    as [p [_ [Sp [Fp El]]]]; try lia.
  rewrite LidarPoolFacts.pool_out_height, LidarPoolFacts.pool_out_width in Sp.
  destruct (pool10_ok avg_list c img Hi Hcpos) as [i [Ei [Si Ci]]].
  destruct (pool10_ok max_list 3 heat Hh) as [hm [Ehm [Shm Chm]]]; [lia | ].
  assert (Spad : has_shapeb 1 128 192 (pad_tensor p) = true)
    by (apply pad_tensor_shape; [exact Sp | lia]).
  exists (clamp_negative (pad_tensor p)), i, hm.
  split; [exact El | ]. split; [exact Ei | ]. split; [exact Ehm | ].
  split; [apply LidarPoolFacts.clamp_shape; exact Spad | ].
  split; [exact Si | ]. split; [exact Shm | ].
  split; [exact Ci | ]. split; [exact Chm | ]. split.
  - intros r col Hr Hc.
    assert (Hs' : has_shapeb 1 1280 1920 (Reencode.reencode lidar) = true).
    { rewrite ReencodeFacts.reencode_cellwise. apply map_tensor_shape.
      exact Hl. }
    destruct (has_shape_channel 1 1280 1920 _ 0 Hs') as [g [Eg _]]; [lia | ].
    exists g. split; [exact Eg | ].
    destruct (Forall2_nth_error_left _ _ _ _ _ Fp Eg) as [pg [Epg [_ [_ Cpg]]]].
    unfold clamp_negative, masked_update. rewrite cell_map_tensor.
    rewrite (cell_pad_tensor_above _ _ _ p 0 r col Sp Hr).
    unfold cell. rewrite Epg, Cpg; [reflexivity | | ].
    + rewrite LidarPoolFacts.pool_out_height. exact Hr.
    + rewrite LidarPoolFacts.pool_out_width. exact Hc.
  - intro col. unfold clamp_negative, masked_update.
    rewrite !cell_map_tensor.
    rewrite (cell_pad_tensor_last 1 127 192 p 0 col Sp) by lia.
    rewrite (cell_pad_tensor_above _ _ _ p 0 126 col Sp) by lia.
    reflexivity.
Qed.

Lemma downsampled_artifacts_aligned_witness :
  exists l i hm,
    pool_lidar_tensor (full 1 1280 1920 (-1)) = Ok l /\
    avgpool_tensor (full 3 1280 1920 0) = Ok i /\
    maxpool_tensor (full 3 1280 1920 0) = Ok hm /\
    has_shapeb 1 128 192 l = true /\ has_shapeb 3 128 192 i = true /\
    has_shapeb 3 128 192 hm = true /\
    (forall ch r col, (ch < 3)%nat -> (r < 128)%nat -> (col < 192)%nat ->
       exists g, nth_error (full 3 1280 1920 0) ch = Some g /\
         cell i ch r col = Some (pool_cell avg_list 10 10 10 10 g r col)) /\
    (forall ch r col, (ch < 3)%nat -> (r < 128)%nat -> (col < 192)%nat ->
       exists g, nth_error (full 3 1280 1920 0) ch = Some g /\
         cell hm ch r col = Some (pool_cell max_list 10 10 10 10 g r col)) /\
    (forall r col, (r < 127)%nat -> (col < 192)%nat ->
       exists g,
         nth_error (Reencode.reencode (full 1 1280 1920 (-1))) 0 = Some g /\
         cell l 0 r col
         = Some (masked_cell negative_mask (fun _ => 0)
                   (pool_cell max_list 20 10 10 10 g r col))) /\
    (forall col, cell l 0 127 col = cell l 0 126 col).
Proof.
  apply (downsampled_artifacts_aligned
           (full 1 1280 1920 (-1)) (full 3 1280 1920 0) (full 3 1280 1920 0) 3).
  - vm_compute. reflexivity.
  - vm_compute. reflexivity.
  - lia.
  - vm_compute. reflexivity.
Defined.

(** ** Slice assignment *)

Lemma cell2_fill_slice (h w : nat) (g : grid) (y0 y1 x0 x1 : option Z) (v : Q)
  (r c : nat) :
  grid_shapeb h w g = true ->
  cell2 (fill_slice y0 y1 x0 x1 v g) r c
  = option_map (fun old => if in_slice h y0 y1 r && in_slice w x0 x1 c
                           then v else old)
               (cell2 g r c).
Proof.
  intro Hs. apply grid_shapeb_true in Hs. destruct Hs as [Hl Hw].
  unfold cell2, fill_slice. rewrite nth_error_mapi, Hl.
  destruct (nth_error g r) as [rw | ] eqn:Er; simpl; [ | reflexivity].
  assert (Hrw : length rw = w) by (apply Hw; eapply nth_error_In; exact Er).
  destruct (in_slice h y0 y1 r); simpl.
  - unfold fill_row. rewrite nth_error_mapi, Hrw. reflexivity.
  - destruct (nth_error rw c); reflexivity.
Qed.

Lemma fill_slice_shape (h w : nat) (g : grid) (y0 y1 x0 x1 : option Z) (v : Q) :
  grid_shapeb h w g = true ->
  grid_shapeb h w (fill_slice y0 y1 x0 x1 v g) = true.
Proof.
  intro Hs. apply grid_shapeb_true in Hs. destruct Hs as [Hl Hw].
  apply grid_shapeb_true. unfold fill_slice. split.
  - rewrite length_mapi. exact Hl.
  - intros rw Hin. apply In_nth_error in Hin. destruct Hin as [k Hk].
    rewrite nth_error_mapi in Hk.
    destruct (nth_error g k) as [rw0 | ] eqn:E; [ | discriminate Hk].
    simpl in Hk. injection Hk as <-.
    assert (Hrw : length rw0 = w) by (apply Hw; eapply nth_error_In; exact E).
    destruct (in_slice (length g) y0 y1 k); [ | exact Hrw].
    unfold fill_row. rewrite length_mapi. exact Hrw.
Qed.

Lemma update_channel_ok (ch : nat) (f : grid -> result grid) (t : tensor)
  (g g' : grid) :
  nth_error t ch = Some g -> f g = Ok g' ->
  exists t', update_channel ch f t = Ok t' /\
    length t' = length t /\
    nth_error t' ch = Some g' /\
    (forall k, k <> ch -> nth_error t' k = nth_error t k).
Proof.
  intros Eg Ef. unfold update_channel. rewrite Eg, Ef. simpl.
  eexists. split; [reflexivity | ]. split; [apply length_mapi | ]. split.
  - rewrite nth_error_mapi, Eg. simpl. rewrite Nat.eqb_refl. reflexivity.
  - intros k Hk. rewrite nth_error_mapi.
    destruct (nth_error t k); simpl; [ | reflexivity].
    destruct (Nat.eqb_spec k ch); [contradiction | reflexivity].
Qed.

Lemma update_channel_err (ch : nat) (f : grid -> result grid) (t : tensor)
  (g : grid) (e : error) :
  nth_error t ch = Some g -> f g = Err e -> update_channel ch f t = Err e.
Proof.
  intros Eg Ef. unfold update_channel. rewrite Eg, Ef. reflexivity.
Qed.

Lemma update_channel_shape (c h w ch : nat) (f : grid -> result grid)
  (t t' : tensor) :
  has_shapeb c h w t = true ->
  (forall g g', grid_shapeb h w g = true -> f g = Ok g' ->
                grid_shapeb h w g' = true) ->
  update_channel ch f t = Ok t' -> has_shapeb c h w t' = true.
Proof.
  intros Hs Hf. unfold update_channel.
  destruct (nth_error t ch) as [g | ] eqn:Eg; [ | intro X; discriminate X].
  destruct (f g) as [g' | e] eqn:Ef; simpl; [ | intro X; discriminate X].
  intro E. injection E as <-.
  apply has_shapeb_true in Hs. destruct Hs as [Hl Hg].
  apply has_shapeb_true. split.
  - rewrite length_mapi. exact Hl.
  - intros x Hin. apply In_nth_error in Hin. destruct Hin as [k Hk].
    rewrite nth_error_mapi in Hk.
    destruct (nth_error t k) as [old | ] eqn:Eo; [ | discriminate Hk].
    simpl in Hk. injection Hk as <-.
    destruct (Nat.eqb k ch).
    + apply (Hf g g'); [ | exact Ef]. apply Hg. eapply nth_error_In. exact Eg.
    + apply Hg. eapply nth_error_In. exact Eo.
Qed.

(** ** The point splatter *)

(** One sample written into channel 0 of a (c, h, w) tensor: the cells of the
    half-open window [min_y, max_y) x [min_x, max_x) take the sample's
    range, all others keep their value. *)
Lemma splat_cell (c h w : nat) (shift : Z) (t : tensor) (s : sample) :
  has_shapeb c h w t = true -> (0 < c)%nat ->
  exists t', splat h w shift t s = Ok t' /\
    has_shapeb c h w t' = true /\
    forall r col,
      cell t' 0 r col
      = option_map
          (fun old =>
             if in_slice h (Some (fst (splat_bounds (Z.of_nat h) shift (s_y s))))
                           (Some (snd (splat_bounds (Z.of_nat h) shift (s_y s)))) r
                && in_slice w (Some (fst (splat_bounds (Z.of_nat w) shift (s_x s))))
                              (Some (snd (splat_bounds (Z.of_nat w) shift (s_x s)))) col
             then s_d s else old)
          (cell t 0 r col).
Proof.
  intros Hs Hc.
  destruct (has_shape_channel c h w t 0 Hs Hc) as [g [Eg Sg]].
  unfold splat.
  destruct (splat_bounds (Z.of_nat h) shift (s_y s)) as [min_y max_y].
  destruct (splat_bounds (Z.of_nat w) shift (s_x s)) as [min_x max_x].
  simpl fst. simpl snd.
  destruct (update_channel_ok 0
              (fun g => Ok (fill_slice (Some min_y) (Some max_y)
                                       (Some min_x) (Some max_x) (s_d s) g))
              t g _ Eg eq_refl) as [t' [Et' [_ [E0 _]]]].
  exists t'. split; [exact Et' | ]. split.
  - refine (update_channel_shape c h w 0 _ t t' Hs _ Et').
    intros g0 g1 S0 E. injection E as <-. apply fill_slice_shape. exact S0.
  - intros r col. unfold cell. rewrite E0, Eg.
    apply cell2_fill_slice. exact Sg.
Qed.

Lemma fresh_range_tensor (c h w : nat) (ch r col : nat) :
  (ch < c)%nat -> (r < h)%nat -> (col < w)%nat ->
  cell (map_tensor (fun v => v * -1) (full c h w 1)) ch r col = Some (-1).
Proof.
  intros Hc Hr Hw. rewrite cell_map_tensor. unfold cell, full.
  rewrite nth_error_repeat_lt by exact Hc.
  rewrite cell2_full_grid by assumption. reflexivity.
Qed.

(** A single sample on a fresh grid of shape (1, h, w). *)
Lemma splat_single (h w : nat) (kernel_size : Z) (s : sample) :
  exists t,
    lidar_array_to_image_like_tensor [s] (1, h, w)%nat kernel_size = Ok t /\
    forall r col, (r < h)%nat -> (col < w)%nat ->
      cell t 0 r col
      = Some (let shift := ((kernel_size - 1) / 2)%Z in
              let by_ := splat_bounds (Z.of_nat h) shift (s_y s) in
              let bx := splat_bounds (Z.of_nat w) shift (s_x s) in
              if in_slice h (Some (fst by_)) (Some (snd by_)) r
                 && in_slice w (Some (fst bx)) (Some (snd bx)) col
              then s_d s else -1).
Proof.
  unfold lidar_array_to_image_like_tensor.
  set (t0 := map_tensor (fun v => v * -1) (full 1 h w 1)).
  assert (S0 : has_shapeb 1 h w t0 = true)
    by (apply map_tensor_shape, full_shape).
  destruct (splat_cell 1 h w ((kernel_size - 1) / 2)%Z t0 s S0)
    as [t [Et [_ Ct]]]; [lia | ].
  exists t. split.
  - unfold fold_left, bind. exact Et.
  - intros r col Hr Hc. rewrite Ct. unfold t0.
    rewrite fresh_range_tensor by (lia || assumption). reflexivity.
Qed.

Lemma splat_bounds_hi (size shift : Z) (p : Q) :
  (snd (splat_bounds size shift p) <= size - 1)%Z.
Proof.
  unfold splat_bounds. simpl snd.
  destruct (Z.gtb_spec (py_int (p + inject_Z shift + 1)) (size - 1)); lia.
Qed.

Lemma in_slice_last (n : nat) (start : option Z) (hi : Z) :
  (hi <= Z.of_nat n - 1)%Z -> in_slice n start (Some hi) (n - 1) = false.
Proof.
  intro H. unfold in_slice. apply andb_false_iff. right.
  apply Z.ltb_ge. unfold slice_hi, slice_bound.
  destruct (Z.ltb_spec hi 0); lia.
Qed.

(** Whatever the samples, no splat ever writes the last row of the grid:
    the upper bound, cut to [h - 1], is used as an exclusive slice bound. *)
Lemma splat_last_row_never_written (h w : nat) (kernel_size : Z)
  (lidar_array : list sample) :
  exists t,
    lidar_array_to_image_like_tensor lidar_array (1, h, w)%nat kernel_size
    = Ok t /\
    forall col, (0 < h)%nat -> (col < w)%nat ->
      cell t 0 (h - 1) col = Some (-1).
Proof.
  unfold lidar_array_to_image_like_tensor.
  set (shift := ((kernel_size - 1) / 2)%Z).
  set (t0 := map_tensor (fun v => v * -1) (full 1 h w 1)).
  assert (S0 : has_shapeb 1 h w t0 = true)
    by (apply map_tensor_shape, full_shape).
  assert (C0 : forall col, (0 < h)%nat -> (col < w)%nat ->
                 cell t0 0 (h - 1) col = Some (-1)).
  { intros col Hh Hc. apply fresh_range_tensor; lia. }
  clearbody t0. revert t0 S0 C0.
  induction lidar_array as [ | s rest IH]; intros t0 S0 C0.
  - exists t0. split; [reflexivity | exact C0].
  - simpl fold_left.
    destruct (splat_cell 1 h w shift t0 s S0) as [t1 [E1 [S1 C1]]]; [lia | ].
    rewrite E1. apply IH; [exact S1 | ].
    intros col Hh Hc. rewrite C1, (C0 col Hh Hc). simpl option_map.
    rewrite in_slice_last by apply splat_bounds_hi. reflexivity.
Qed.

(** C2 (the code departs from the claim).  Shape (1, 1280, 1920), kernel 5,
    one sample at x = 10, y = 1279 with range 5: the clipped window is rows
    1277..1279, columns 8..12.  Rows 1277 and 1278 take the value; row 1279,
    the last valid index and the sample's own row, keeps the sentinel. *)
Theorem splat_bottom_row_unwritten :
  exists t,
    lidar_array_to_image_like_tensor
      [{| s_x := 10; s_y := 1279; s_d := 5 |}] (1, 1280, 1920)%nat 5 = Ok t /\
    cell t 0 1277 8 = Some 5 /\ cell t 0 1277 12 = Some 5 /\
    cell t 0 1278 10 = Some 5 /\
    cell t 0 1279 10 = Some (-1) /\
    cell t 0 1276 10 = Some (-1) /\ cell t 0 1278 13 = Some (-1).
Proof.
  destruct (splat_single 1280 1920 5 {| s_x := 10; s_y := 1279; s_d := 5 |})
    as [t [Et Ct]].
  exists t. split; [exact Et | ].
  repeat split; rewrite Ct by lia; vm_compute; reflexivity.
Qed.

(** ** Ground-truth heat maps *)

Lemma slice_bound_id (n i : Z) : (0 <= i <= n)%Z -> slice_bound n i = i.
Proof. intro H. unfold slice_bound. destruct (Z.ltb_spec i 0); lia. Qed.

Lemma slice_len_inside (n : nat) (lo len : Z) :
  (0 <= lo)%Z -> (0 <= len)%Z -> (lo + len <= Z.of_nat n)%Z ->
  slice_len n (Some lo) (Some (lo + len)%Z) = Z.to_nat len.
Proof.
  intros H0 H1 H2. unfold slice_len, slice_lo, slice_hi.
  rewrite !slice_bound_id by lia. f_equal. lia.
Qed.

Lemma in_slice_inside (n : nat) (lo len : Z) (i : nat) :
  (0 <= lo)%Z -> (0 <= len)%Z -> (lo + len <= Z.of_nat n)%Z ->
  in_slice n (Some lo) (Some (lo + len)%Z) i
  = ((lo <=? Z.of_nat i)%Z && (Z.of_nat i <? lo + len)%Z).
Proof.
  intros H0 H1 H2. unfold in_slice, slice_lo, slice_hi.
  rewrite !slice_bound_id by lia. reflexivity.
Qed.

Lemma nth_cell2 (g : grid) (r c : nat) :
  nth c (nth r g []) 0 = match cell2 g r c with Some v => v | None => 0 end.
Proof.
  unfold cell2. destruct (nth_error g r) as [rw | ] eqn:Er.
  - rewrite (nth_error_nth g r [] Er).
    destruct (nth_error rw c) as [v | ] eqn:Ec.
    + apply nth_error_nth. exact Ec.
    + apply nth_overflow. apply nth_error_None. exact Ec.
  - rewrite (nth_overflow g [] (n := r)) by (apply nth_error_None; exact Er).
    destruct c; reflexivity.
Qed.

Lemma box_cell_all (P : Q -> Prop) (b : box) (i j : nat) :
  P 0 -> (forall r c v, cell2 (b_cells b) r c = Some v -> P v) ->
  P (box_cell b i j).
Proof.
  intros H0 H. unfold box_cell. rewrite nth_cell2.
  destruct (cell2 (b_cells b) _ _) as [v | ] eqn:E; [ | exact H0].
  apply (H _ _ _ E).
Qed.

Lemma assign_box_cell (h w : nat) (y0 y1 x0 x1 : Z) (b : box) (g g' : grid) :
  grid_shapeb h w g = true ->
  assign_box h w y0 y1 x0 x1 b g = Ok g' ->
  grid_shapeb h w g' = true /\
  forall r c,
    cell2 g' r c
    = option_map
        (fun old =>
           if in_slice h (Some y0) (Some y1) r && in_slice w (Some x0) (Some x1) c
           then box_cell b (r - Z.to_nat (slice_lo h (Some y0)))
                           (c - Z.to_nat (slice_lo w (Some x0)))
           else old)
        (cell2 g r c).
Proof.
  intros Hs. unfold assign_box.
  destruct (broadcastable (b_height b) _ && broadcastable (b_width b) _);
    [ | intro X; discriminate X].
  intro E. injection E as <-.
  pose proof Hs as Hs'. apply grid_shapeb_true in Hs'. destruct Hs' as [Hl Hw].
  split.
  - apply grid_shapeb_true. split; [rewrite length_mapi; exact Hl | ].
    intros rw Hin. apply In_nth_error in Hin. destruct Hin as [k Hk].
    rewrite nth_error_mapi in Hk.
    destruct (nth_error g k) as [rw0 | ] eqn:E; [ | discriminate Hk].
    simpl in Hk. injection Hk as <-.
    assert (Hrw : length rw0 = w) by (apply Hw; eapply nth_error_In; exact E).
    destruct (in_slice h (Some y0) (Some y1) k); [ | exact Hrw].
    rewrite length_mapi. exact Hrw.
  - intros r c. unfold cell2. rewrite nth_error_mapi.
    destruct (nth_error g r) as [rw | ] eqn:Er; simpl; [ | reflexivity].
    destruct (in_slice h (Some y0) (Some y1) r); simpl.
    + rewrite nth_error_mapi. reflexivity.
    + destruct (nth_error rw c); reflexivity.
Qed.

Lemma assign_box_inside (h w : nat) (y x : Z) (b : box) (g : grid) :
  (0 <= y)%Z -> (0 <= x)%Z ->
  (y + Z.of_nat (b_height b) <= Z.of_nat h)%Z ->
  (x + Z.of_nat (b_width b) <= Z.of_nat w)%Z ->
  exists g', assign_box h w y (y + Z.of_nat (b_height b))
                            x (x + Z.of_nat (b_width b)) b g = Ok g'.
Proof.
  intros Hy Hx Hh Hw. unfold assign_box.
  rewrite !slice_len_inside by lia. rewrite !Nat2Z.id.
  unfold broadcastable. rewrite !Nat.eqb_refl. simpl.
  eexists. reflexivity.
Qed.

(** The template of a recognized class over a box of non-negative extent. *)
Lemma create_bb_recognized (object_class width height : Z) :
  recognized object_class = true -> (0 <= width)%Z -> (0 <= height)%Z ->
  exists b, _create_ground_truth_bb object_class width height = Ok b /\
    b_height b = Z.to_nat height /\ b_width b = Z.to_nat width /\
    grid_shapeb (Z.to_nat height) (Z.to_nat width) (b_cells b) = true /\
    forall r c v, cell2 (b_cells b) r c = Some v -> unit_interval v.
Proof.
  intros Hrec Hw Hh. unfold _create_ground_truth_bb, np_ones.
  destruct (Z.ltb_spec height 0); [lia | ].
  destruct (Z.ltb_spec width 0); [lia | ]. simpl.
  set (ones := full_grid (Z.to_nat height) (Z.to_nat width) 1).
  assert (Sones : grid_shapeb (Z.to_nat height) (Z.to_nat width) ones = true)
    by apply full_grid_shape.
  assert (Cones : forall r c v, cell2 ones r c = Some v -> unit_interval v).
  { intros r c v Hv.
    assert (E : v = 1).
    { apply (cell_full_inv 1 (Z.to_nat height) (Z.to_nat width) 1 v 0 r c).
      exact Hv. }
    subst v. unfold unit_interval. lra. }
  destruct (Z.eqb_spec object_class 2) as [E2 | N2].
  - eexists. split; [reflexivity | ].
    unfold _create_ground_truth_bb_pedestrian, with_cells. simpl.
    split; [reflexivity | ]. split; [reflexivity | ]. fold ones. split.
    + repeat apply fill_slice_shape. exact Sones.
    + intros r c v.
      repeat (erewrite cell2_fill_slice;
              [ | repeat apply fill_slice_shape; exact Sones]).
      destruct (cell2 ones r c) as [v0 | ] eqn:E0; [ | intro X; discriminate X].
      simpl. pose proof (Cones r c v0 E0) as [L U].
      intro E. injection E as <-.
      unfold unit_interval, unlikely, uncertain, half_certain.
      repeat match goal with
             | |- context [if ?b then _ else _] => destruct b
             end; lra.
  - unfold recognized in Hrec.
    destruct (Z.eqb_spec object_class 4) as [E4 | N4];
      [ | destruct (Z.eqb_spec object_class 1) as [E1 | N1]].
    + eexists. split; [reflexivity | ]. simpl. auto.
    + eexists. split; [reflexivity | ]. simpl. auto.
    + exfalso. revert Hrec.
      destruct (Z.eqb_spec object_class 1); [contradiction | ].
      destruct (Z.eqb_spec object_class 2); [contradiction | ].
      destruct (Z.eqb_spec object_class 4); [contradiction | ].
      discriminate.
Qed.

Lemma obj_idx_lt (object_class : Z) : (obj_idx object_class < 3)%nat.
Proof.
  unfold obj_idx.
  destruct (Z.eqb_spec object_class 1); destruct (Z.eqb_spec object_class 2);
    destruct (Z.eqb_spec object_class 4); simpl; lia.
Qed.

Lemma inside_image_true (width_img height_img : Z) (l : label) :
  inside_image width_img height_img l = true ->
  (0 <= l_x l /\ 0 <= l_y l /\ 0 <= l_width l /\ 0 <= l_height l /\
   l_x l + l_width l <= width_img /\ l_y l + l_height l <= height_img)%Z.
Proof.
  unfold inside_image. rewrite !andb_true_iff, !Z.leb_le. tauto.
Qed.

(** Writing one label whose box, if its class is recognized, lies inside the
    image: the write succeeds and keeps shape and value range. *)
Lemma write_label_inside (width_img height_img : Z) (m : tensor) (l : label) :
  (0 <= width_img)%Z -> (0 <= height_img)%Z ->
  has_shapeb 3 (Z.to_nat height_img) (Z.to_nat width_img) m = true ->
  all_cells unit_interval m ->
  (recognized (l_type l) = true -> inside_image width_img height_img l = true) ->
  exists m', write_label height_img width_img m l = Ok m' /\
    has_shapeb 3 (Z.to_nat height_img) (Z.to_nat width_img) m' = true /\
    all_cells unit_interval m'.
Proof.
  intros HW HH Hs Hall Hin. unfold write_label.
  destruct (recognized (l_type l)) eqn:Hrec; [ | exists m; auto].
  destruct (inside_image_true _ _ _ (Hin eq_refl))
    as [Hx [Hy [Hw [Hh [Hxw Hyh]]]]].
  destruct (create_bb_recognized (l_type l) (l_width l) (l_height l) Hrec Hw Hh)
    as [b [Eb [Bh [Bw [Sb Cb]]]]].
  rewrite Eb. simpl bind.
  destruct (has_shape_channel 3 _ _ m (obj_idx (l_type l)) Hs (obj_idx_lt _))
    as [g [Eg Sg]].
  replace (l_y l + l_height l)%Z with (l_y l + Z.of_nat (b_height b))%Z
    by (rewrite Bh; lia).
  replace (l_x l + l_width l)%Z with (l_x l + Z.of_nat (b_width b))%Z
    by (rewrite Bw; lia).
  destruct (assign_box_inside (Z.to_nat height_img) (Z.to_nat width_img)
              (l_y l) (l_x l) b g) as [g' Eg']; try lia.
  destruct (assign_box_cell _ _ _ _ _ _ b g g' Sg Eg') as [Sg' Cg'].
  destruct (update_channel_ok (obj_idx (l_type l)) _ m g g' Eg Eg')
    as [m' [Em' [_ [Hsame Hother]]]].
  exists m'. split; [exact Em' | ]. split.
  - refine (update_channel_shape 3 _ _ _ _ m m' Hs _ Em').
    intros g0 g1 S0 E0.
    apply (assign_box_cell _ _ _ _ _ _ b g0 g1 S0 E0).
  - intros ch r c v. unfold cell.
    destruct (Nat.eq_dec ch (obj_idx (l_type l))) as [-> | Hne].
    + rewrite Hsame, Cg'.
      destruct (cell2 g r c) as [old | ] eqn:Eold; [ | intro X; discriminate X].
      simpl. intro E. injection E as <-.
      destruct (in_slice _ _ _ r && in_slice _ _ _ c).
      * apply box_cell_all; [unfold unit_interval; lra | exact Cb].
      * apply (Hall (obj_idx (l_type l)) r c old). unfold cell.
        rewrite Eg. exact Eold.
    + rewrite (Hother ch Hne). apply (Hall ch r c v).
Qed.

Lemma fold_bind_err {A S : Type} (f : S -> A -> result S) (l : list A)
  (e : error) :
  fold_left (fun acc a => s <- acc ;; f s a) l (Err e) = Err e.
Proof. induction l as [ | a t IH]; simpl; [reflexivity | exact IH]. Qed.

Lemma np_zeros3_ok (height_img width_img : Z) :
  (0 <= width_img)%Z -> (0 <= height_img)%Z ->
  np_zeros3 height_img width_img
  = Ok (full 3 (Z.to_nat height_img) (Z.to_nat width_img) 0).
Proof.
  intros HW HH. unfold np_zeros3.
  destruct (Z.ltb_spec height_img 0); [lia | ].
  destruct (Z.ltb_spec width_img 0); [lia | ]. reflexivity.
Qed.

Lemma zeros_unit (c h w : nat) : all_cells unit_interval (full c h w 0).
Proof.
  intros ch r col v Hv. apply cell_full_inv in Hv. subst v.
  unfold unit_interval. lra.
Qed.

(** A frame whose recognized labels all lie inside the image. *)
Lemma create_maps_inside (ground_truth : list label) (width_img height_img : Z) :
  (0 <= width_img)%Z -> (0 <= height_img)%Z ->
  (forall l, In l ground_truth -> recognized (l_type l) = true ->
             inside_image width_img height_img l = true) ->
  exists m, create_ground_truth_maps ground_truth width_img height_img = Ok m /\
    has_shapeb 3 (Z.to_nat height_img) (Z.to_nat width_img) m = true /\
    all_cells unit_interval m.
Proof.
  intros HW HH Hin. unfold create_ground_truth_maps.
  rewrite np_zeros3_ok by assumption. simpl bind.
  pose proof (full_shape 3 (Z.to_nat height_img) (Z.to_nat width_img) 0) as S0.
  pose proof (zeros_unit 3 (Z.to_nat height_img) (Z.to_nat width_img)) as C0.
  revert S0 C0.
  generalize (full 3 (Z.to_nat height_img) (Z.to_nat width_img) 0) as m0.
  induction ground_truth as [ | l rest IH]; intros m0 S0 C0.
  - exists m0. auto.
  - simpl fold_left.
    destruct (write_label_inside width_img height_img m0 l HW HH S0 C0)
      as [m1 [E1 [S1 C1]]].
    { apply Hin. left. reflexivity. }
    rewrite E1. apply IH; [ | exact S1 | exact C1].
    intros x Hx. apply Hin. right. exact Hx.
Qed.

(** The guarded caller never lets the class failure through. *)
Lemma write_label_not_class_error (height_img width_img : Z) (m : tensor)
  (l : label) :
  write_label height_img width_img m l <> Err InvalidLabelClass.
Proof.
  unfold write_label.
  destruct (recognized (l_type l)) eqn:Hrec; [ | discriminate].
  unfold _create_ground_truth_bb, np_ones.
  destruct ((l_height l <? 0)%Z || (l_width l <? 0)%Z); [discriminate | ].
  simpl bind.
  assert (Hupd : forall b, update_channel (obj_idx (l_type l))
                  (assign_box (Z.to_nat height_img) (Z.to_nat width_img)
                     (l_y l) (l_y l + l_height l) (l_x l)
                     (l_x l + l_width l) b) m <> Err InvalidLabelClass).
  { intro b. unfold update_channel.
    destruct (nth_error m (obj_idx (l_type l))); [ | discriminate].
    unfold assign_box.
    destruct (broadcastable _ _ && broadcastable _ _); simpl; discriminate. }
  unfold recognized in Hrec.
  destruct (l_type l =? 2)%Z; [apply Hupd | ].
  destruct (l_type l =? 4)%Z; [apply Hupd | ].
  destruct (l_type l =? 1)%Z; [apply Hupd | discriminate Hrec].
Qed.

Lemma write_label_unrecognized (height_img width_img : Z) (m : tensor)
  (l : label) :
  recognized (l_type l) = false -> write_label height_img width_img m l = Ok m.
Proof. intro H. unfold write_label. rewrite H. reflexivity. Qed.

Lemma fold_write_filter (height_img width_img : Z) (ground_truth : list label)
  (acc : result tensor) :
  fold_left (fun acc elem => m <- acc ;; write_label height_img width_img m elem)
            ground_truth acc
  = fold_left (fun acc elem => m <- acc ;; write_label height_img width_img m elem)
              (filter (fun l => recognized (l_type l)) ground_truth) acc.
Proof.
  revert acc. induction ground_truth as [ | l rest IH]; intro acc;
    [reflexivity | ].
  simpl. destruct (recognized (l_type l)) eqn:Hrec; simpl.
  - apply IH.
  - rewrite <- IH. f_equal. destruct acc as [m | e]; simpl; [ | reflexivity].
    apply write_label_unrecognized. exact Hrec.
Qed.

Lemma fold_write_not_class_error (height_img width_img : Z)
  (ground_truth : list label) (acc : result tensor) :
  acc <> Err InvalidLabelClass ->
  fold_left (fun acc elem => m <- acc ;; write_label height_img width_img m elem)
            ground_truth acc <> Err InvalidLabelClass.
Proof.
  revert acc. induction ground_truth as [ | l rest IH]; intros acc Hacc;
    [exact Hacc | ].
  simpl. apply IH. destruct acc as [m | e]; simpl; [ | exact Hacc].
  apply write_label_not_class_error.
Qed.

(** C1 (amended).  The class failure lives in [_create_ground_truth_bb]
    alone: a class other than 1, 2, 4 over a box of non-negative extent
    makes it fail.  [create_ground_truth_maps] guards the call: a label of
    any other class is skipped, so the result is that of the frame without
    such labels, the class failure never reaches the caller, and a frame
    whose recognized labels lie inside the image returns normally. *)
Theorem unrecognized_labels_skipped :
  (forall object_class width height,
     recognized object_class = false -> (0 <= width)%Z -> (0 <= height)%Z ->
     _create_ground_truth_bb object_class width height
     = Err InvalidLabelClass) /\
  (forall ground_truth width_img height_img,
     create_ground_truth_maps ground_truth width_img height_img
     = create_ground_truth_maps
         (filter (fun l => recognized (l_type l)) ground_truth)
         width_img height_img) /\
  (forall ground_truth width_img height_img,
     create_ground_truth_maps ground_truth width_img height_img
     <> Err InvalidLabelClass) /\
  (forall ground_truth width_img height_img,
     (0 <= width_img)%Z -> (0 <= height_img)%Z ->
     (forall l, In l ground_truth -> recognized (l_type l) = true ->
                inside_image width_img height_img l = true) ->
     exists m,
       create_ground_truth_maps ground_truth width_img height_img = Ok m).
Proof.
  split; [ | split; [ | split]].
  - intros cls w h Hrec Hw Hh. unfold _create_ground_truth_bb, np_ones.
    destruct (Z.ltb_spec h 0); [lia | ].
    destruct (Z.ltb_spec w 0); [lia | ]. simpl.
    unfold recognized in Hrec. apply orb_false_iff in Hrec.
    destruct Hrec as [Hrec E4]. apply orb_false_iff in Hrec.
    destruct Hrec as [E1 E2]. rewrite E1, E2, E4. reflexivity.
  - intros gt W H. unfold create_ground_truth_maps.
    destruct (np_zeros3 H W) as [m | e]; simpl; [ | reflexivity].
    apply fold_write_filter.
  - intros gt W H. unfold create_ground_truth_maps.
    destruct (np_zeros3 H W) as [m | e] eqn:E; simpl.
    + apply fold_write_not_class_error. discriminate.
    + unfold np_zeros3 in E.
      destruct ((H <? 0)%Z || (W <? 0)%Z); [ | discriminate E].
      injection E as <-. discriminate.
  - intros gt W H HW HH Hin.
    destruct (create_maps_inside gt W H HW HH Hin) as [m [E _]].
    exists m. exact E.
Qed.

Lemma overflow_slice_len (n : nat) (lo len : Z) :
  (0 <= lo)%Z -> (2 <= len)%Z -> (Z.of_nat n < lo + len)%Z ->
  broadcastable (Z.to_nat len) (slice_len n (Some lo) (Some (lo + len)%Z))
  = false.
Proof.
  intros H0 H1 H2. unfold broadcastable, slice_len, slice_lo, slice_hi,
    slice_bound.
  destruct (Z.ltb_spec lo 0); [lia | ].
  destruct (Z.ltb_spec (lo + len) 0); [lia | ].
  apply orb_false_iff. split; apply Nat.eqb_neq; lia.
Qed.

(** A recognized label that sticks out of the image on the right or at the
    bottom: the template keeps its full size, the slice is cut, and the
    assignment fails. *)
Lemma box_past_edge (l : label) (width_img height_img : Z) :
  (0 <= width_img)%Z -> (0 <= height_img)%Z ->
  recognized (l_type l) = true ->
  (0 <= l_width l)%Z -> (0 <= l_height l)%Z ->
  (0 <= l_x l /\ 2 <= l_width l /\ width_img < l_x l + l_width l
   \/ 0 <= l_y l /\ 2 <= l_height l /\ height_img < l_y l + l_height l)%Z ->
  create_ground_truth_maps [l] width_img height_img = Err ShapeMismatch.
Proof.
  intros HW HH Hrec Hw Hh Hout. unfold create_ground_truth_maps.
  rewrite np_zeros3_ok by assumption. simpl.
  unfold write_label. rewrite Hrec.
  destruct (create_bb_recognized (l_type l) (l_width l) (l_height l) Hrec Hw Hh)
    as [b [Eb [Bh [Bw _]]]].
  rewrite Eb. simpl bind.
  destruct (has_shape_channel 3 _ _ _ (obj_idx (l_type l))
              (full_shape 3 (Z.to_nat height_img) (Z.to_nat width_img) 0)
              (obj_idx_lt _)) as [g [Eg _]].
  apply (update_channel_err _ _ _ g _ Eg).
  unfold assign_box. rewrite Bh, Bw.
  destruct Hout as [[Hx [H2 Hover]] | [Hy [H2 Hover]]].
  - rewrite (overflow_slice_len (Z.to_nat width_img)) by lia.
    rewrite andb_false_r. reflexivity.
  - rewrite (overflow_slice_len (Z.to_nat height_img)) by lia.
    reflexivity.
Qed.

(** C1 as stated fails on both counts: a frame holding one label of class 3
    (a sign in the dataset's numbering) comes back as the all-zero map, no
    failure; and a frame holding one vehicle that reaches past the right
    edge does not return normally. *)
Lemma class_failure_not_propagated :
  recognized 3 = false /\
  create_ground_truth_maps
    [{| l_type := 3; l_x := 100; l_y := 200; l_width := 30; l_height := 40 |}]
    1920 1280
  = Ok (full 3 1280 1920 0) /\
  recognized 1 = true /\
  create_ground_truth_maps
    [{| l_type := 1; l_x := 1900; l_y := 100; l_width := 50; l_height := 40 |}]
    1920 1280
  = Err ShapeMismatch.
Proof.
  split; [reflexivity | ]. split; [reflexivity | ]. split; [reflexivity | ].
  apply box_past_edge; simpl; try reflexivity; lia.
Qed.

(** C10.  A frame of recognized labels whose boxes (non-negative extent)
    lie inside the image yields a (3, height, width) map with every cell in
    [0, 1]; nothing clips a box, so a recognized label at least two pixels
    wide (tall) that reaches past the right (bottom) edge makes the call fail
    with the shape mismatch of the slice assignment. *)
Theorem boxes_are_not_clipped (ground_truth : list label)
  (width_img height_img : Z) :
  (0 <= width_img)%Z -> (0 <= height_img)%Z ->
  forallb (fun l => recognized (l_type l)
                    && inside_image width_img height_img l) ground_truth
  = true ->
  (exists m,
     create_ground_truth_maps ground_truth width_img height_img = Ok m /\
     has_shapeb 3 (Z.to_nat height_img) (Z.to_nat width_img) m = true /\
     all_cells unit_interval m) /\
  (forall l, recognized (l_type l) = true ->
     (0 <= l_x l)%Z -> (0 <= l_height l)%Z -> (2 <= l_width l)%Z ->
     (width_img < l_x l + l_width l)%Z ->
     create_ground_truth_maps [l] width_img height_img = Err ShapeMismatch) /\
  (forall l, recognized (l_type l) = true ->
     (0 <= l_y l)%Z -> (0 <= l_width l)%Z -> (2 <= l_height l)%Z ->
     (height_img < l_y l + l_height l)%Z ->
     create_ground_truth_maps [l] width_img height_img = Err ShapeMismatch).
Proof.
  intros HW HH Hall. split; [ | split].
  - apply create_maps_inside; try assumption.
    intros l Hin _. rewrite forallb_forall in Hall.
    apply Hall in Hin. apply andb_true_iff in Hin. apply Hin.
  - intros l Hrec Hx Hh Hw Hover.
    apply box_past_edge; try assumption; try lia.
  - intros l Hrec Hy Hw Hh Hover.
    apply box_past_edge; try assumption; try lia.
Qed.

Lemma boxes_are_not_clipped_witness :
  let frame :=
    [{| l_type := 1; l_x := 100; l_y := 200; l_width := 300; l_height := 150 |};
     {| l_type := 2; l_x := 1912; l_y := 1270; l_width := 8; l_height := 10 |}]
  in
  (exists m,
     create_ground_truth_maps frame 1920 1280 = Ok m /\
     has_shapeb 3 (Z.to_nat 1280) (Z.to_nat 1920) m = true /\
     all_cells unit_interval m) /\
  (forall l, recognized (l_type l) = true ->
     (0 <= l_x l)%Z -> (0 <= l_height l)%Z -> (2 <= l_width l)%Z ->
     (1920 < l_x l + l_width l)%Z ->
     create_ground_truth_maps [l] 1920 1280 = Err ShapeMismatch) /\
  (forall l, recognized (l_type l) = true ->
     (0 <= l_y l)%Z -> (0 <= l_width l)%Z -> (2 <= l_height l)%Z ->
     (1280 < l_y l + l_height l)%Z ->
     create_ground_truth_maps [l] 1920 1280 = Err ShapeMismatch).
Proof.
  intro frame. apply (boxes_are_not_clipped frame 1920 1280).
  - lia.
  - lia.
  - vm_compute. reflexivity.
Defined.

(** ** The pedestrian template *)

Lemma in_slice_true_iff (n : nat) (start stop : option Z) (i : nat) :
  in_slice n start stop i = true <->
  (slice_lo n start <= Z.of_nat i < slice_hi n stop)%Z.
Proof.
  unfold in_slice. rewrite andb_true_iff, Z.leb_le, Z.ltb_lt. reflexivity.
Qed.

Lemma pedestrian_cells (h w : nat) (b : box) (r c : nat) :
  np_ones (Z.of_nat h) (Z.of_nat w) = Ok b ->
  (r < h)%nat -> (c < w)%nat ->
  let hf := (Z.of_nat h / 5)%Z in
  let wf := (Z.of_nat w / 4)%Z in
  let side := ((Z.of_nat c <? wf) || (wf * 3 <=? Z.of_nat c))%Z in
  cell2 (b_cells (_create_ground_truth_bb_pedestrian b)) r c
  = Some (if (Z.of_nat r <? hf)%Z && side then unlikely
          else if (hf * 3 <=? Z.of_nat r)%Z && side then uncertain
          else if (hf * 3 <=? Z.of_nat r)%Z then half_certain
          else 1).
Proof.
  intros Eb Hr Hc hf wf side.
  unfold np_ones in Eb.
  destruct ((Z.of_nat h <? 0)%Z || (Z.of_nat w <? 0)%Z); [discriminate Eb | ].
  injection Eb as <-. rewrite !Nat2Z.id.
  unfold _create_ground_truth_bb_pedestrian, with_cells. simpl.
  fold hf. fold wf.
  set (ones := full_grid h w 1).
  assert (Sones : grid_shapeb h w ones = true) by apply full_grid_shape.
  repeat (erewrite cell2_fill_slice;
          [ | repeat apply fill_slice_shape; exact Sones]).
  unfold ones. rewrite cell2_full_grid by assumption. simpl option_map.
  f_equal.
  assert (Hhf : (0 <= hf /\ hf * 5 <= Z.of_nat h)%Z).
  { unfold hf. split; [apply Z.div_pos; lia | ].
    rewrite Z.mul_comm. apply Z.mul_div_le. lia. }
  assert (Hwf : (0 <= wf /\ wf * 4 <= Z.of_nat w)%Z).
  { unfold wf. split; [apply Z.div_pos; lia | ].
    rewrite Z.mul_comm. apply Z.mul_div_le. lia. }
  unfold side, in_slice, slice_lo, slice_hi.
  rewrite !slice_bound_id by lia.
  destruct (Z.ltb_spec (Z.of_nat r) hf); destruct (Z.leb_spec (hf * 3) (Z.of_nat r));
    destruct (Z.ltb_spec (Z.of_nat c) wf);
    destruct (Z.leb_spec (wf * 3) (Z.of_nat c));
    destruct (Z.leb_spec wf (Z.of_nat c));
    destruct (Z.leb_spec 0 (Z.of_nat r));
    destruct (Z.leb_spec 0 (Z.of_nat c));
    destruct (Z.ltb_spec (Z.of_nat r) (Z.of_nat h));
    destruct (Z.ltb_spec (Z.of_nat c) (Z.of_nat w));
    destruct (Z.ltb_spec (Z.of_nat c) (wf * 3));
    simpl; try reflexivity; lia.
Qed.

(** C7.  The pedestrian template over an all-ones box of shape (h, w), with
    hf = h div 5 and wf = w div 4: rows below hf of the side columns (left
    of wf, or from 3 wf on) hold 0.3; rows from 3 hf on hold 0.5 in the side
    columns and 0.75 between them; every other cell stays 1.  For the 10 x 8
    box at the origin of a 1920 x 1280 frame, channel 1 of the map holds 0.3
    at (0,0), 0.5 at (9,0), 0.75 at (9,4) and 1 at (5,4). *)
Theorem pedestrian_template (h w r c : nat) :
  (r < h)%nat -> (c < w)%nat ->
  (exists b,
     _create_ground_truth_bb 2 (Z.of_nat w) (Z.of_nat h) = Ok b /\
     b_height b = h /\ b_width b = w /\
     let hf := (Z.of_nat h / 5)%Z in
     let wf := (Z.of_nat w / 4)%Z in
     let side := ((Z.of_nat c <? wf) || (wf * 3 <=? Z.of_nat c))%Z in
     cell2 (b_cells b) r c
     = Some (if (Z.of_nat r <? hf)%Z && side then 3 # 10
             else if (hf * 3 <=? Z.of_nat r)%Z && side then 1 # 2
             else if (hf * 3 <=? Z.of_nat r)%Z then 3 # 4
             else 1)) /\
  (exists m,
     create_ground_truth_maps
       [{| l_type := 2; l_x := 0; l_y := 0; l_width := 8; l_height := 10 |}]
       1920 1280 = Ok m /\
     cell m 1 0 0 = Some (3 # 10) /\ cell m 1 9 0 = Some (1 # 2) /\
     cell m 1 9 4 = Some (3 # 4) /\ cell m 1 5 4 = Some 1).
Proof.
  intros Hr Hc. split.
  - destruct (np_ones (Z.of_nat h) (Z.of_nat w)) as [b0 | e] eqn:E0.
    + exists (_create_ground_truth_bb_pedestrian b0).
      unfold _create_ground_truth_bb. rewrite E0. simpl.
      split; [reflexivity | ].
      pose proof (pedestrian_cells h w b0 r c E0 Hr Hc) as Hcell.
      unfold np_ones in E0.
      destruct ((Z.of_nat h <? 0)%Z || (Z.of_nat w <? 0)%Z);
        [discriminate E0 | ].
      injection E0 as <-. simpl. rewrite !Nat2Z.id.
      split; [reflexivity | ]. split; [reflexivity | ].
      simpl in Hcell. rewrite !Nat2Z.id in Hcell. exact Hcell.
    + unfold np_ones in E0.
      destruct (Z.ltb_spec (Z.of_nat h) 0); [lia | ].
      destruct (Z.ltb_spec (Z.of_nat w) 0); [lia | ]. discriminate E0.
  - eexists. split; [reflexivity | ].
    repeat split; vm_compute; reflexivity.
Qed.

Lemma pedestrian_template_witness :
  (exists b,
     _create_ground_truth_bb 2 (Z.of_nat 8) (Z.of_nat 10) = Ok b /\
     b_height b = 10%nat /\ b_width b = 8%nat /\
     let hf := (Z.of_nat 10 / 5)%Z in
     let wf := (Z.of_nat 8 / 4)%Z in
     let side := ((Z.of_nat 4 <? wf) || (wf * 3 <=? Z.of_nat 4))%Z in
     cell2 (b_cells b) 9 4
     = Some (if (Z.of_nat 9 <? hf)%Z && side then 3 # 10
             else if (hf * 3 <=? Z.of_nat 9)%Z && side then 1 # 2
             else if (hf * 3 <=? Z.of_nat 9)%Z then 3 # 4
             else 1)) /\
  (exists m,
     create_ground_truth_maps
       [{| l_type := 2; l_x := 0; l_y := 0; l_width := 8; l_height := 10 |}]
       1920 1280 = Ok m /\
     cell m 1 0 0 = Some (3 # 10) /\ cell m 1 9 0 = Some (1 # 2) /\
     cell m 1 9 4 = Some (3 # 4) /\ cell m 1 5 4 = Some 1).
Proof.
  apply (pedestrian_template 10 8 9 4); lia.
Defined.

(** ** The overlap metric *)

Section ZipFacts.
Context {A B C : Type}.

Lemma nth_error_zip_with (f : A -> B -> C) (l1 : list A) (l2 : list B)
  (i : nat) :
  nth_error (zip_with f l1 l2) i
  = match nth_error l1 i, nth_error l2 i with
    | Some a, Some b => Some (f a b)
    | _, _ => None
    end.
Proof.
  unfold zip_with. revert l2 i.
  induction l1 as [ | a t IH]; intros l2 i.
  - destruct i; reflexivity.
  - destruct l2 as [ | b t2].
    + destruct i as [ | i]; simpl; [reflexivity | ].
      destruct (nth_error t i); reflexivity.
    + destruct i as [ | i]; simpl; [reflexivity | apply IH].
Qed.

Lemma zip_with_repeat (f : A -> B -> C) (a : A) (b : B) (n : nat) :
  zip_with f (repeat a n) (repeat b n) = repeat (f a b) n.
Proof.
  unfold zip_with. induction n as [ | n IH]; simpl; [ | rewrite IH];
    reflexivity.
Qed.

Lemma map_const_repeat (f : A -> B) (b : B) (l : list A) :
  (forall a, In a l -> f a = b) -> map f l = repeat b (length l).
Proof.
  induction l as [ | a t IH]; intro H; simpl; [reflexivity | ].
  rewrite (H a (or_introl eq_refl)).
  rewrite IH by (intros x Hx; apply H; right; exact Hx). reflexivity.
Qed.

End ZipFacts.

Lemma count_row_and_le_or (a b : list bool) :
  (count_row (zip_with andb a b) <= count_row (zip_with orb a b))%nat.
Proof.
  unfold count_row, zip_with. revert b.
  induction a as [ | x t IH]; intro b; [simpl; lia | ].
  destruct b as [ | y u]; [simpl; lia | ].
  specialize (IH u). destruct x, y; simpl in *; lia.
Qed.

Lemma count_true_and_le_or (a b : bgrid) :
  (count_true (zip_with (zip_with andb) a b)
   <= count_true (zip_with (zip_with orb) a b))%nat.
Proof.
  unfold zip_with at 1 3. revert b.
  induction a as [ | x t IH]; intro b; [simpl; lia | ].
  destruct b as [ | y u]; [simpl; lia | ].
  specialize (IH u). pose proof (count_row_and_le_or x y). simpl in *. lia.
Qed.

Lemma intersection_le_union (threshold : Q) (gt est : grid) :
  (intersection threshold gt est <= union threshold gt est)%nat.
Proof. apply count_true_and_le_or. Qed.

Lemma count_row_repeat (b : bool) (n : nat) :
  count_row (repeat b n) = if b then n else 0%nat.
Proof.
  unfold count_row. induction n as [ | n IH]; [destruct b; reflexivity | ].
  destruct b; simpl in *; [rewrite IH | ]; auto.
Qed.

Lemma count_true_repeat (b : bool) (h w : nat) :
  count_true (repeat (repeat b w) h) = if b then (h * w)%nat else 0%nat.
Proof.
  induction h as [ | h IH]; simpl; [destruct b; reflexivity | ].
  rewrite IH, count_row_repeat. destruct b; lia.
Qed.

Lemma binarize_const (threshold : Q) (h w : nat) (g : grid) (b : bool) :
  grid_shapeb h w g = true ->
  (forall r c v, cell2 g r c = Some v -> Qge_bool v threshold = b) ->
  binarize threshold g = repeat (repeat b w) h.
Proof.
  intros Hs Hall. apply grid_shapeb_true in Hs. destruct Hs as [Hl Hw].
  unfold binarize. rewrite <- Hl. apply map_const_repeat.
  intros rw Hrw. rewrite <- (Hw rw Hrw). apply map_const_repeat.
  intros v Hv. apply In_nth_error in Hrw. destruct Hrw as [r Er].
  apply In_nth_error in Hv. destruct Hv as [c Ec].
  apply (Hall r c v). unfold cell2. rewrite Er. exact Ec.
Qed.

Lemma inject_nat_pos (n : nat) : (0 < n)%nat -> 0 < inject_Z (Z.of_nat n).
Proof. intro H. unfold Qlt. simpl. lia. Qed.

Lemma ratio_unit (a b : nat) :
  (a <= b)%nat -> (0 < b)%nat ->
  unit_interval (inject_Z (Z.of_nat a) / inject_Z (Z.of_nat b)).
Proof.
  intros Hab Hb. pose proof (inject_nat_pos b Hb) as Hpos. split.
  - apply Qle_shift_div_l; [exact Hpos | ].
    rewrite Qmult_0_l. unfold Qle. simpl. lia.
  - apply Qle_shift_div_r; [exact Hpos | ].
    rewrite Qmult_1_l. rewrite <- Zle_Qle. lia.
Qed.

Lemma iou_class_score (threshold : Q) (gt est : grid) :
  exists q, iou_class threshold gt est = Num q /\ unit_interval q /\
    ((union threshold gt est <> 0)%nat ->
       q = inject_Z (Z.of_nat (intersection threshold gt est))
           / inject_Z (Z.of_nat (union threshold gt est))) /\
    (union threshold gt est = 0%nat -> q = 0).
Proof.
  pose proof (intersection_le_union threshold gt est) as Hle.
  unfold iou_class, true_divide.
  destruct (Nat.eqb_spec (union threshold gt est) 0) as [E0 | N0].
  - assert (Ei : intersection threshold gt est = 0%nat) by lia.
    rewrite Ei. simpl. exists 0. split; [reflexivity | ].
    split; [unfold unit_interval; lra | ]. split; [contradiction | reflexivity].
  - simpl. eexists. split; [reflexivity | ].
    split; [apply ratio_unit; lia | ]. split; [reflexivity | contradiction].
Qed.

(** *** The counts of the metric are the counts of the specification *)

Lemma count_row_index (l : list bool) (p : nat -> bool) (start : nat) :
  (forall i b, nth_error l i = Some b -> p (start + i)%nat = b) ->
  count_row l = length (filter p (seq start (length l))).
Proof.
  unfold count_row. revert start.
  induction l as [ | a t IH]; intros start H; [reflexivity | ].
  cbn [length seq filter].
  pose proof (H 0%nat a eq_refl) as H0. rewrite Nat.add_0_r in H0.
  rewrite H0.
  assert (Ht : length (filter (fun b => b) t)
               = length (filter p (seq (S start) (length t)))).
  { apply IH. intros i b E. rewrite <- (H (S i) b E). f_equal. lia. }
  destruct a; cbn [length]; rewrite Ht; reflexivity.
Qed.

Lemma count_true_index (b : bgrid) (f : nat -> nat) (start : nat) :
  (forall i r, nth_error b i = Some r -> f (start + i)%nat = count_row r) ->
  count_true b = list_sum (map f (seq start (length b))).
Proof.
  revert start. induction b as [ | x t IH]; intros start H; [reflexivity | ].
  cbn [length seq map list_sum count_true fold_right].
  pose proof (H 0%nat x eq_refl) as H0. rewrite Nat.add_0_r in H0.
  rewrite H0. f_equal. apply IH.
  intros i r E. rewrite <- (H (S i) r E). f_equal. lia.
Qed.

Lemma count_cells_ext (h w : nat) (p q : nat -> nat -> bool) :
  (forall r c, p r c = q r c) -> count_cells h w p = count_cells h w q.
Proof.
  intro H. unfold count_cells. f_equal. apply map_ext. intro r.
  f_equal. apply filter_ext. intro c. apply H.
Qed.

Lemma nth_error_binarize (threshold : Q) (g : grid) (r : nat) :
  nth_error (binarize threshold g) r
  = option_map (map (fun v => Qge_bool v threshold)) (nth_error g r).
Proof. unfold binarize. apply nth_error_map. Qed.

(** The sum over the cell-wise combination of the two boolean maps counts
    the cells of the h x w grid at which the combination holds. *)
Lemma count_zip_cells (op : bool -> bool -> bool) (threshold : Q)
  (h w : nat) (gt est : grid) :
  grid_shapeb h w gt = true -> grid_shapeb h w est = true ->
  count_true (zip_with (zip_with op) (binarize threshold est)
                       (binarize threshold gt))
  = count_cells h w (fun r c => op (above threshold est r c)
                                   (above threshold gt r c)).
Proof.
  intros Sgt Sest.
  pose proof (proj1 (grid_shapeb_true h w gt) Sgt) as [Lgt Wgt].
  pose proof (proj1 (grid_shapeb_true h w est) Sest) as [Lest West].
  unfold count_cells.
  assert (Lz : length (zip_with (zip_with op) (binarize threshold est)
                                (binarize threshold gt)) = h).
  { unfold zip_with at 1. rewrite length_map, length_combine.
    unfold binarize. rewrite !length_map, Lgt, Lest. apply Nat.min_id. }
  rewrite <- Lz. apply count_true_index.
  intros i r E. cbn beta. cbn [Nat.add].
  rewrite nth_error_zip_with, !nth_error_binarize in E.
  destruct (nth_error est i) as [re | ] eqn:Ere; [ | discriminate E].
  destruct (nth_error gt i) as [rg | ] eqn:Erg; [ | discriminate E].
  cbn [option_map] in E. injection E as <-.
  assert (Lre : length re = w) by (apply West; eapply nth_error_In; exact Ere).
  assert (Lrg : length rg = w) by (apply Wgt; eapply nth_error_In; exact Erg).
  assert (Lr : length (zip_with op (map (fun v => Qge_bool v threshold) re)
                                  (map (fun v => Qge_bool v threshold) rg))
               = w).
  { unfold zip_with. rewrite length_map, length_combine, !length_map.
    rewrite Lre, Lrg. apply Nat.min_id. }
  rewrite <- Lr at 1. symmetry. apply count_row_index.
  intros c b E. cbn beta. cbn [Nat.add].
  rewrite nth_error_zip_with, !nth_error_map in E.
  unfold above, cell2. rewrite Ere, Erg.
  destruct (nth_error re c) as [ve | ]; [ | discriminate E].
  destruct (nth_error rg c) as [vg | ]; [ | discriminate E].
  cbn [option_map] in E. injection E as <-. reflexivity.
Qed.

Lemma intersection_counts (threshold : Q) (h w : nat) (gt est : grid) :
  grid_shapeb h w gt = true -> grid_shapeb h w est = true ->
  intersection threshold gt est = both_above threshold h w gt est.
Proof.
  intros Sgt Sest. unfold intersection, both_above.
  rewrite (count_zip_cells andb threshold h w gt est Sgt Sest).
  apply count_cells_ext. intros r c. apply andb_comm.
Qed.

Lemma union_counts (threshold : Q) (h w : nat) (gt est : grid) :
  grid_shapeb h w gt = true -> grid_shapeb h w est = true ->
  union threshold gt est = either_above threshold h w gt est.
Proof.
  intros Sgt Sest. unfold union, either_above.
  rewrite (count_zip_cells orb threshold h w gt est Sgt Sest).
  apply count_cells_ext. intros r c. apply orb_comm.
Qed.

Lemma disjoint_counts (threshold : Q) (h w : nat) (gt est : grid) :
  grid_shapeb h w gt = true -> grid_shapeb h w est = true ->
  (forall r c v, cell2 gt r c = Some v -> threshold <= v) ->
  (forall r c v, cell2 est r c = Some v -> v < threshold) ->
  intersection threshold gt est = 0%nat /\
  union threshold gt est = (h * w)%nat.
Proof.
  intros Sgt Sest Hgt Hest.
  assert (Bgt : binarize threshold gt = repeat (repeat true w) h).
  { apply binarize_const; [exact Sgt | ]. intros r c v Hv.
    apply Qle_bool_iff. apply (Hgt r c v Hv). }
  assert (Best : binarize threshold est = repeat (repeat false w) h).
  { apply binarize_const; [exact Sest | ]. intros r c v Hv.
    apply Qle_bool_false. apply (Hest r c v Hv). }
  split.
  - unfold intersection. rewrite Bgt, Best.
    rewrite zip_with_repeat, zip_with_repeat. apply count_true_repeat.
  - unfold union. rewrite Bgt, Best.
    rewrite zip_with_repeat, zip_with_repeat. apply count_true_repeat.
Qed.

(** C4.  For two maps of the same shape (classes, h, w) the metric returns
    one score per class.  The score of class ch is a number q in [0, 1]; the
    intersection and the union that the code sums are the number of cells
    (r, c) of the h x w grid whose value is at or above the threshold in
    both maps, respectively in at least one of them; q is the intersection
    count divided by the union count when the union count is not 0, and
    exactly 0 when it is (the 0/0 of the division is replaced, nothing
    fails).  With a non-empty ground truth wholly at or above the threshold
    and an estimate wholly below it, the intersection count is 0 and the
    union count is the cell count h * w, so the score is 0 over a positive
    union. *)
Theorem overlap_metric (threshold : Q) (classes h w : nat)
  (gt_map est_map : tensor) (ch : nat) :
  has_shapeb classes h w gt_map = true ->
  has_shapeb classes h w est_map = true ->
  (ch < classes)%nat ->
  length (compute_IoU_whole_img_per_class gt_map est_map threshold) = classes /\
  exists gt est q,
    nth_error gt_map ch = Some gt /\ nth_error est_map ch = Some est /\
    nth_error (compute_IoU_whole_img_per_class gt_map est_map threshold) ch
    = Some (Num q) /\
    intersection threshold gt est = both_above threshold h w gt est /\
    union threshold gt est = either_above threshold h w gt est /\
    0 <= q /\ q <= 1 /\
    ((either_above threshold h w gt est <> 0)%nat ->
       q = inject_Z (Z.of_nat (both_above threshold h w gt est))
           / inject_Z (Z.of_nat (either_above threshold h w gt est))) /\
    (either_above threshold h w gt est = 0%nat -> q = 0) /\
    ((0 < h)%nat -> (0 < w)%nat ->
     (forall r c v, cell2 gt r c = Some v -> threshold <= v) ->
     (forall r c v, cell2 est r c = Some v -> v < threshold) ->
     both_above threshold h w gt est = 0%nat /\
     either_above threshold h w gt est = (h * w)%nat /\
     (0 < either_above threshold h w gt est)%nat /\
     q == 0).
Proof.
  intros Sgt Sest Hch. split.
  { unfold compute_IoU_whole_img_per_class, zip_with.
    rewrite length_map, length_combine.
    rewrite (proj1 (proj1 (has_shapeb_true classes h w gt_map) Sgt)).
    rewrite (proj1 (proj1 (has_shapeb_true classes h w est_map) Sest)).
    apply Nat.min_id. }
  destruct (has_shape_channel classes h w gt_map ch Sgt Hch) as [gt [Egt Ggt]].
  destruct (has_shape_channel classes h w est_map ch Sest Hch)
    as [est [Eest Gest]].
  destruct (iou_class_score threshold gt est) as [q [Eq [[L U] [Hq H0]]]].
  pose proof (intersection_counts threshold h w gt est Ggt Gest) as Ei.
  pose proof (union_counts threshold h w gt est Ggt Gest) as Eu.
  exists gt, est, q.
  split; [exact Egt | ]. split; [exact Eest | ]. split.
  { unfold compute_IoU_whole_img_per_class.
    rewrite nth_error_zip_with, Egt, Eest, Eq. reflexivity. }
  split; [exact Ei | ]. split; [exact Eu | ].
  split; [exact L | ]. split; [exact U | ].
  rewrite <- Ei, <- Eu.
  split; [exact Hq | ]. split; [exact H0 | ].
  intros Hh Hw Hgt Hest.
  destruct (disjoint_counts threshold h w gt est Ggt Gest Hgt Hest)
    as [Zi Zu].
  split; [exact Zi | ]. split; [exact Zu | ].
  assert (Hpos : (0 < union threshold gt est)%nat) by (rewrite Zu; nia).
  split; [exact Hpos | ].
  rewrite Hq by lia. rewrite Zi. unfold Qdiv. apply Qmult_0_l.
Qed.

Lemma overlap_metric_witness :
  length (compute_IoU_whole_img_per_class
            [[[1; 1]; [0; 0]]] [[[1; 0]; [1; 0]]] (1 # 2)) = 1%nat /\
  exists gt est q,
    nth_error [[[1; 1]; [0; 0]]] 0 = Some gt /\
    nth_error [[[1; 0]; [1; 0]]] 0 = Some est /\
    nth_error (compute_IoU_whole_img_per_class
                 [[[1; 1]; [0; 0]]] [[[1; 0]; [1; 0]]] (1 # 2)) 0
    = Some (Num q) /\
    intersection (1 # 2) gt est = both_above (1 # 2) 2 2 gt est /\
    union (1 # 2) gt est = either_above (1 # 2) 2 2 gt est /\
    0 <= q /\ q <= 1 /\
    ((either_above (1 # 2) 2 2 gt est <> 0)%nat ->
       q = inject_Z (Z.of_nat (both_above (1 # 2) 2 2 gt est))
           / inject_Z (Z.of_nat (either_above (1 # 2) 2 2 gt est))) /\
    (either_above (1 # 2) 2 2 gt est = 0%nat -> q = 0) /\
    ((0 < 2)%nat -> (0 < 2)%nat ->
     (forall r c v, cell2 gt r c = Some v -> (1 # 2) <= v) ->
     (forall r c v, cell2 est r c = Some v -> v < (1 # 2)) ->
     both_above (1 # 2) 2 2 gt est = 0%nat /\
     either_above (1 # 2) 2 2 gt est = (2 * 2)%nat /\
     (0 < either_above (1 # 2) 2 2 gt est)%nat /\
     q == 0).
Proof.
  apply (overlap_metric (1 # 2) 1 2 2 [[[1; 1]; [0; 0]]] [[[1; 0]; [1; 0]]] 0).
  - reflexivity.
  - reflexivity.
  - lia.
Defined.

(** A partial overlap, evaluated: one cell in both maps, three in at least
    one, score 1/3. *)
Example overlap_partial_2x2 :
  both_above (1 # 2) 2 2 [[1; 1]; [0; 0]] [[1; 0]; [1; 0]] = 1%nat /\
  either_above (1 # 2) 2 2 [[1; 1]; [0; 0]] [[1; 0]; [1; 0]] = 3%nat /\
  intersection (1 # 2) [[1; 1]; [0; 0]] [[1; 0]; [1; 0]] = 1%nat /\
  union (1 # 2) [[1; 1]; [0; 0]] [[1; 0]; [1; 0]] = 3%nat /\
  compute_IoU_whole_img_per_class
    [[[1; 1]; [0; 0]]] [[[1; 0]; [1; 0]]] (1 # 2)
  = [Num (1 / 3)].
Proof. repeat split. Qed.

(** The two cases of the specification's 4 x 4 example, evaluated. *)
Example overlap_disjoint_4x4 :
  union (1 # 2) (full_grid 4 4 1) (full_grid 4 4 0) = 16%nat /\
  either_above (1 # 2) 4 4 (full_grid 4 4 1) (full_grid 4 4 0) = 16%nat /\
  intersection (1 # 2) (full_grid 4 4 1) (full_grid 4 4 0) = 0%nat /\
  both_above (1 # 2) 4 4 (full_grid 4 4 1) (full_grid 4 4 0) = 0%nat /\
  compute_IoU_whole_img_per_class (full 1 4 4 1) (full 1 4 4 0) (1 # 2)
  = [Num (0 / 16)].
Proof. repeat split. Qed.

Example overlap_both_empty_4x4 :
  union (1 # 2) (full_grid 4 4 0) (full_grid 4 4 0) = 0%nat /\
  either_above (1 # 2) 4 4 (full_grid 4 4 0) (full_grid 4 4 0) = 0%nat /\
  true_divide 0 0 = Nan /\
  compute_IoU_whole_img_per_class (full 1 4 4 0) (full 1 4 4 0) (1 # 2)
  = [Num 0].
Proof. repeat split. Qed.

(** * Further properties of the pipeline *)

(** ** Range re-encoding on whole cells *)

Module ReencodeMore.
Import Reencode.

Lemma reencode_near (d : Q) :
  0 <= d -> d <= 25 -> reencode_cell d = near_val d.
Proof.
  intros H0 H1. unfold reencode_cell.
  rewrite ReencodeFacts.clip_remap_in_range by lra.
  apply ReencodeFacts.band_cell_near. exact H1.
Qed.

Lemma reencode_far (d : Q) :
  25 < d -> d <= 75 -> reencode_cell d = far_val d.
Proof.
  intros H0 H1. unfold reencode_cell.
  rewrite ReencodeFacts.clip_remap_in_range by lra.
  apply ReencodeFacts.band_cell_far; lra.
Qed.

Lemma reencode_clipped (d : Q) : 75 < d -> reencode_cell d = far_val 75.
Proof.
  intro H. unfold reencode_cell, clip_cell, masked_cell.
  assert (E : clip_mask d = true).
  { unfold clip_mask, Qgt_bool. apply Qlt_bool_iff.
    unfold lidar_max_range. exact H. }
  rewrite E. reflexivity.
Qed.

Lemma reencode_negative (d : Q) :
  d < 0 -> ~ d == -1 -> reencode_cell d = near_val d.
Proof.
  intros H0 H1. unfold reencode_cell, clip_cell, sentinel_cell, masked_cell.
  assert (E1 : clip_mask d = false).
  { unfold clip_mask, Qgt_bool. apply Qlt_bool_false.
    unfold lidar_max_range. lra. }
  assert (E2 : sentinel_mask d = false).
  { unfold sentinel_mask. destruct (Qeq_bool d (-1)) eqn:E; [ | reflexivity].
    apply Qeq_bool_iff in E. contradiction. }
  rewrite E1, E2. apply ReencodeFacts.band_cell_near. lra.
Qed.

(** The three cases of a non-negative range. *)
Lemma reencode_nonneg_cases (d : Q) :
  0 <= d ->
  (d <= 25 /\ reencode_cell d = near_val d) \/
  (25 < d /\ d <= 75 /\ reencode_cell d = far_val d) \/
  (75 < d /\ reencode_cell d = far_val 75).
Proof.
  intro H0.
  destruct (Qlt_le_dec 25 d) as [H25 | H25].
  - destruct (Qlt_le_dec 75 d) as [H75 | H75].
    + right. right. split; [exact H75 | apply reencode_clipped; exact H75].
    + right. left. split; [exact H25 | ]. split; [exact H75 | ].
      apply reencode_far; assumption.
  - left. split; [exact H25 | apply reencode_near; assumption].
Qed.

Lemma reencode_order (d1 d2 : Q) :
  0 <= d1 -> d1 <= d2 -> reencode_cell d2 <= reencode_cell d1.
Proof.
  intros H0 H12.
  destruct (reencode_nonneg_cases d1 H0) as [[A1 E1] | [[A1 [B1 E1]] | [A1 E1]]];
  destruct (reencode_nonneg_cases d2) as [[A2 E2] | [[A2 [B2 E2]] | [A2 E2]]];
    try lra; rewrite E1, E2; unfold near_val, far_val; lra.
Qed.

Lemma reencode_nonneg (d : Q) : 0 <= d -> 0 <= reencode_cell d.
Proof.
  intro H0.
  destruct (reencode_nonneg_cases d H0) as [[A E] | [[A [B E]] | [A E]]];
    rewrite E; unfold near_val, far_val; lra.
Qed.

(** X1.  The encoding reverses the order of ranges: a nearer return never
    encodes lower than a farther one, across both bands and the clip. *)
Theorem reencode_antitone (d1 d2 : Q) :
  0 <= d1 -> d1 <= d2 -> reencode_cell d2 <= reencode_cell d1.
Proof. apply reencode_order. Qed.

Lemma reencode_antitone_witness : reencode_cell 30 <= reencode_cell 20.
Proof. apply (reencode_antitone 20 30); lra. Defined.

Lemma clamp_in_range (v : Q) :
  -2 <= v -> v <= 255 ->
  in_range 0 255 (masked_cell negative_mask (fun _ => 0) v).
Proof.
  intros L U. unfold masked_cell, negative_mask.
  destruct (Qlt_bool v 0) eqn:E.
  - unfold in_range. lra.
  - apply Qlt_bool_false in E. unfold in_range. lra.
Qed.

Lemma reencode_valid_bounds (d : Q) :
  range_or_sentinel d -> -2 <= reencode_cell d /\ reencode_cell d <= 255.
Proof.
  intros [H0 | Hs].
  - destruct (reencode_nonneg_cases d H0)
      as [[A E] | [[A [B E]] | [A E]]]; rewrite E;
      unfold near_val, far_val; lra.
  - rewrite (LidarPoolFacts.reencode_sentinel d Hs).
    unfold far_val, lidar_max_range. lra.
Qed.

(** X2.  An encoded cell is at most 255 exactly when the raw cell is a
    non-negative range or the sentinel; it is then at least -2, and the
    final clamp leaves it in [0, 255].  Any other negative input encodes
    above 255. *)
Theorem reencode_in_range_iff (d : Q) :
  (reencode_cell d <= 255 <-> range_or_sentinel d) /\
  (range_or_sentinel d ->
     -2 <= reencode_cell d /\
     in_range 0 255 (masked_cell negative_mask (fun _ => 0) (reencode_cell d))).
Proof.
  pose proof (reencode_valid_bounds d) as Hvalid.
  split; [split | ].
  - intro H255. destruct (Qlt_le_dec d 0) as [Hneg | Hpos];
      [ | left; exact Hpos].
    destruct (Qeq_dec d (-1)) as [Hs | Hns]; [right; exact Hs | ].
    rewrite (reencode_negative d Hneg Hns) in H255.
    unfold near_val in H255. lra.
  - intro Hv. apply Hvalid. exact Hv.
  - intro Hv. destruct (Hvalid Hv) as [L U]. split; [exact L | ].
    apply clamp_in_range; assumption.
Qed.

End ReencodeMore.

(** ** Maximum of a window *)

Lemma Qmax_cases (x y : Q) :
  (Qmax x y = x /\ y <= x) \/ (Qmax x y = y /\ x <= y).
Proof.
  unfold Qmax, GenericMinMax.gmax.
  destruct (x ?= y) eqn:E.
  - left. split; [reflexivity | ]. apply Qeq_alt in E. lra.
  - right. split; [reflexivity | ]. apply Qlt_alt in E. lra.
  - left. split; [reflexivity | ]. apply Qgt_alt in E. lra.
Qed.

Lemma fold_max_spec (t : list Q) (x : Q) :
  In (fold_left Qmax t x) (x :: t) /\
  forall y, In y (x :: t) -> y <= fold_left Qmax t x.
Proof.
  revert x. induction t as [ | a t IH]; intro x; simpl.
  - split; [left; reflexivity | ]. intros y [<- | []]. lra.
  - destruct (IH (Qmax x a)) as [Hin Hle]. split.
    + destruct Hin as [E | Hin]; [ | right; right; exact Hin].
      destruct (Qmax_cases x a) as [[Em _] | [Em _]].
      * left. rewrite <- E. symmetry. exact Em.
      * right. left. rewrite <- E. symmetry. exact Em.
    + intros y Hy.
      assert (Hm : x <= Qmax x a /\ a <= Qmax x a).
      { destruct (Qmax_cases x a) as [[Em Hc] | [Em Hc]]; rewrite Em;
          split; lra. }
      pose proof (Hle (Qmax x a) (or_introl eq_refl)) as Htop.
      destruct Hy as [<- | [<- | Hy]].
      * lra.
      * lra.
      * apply Hle. right. exact Hy.
Qed.

Lemma max_list_spec (l : list Q) :
  l <> [] -> In (max_list l) l /\ forall y, In y l -> y <= max_list l.
Proof.
  destruct l as [ | x t]; [congruence | ]. intros _. apply fold_max_spec.
Qed.

(** ** What a pooled cell holds *)

Lemma pool_window_nonempty (h w kh kw sh sw : nat) (g : grid) (i j : nat) :
  grid_shapeb h w g = true -> (0 < kh)%nat -> (0 < kw)%nat ->
  (kh <= h)%nat -> (kw <= w)%nat ->
  (i < pool_out h kh sh)%nat -> (j < pool_out w kw sw)%nat ->
  concat (map (window (j * sw) kw) (window (i * sh) kh g)) <> [].
Proof.
  intros Hs Hkh Hkw Hh Hw Hi Hj.
  pose proof (pool_out_fits h kh sh i Hh Hi) as Fi.
  pose proof (pool_out_fits w kw sw j Hw Hj) as Fj.
  destruct (grid_shape_cell h w g (i * sh) (j * sw) Hs) as [v Ev]; try lia.
  intro Hnil.
  assert (Hin : In v (concat (map (window (j * sw) kw) (window (i * sh) kh g)))).
  { apply pool_window_In with (r := (i * sh)%nat) (c := (j * sw)%nat);
      [lia | lia | exact Ev]. }
  rewrite Hnil in Hin. exact Hin.
Qed.

(** The max-pooled cell is a cell of its window and bounds the window. *)
Lemma pool_cell_max (h w kh kw sh sw : nat) (g : grid) (i j : nat) :
  grid_shapeb h w g = true -> (0 < kh)%nat -> (0 < kw)%nat ->
  (kh <= h)%nat -> (kw <= w)%nat ->
  (i < pool_out h kh sh)%nat -> (j < pool_out w kw sw)%nat ->
  (exists r c, (i * sh <= r < i * sh + kh)%nat /\
               (j * sw <= c < j * sw + kw)%nat /\
               cell2 g r c = Some (pool_cell max_list kh kw sh sw g i j)) /\
  (forall r c x, (i * sh <= r < i * sh + kh)%nat ->
                 (j * sw <= c < j * sw + kw)%nat ->
                 cell2 g r c = Some x ->
                 x <= pool_cell max_list kh kw sh sw g i j).
Proof.
  intros Hs Hkh Hkw Hh Hw Hi Hj. unfold pool_cell.
  destruct (max_list_spec _ (pool_window_nonempty h w kh kw sh sw g i j
                               Hs Hkh Hkw Hh Hw Hi Hj)) as [Hin Hle].
  split.
  - apply In_pool_window in Hin. exact Hin.
  - intros r c x Hr Hc Ex. apply Hle.
    apply (pool_window_In g _ _ _ _ r c x Hr Hc Ex).
Qed.

Lemma cell_in_shape (c h w : nat) (t : tensor) (ch r col : nat) (v : Q) :
  has_shapeb c h w t = true -> cell t ch r col = Some v ->
  (ch < c)%nat /\ (r < h)%nat /\ (col < w)%nat.
Proof.
  intros Hs. apply has_shapeb_true in Hs. destruct Hs as [Hl Hg].
  unfold cell, cell2.
  destruct (nth_error t ch) as [g | ] eqn:Eg; [ | intro X; discriminate X].
  destruct (nth_error g r) as [rw | ] eqn:Er; [ | intro X; discriminate X].
  intro Ec.
  assert (Hch : (ch < length t)%nat)
    by (apply nth_error_Some; rewrite Eg; discriminate).
  assert (Hr : (r < length g)%nat)
    by (apply nth_error_Some; rewrite Er; discriminate).
  assert (Hc : (col < length rw)%nat)
    by (apply nth_error_Some; rewrite Ec; discriminate).
  apply nth_error_In in Eg. apply Hg, grid_shapeb_true in Eg.
  destruct Eg as [Hh Hw]. apply nth_error_In in Er. apply Hw in Er.
  lia.
Qed.

(** Max pooling of a whole tensor, kernel and stride 10. *)
Lemma maxpool_tensor_cells (c h w : nat) (t : tensor) :
  has_shapeb c h w t = true -> (0 < c)%nat ->
  (10 <= h)%nat -> (10 <= w)%nat ->
  exists p, maxpool_tensor t = Ok p /\
    has_shapeb c (pool_out h 10 10) (pool_out w 10 10) p = true /\
    forall ch i j, (ch < c)%nat ->
      (i < pool_out h 10 10)%nat -> (j < pool_out w 10 10)%nat ->
      exists v, cell p ch i j = Some v /\
        (exists r col, (i * 10 <= r < i * 10 + 10)%nat /\
                       (j * 10 <= col < j * 10 + 10)%nat /\
                       cell t ch r col = Some v) /\
        (forall r col x, (i * 10 <= r < i * 10 + 10)%nat ->
                         (j * 10 <= col < j * 10 + 10)%nat ->
                         cell t ch r col = Some x -> x <= v).
Proof.
  intros Hs Hcpos Hh Hw.
  destruct (pool_tensor_ok max_list 10 10 10 10 c h w t Hs)
    as [p [Ep [Sp Fp]]]; try lia.
  exists p. split; [exact Ep | ]. split; [exact Sp | ].
  intros ch i j Hch Hi Hj.
  destruct (has_shape_channel c h w t ch Hs Hch) as [g [Eg Sg]].
  destruct (Forall2_nth_error_left _ _ _ _ _ Fp Eg) as [pg [Epg [_ [_ Cpg]]]].
  exists (pool_cell max_list 10 10 10 10 g i j).
  unfold cell. rewrite Epg, Eg. split; [apply Cpg; assumption | ].
  apply (pool_cell_max h w 10 10 10 10 g i j); try assumption; lia.
Qed.

(** X3.  [maxpool_tensor] on a (c, h, w) tensor with at least one channel
    and h, w >= 10: it succeeds with the pooled shape, and every output cell
    is the maximum of its 10 x 10 window, that is, it is one of the window's
    cells and no cell of the window exceeds it. *)
Theorem maxpool_tensor_is_window_max (c h w : nat) (t : tensor) :
  has_shapeb c h w t = true -> (0 < c)%nat ->
  (10 <= h)%nat -> (10 <= w)%nat ->
  exists p, maxpool_tensor t = Ok p /\
    has_shapeb c (pool_out h 10 10) (pool_out w 10 10) p = true /\
    forall ch i j, (ch < c)%nat ->
      (i < pool_out h 10 10)%nat -> (j < pool_out w 10 10)%nat ->
      exists v, cell p ch i j = Some v /\
        (exists r col, (i * 10 <= r < i * 10 + 10)%nat /\
                       (j * 10 <= col < j * 10 + 10)%nat /\
                       cell t ch r col = Some v) /\
        (forall r col x, (i * 10 <= r < i * 10 + 10)%nat ->
                         (j * 10 <= col < j * 10 + 10)%nat ->
                         cell t ch r col = Some x -> x <= v).
Proof. apply maxpool_tensor_cells. Qed.

Lemma maxpool_tensor_is_window_max_witness :
  exists p, maxpool_tensor (full 3 20 30 (1 # 2)) = Ok p /\
    has_shapeb 3 (pool_out 20 10 10) (pool_out 30 10 10) p = true /\
    forall ch i j, (ch < 3)%nat ->
      (i < pool_out 20 10 10)%nat -> (j < pool_out 30 10 10)%nat ->
      exists v, cell p ch i j = Some v /\
        (exists r col, (i * 10 <= r < i * 10 + 10)%nat /\
                       (j * 10 <= col < j * 10 + 10)%nat /\
                       cell (full 3 20 30 (1 # 2)) ch r col = Some v) /\
        (forall r col x, (i * 10 <= r < i * 10 + 10)%nat ->
                         (j * 10 <= col < j * 10 + 10)%nat ->
                         cell (full 3 20 30 (1 # 2)) ch r col = Some x ->
                         x <= v).
Proof.
  apply (maxpool_tensor_is_window_max 3 20 30 (full 3 20 30 (1 # 2))).
  - vm_compute. reflexivity.
  - lia.
  - lia.
  - lia.
Defined.

(** ** Average pooling keeps bounds *)

Lemma inject_nat_succ (n : nat) :
  inject_Z (Z.of_nat (S n)) == inject_Z (Z.of_nat n) + 1.
Proof.
  rewrite Nat2Z.inj_succ. unfold Z.succ. rewrite inject_Z_plus. reflexivity.
Qed.

Lemma fold_sum_bounds (l : list Q) (acc lo hi : Q) :
  (forall x, In x l -> in_range lo hi x) ->
  acc + inject_Z (Z.of_nat (length l)) * lo <= fold_left Qplus l acc /\
  fold_left Qplus l acc <= acc + inject_Z (Z.of_nat (length l)) * hi.
Proof.
  revert acc. induction l as [ | a t IH]; intros acc H.
  - change (fold_left Qplus [] acc) with acc.
    change (inject_Z (Z.of_nat (length (@nil Q)))) with 0. split; lra.
  - destruct (H a (or_introl eq_refl)) as [La Ua].
    destruct (IH (acc + a)) as [L U].
    { intros x Hx. apply H. right. exact Hx. }
    change (fold_left Qplus (a :: t) acc) with (fold_left Qplus t (acc + a)).
    change (length (a :: t)) with (S (length t)).
    rewrite inject_nat_succ. split; lra.
Qed.

Lemma avg_list_bounds (l : list Q) (lo hi : Q) :
  l <> [] -> (forall x, In x l -> in_range lo hi x) ->
  in_range lo hi (avg_list l).
Proof.
  intros Hne H. unfold avg_list.
  destruct (fold_sum_bounds l 0 lo hi H) as [L U].
  assert (Hpos : 0 < inject_Z (Z.of_nat (length l))).
  { apply inject_nat_pos. destruct l; [congruence | simpl; lia]. }
  split.
  - apply Qle_shift_div_l; [exact Hpos | ]. lra.
  - apply Qle_shift_div_r; [exact Hpos | ]. lra.
Qed.

Lemma avgpool_tensor_bounds (c h w : nat) (t : tensor) (lo hi : Q) :
  has_shapeb c h w t = true -> (0 < c)%nat ->
  (10 <= h)%nat -> (10 <= w)%nat ->
  all_cells (in_range lo hi) t ->
  exists p, avgpool_tensor t = Ok p /\
    has_shapeb c (pool_out h 10 10) (pool_out w 10 10) p = true /\
    all_cells (in_range lo hi) p.
Proof.
  intros Hs Hcpos Hh Hw Hall.
  destruct (pool_tensor_ok avg_list 10 10 10 10 c h w t Hs)
    as [p [Ep [Sp Fp]]]; try lia.
  exists p. split; [exact Ep | ]. split; [exact Sp | ].
  intros ch i j v Hv.
  destruct (cell_in_shape _ _ _ p ch i j v Sp Hv) as [Hch [Hi Hj]].
  destruct (has_shape_channel c h w t ch Hs Hch) as [g [Eg Sg]].
  destruct (Forall2_nth_error_left _ _ _ _ _ Fp Eg) as [pg [Epg [_ [_ Cpg]]]].
  unfold cell in Hv. rewrite Epg, (Cpg i j Hi Hj) in Hv.
  injection Hv as <-. unfold pool_cell. apply avg_list_bounds.
  - apply (pool_window_nonempty h w 10 10 10 10 g i j); try assumption; lia.
  - intros x Hx. apply In_pool_window in Hx.
    destruct Hx as [r [col [_ [_ Ex]]]].
    apply (Hall ch r col x). unfold cell. rewrite Eg. exact Ex.
Qed.

(** X4.  [avgpool_tensor] on a (c, h, w) image with at least one channel
    and h, w >= 10 whose cells all lie in [lo, hi] returns a tensor of the
    pooled shape whose cells all lie in [lo, hi]: averaging never leaves the
    intensity range. *)
Theorem avgpool_tensor_keeps_range (c h w : nat) (t : tensor) (lo hi : Q) :
  has_shapeb c h w t = true -> (0 < c)%nat ->
  (10 <= h)%nat -> (10 <= w)%nat ->
  all_cells (in_range lo hi) t ->
  exists p, avgpool_tensor t = Ok p /\
    has_shapeb c (pool_out h 10 10) (pool_out w 10 10) p = true /\
    all_cells (in_range lo hi) p.
Proof. apply avgpool_tensor_bounds. Qed.

Lemma avgpool_tensor_keeps_range_witness :
  exists p, avgpool_tensor (full 3 20 30 128) = Ok p /\
    has_shapeb 3 (pool_out 20 10 10) (pool_out 30 10 10) p = true /\
    all_cells (in_range 0 255) p.
Proof.
  apply (avgpool_tensor_keeps_range 3 20 30 (full 3 20 30 128) 0 255).
  - vm_compute. reflexivity.
  - lia.
  - lia.
  - lia.
  - intros ch r col v Hv. apply cell_full_inv in Hv. subst v.
    unfold in_range. lra.
Defined.

(** ** The nearest return of a window *)

Module NearestReturn.
Import Reencode.

Lemma clamp_nonneg (v : Q) :
  0 <= v -> masked_cell negative_mask (fun _ => 0) v = v.
Proof.
  intro H. unfold masked_cell, negative_mask.
  replace (Qlt_bool v 0) with false; [reflexivity | ].
  symmetry. apply Qlt_bool_false. exact H.
Qed.

(** The pooled lidar cell (i, j) of channel ch, before padding and clamp. *)
Lemma lidar_pooled_cell (c h w : nat) (t : tensor) (ch i j : nat) :
  has_shapeb c h w t = true -> (20 <= h)%nat -> (10 <= w)%nat ->
  (ch < c)%nat -> (i < pool_out h 20 10)%nat -> (j < pool_out w 10 10)%nat ->
  exists out g, pool_lidar_tensor t = Ok out /\
    has_shapeb c (S (pool_out h 20 10)) (pool_out w 10 10) out = true /\
    nth_error t ch = Some g /\ grid_shapeb h w g = true /\
    cell out ch i j
    = Some (masked_cell negative_mask (fun _ => 0)
              (pool_cell max_list 20 10 10 10 (map_grid reencode_cell g) i j)).
Proof.
  intros Hs Hh Hw Hch Hi Hj.
  assert (Hcpos : (0 < c)%nat) by lia.
  destruct (LidarPoolFacts.lidar_max_pool_ok c h w t Hs Hcpos Hh Hw)
    as [p [_ [Sp [Fp Eout]]]].
  destruct (has_shape_channel c h w t ch Hs Hch) as [g [Eg Sg]].
  assert (Eg' : nth_error (reencode t) ch = Some (map_grid reencode_cell g)).
  { rewrite LidarPoolFacts.nth_error_reencode, Eg. reflexivity. }
  destruct (Forall2_nth_error_left _ _ _ _ _ Fp Eg') as [pg [Epg [_ [_ Cpg]]]].
  assert (Hpos : (0 < pool_out h 20 10)%nat) by (unfold pool_out; lia).
  exists (clamp_negative (pad_tensor p)), g.
  split; [exact Eout | ]. split.
  { apply LidarPoolFacts.clamp_shape. apply pad_tensor_shape; assumption. }
  split; [exact Eg | ]. split; [exact Sg | ].
  unfold clamp_negative, masked_update. rewrite cell_map_tensor.
  rewrite (cell_pad_tensor_above _ _ _ p ch i j Sp Hi).
  unfold cell. rewrite Epg, (Cpg i j Hi Hj). reflexivity.
Qed.

Lemma nearest_return (c h w : nat) (t : tensor) (ch i j r0 c0 : nat) (d0 : Q) :
  has_shapeb c h w t = true -> (20 <= h)%nat -> (10 <= w)%nat ->
  (ch < c)%nat -> (i < pool_out h 20 10)%nat -> (j < pool_out w 10 10)%nat ->
  (i * 10 <= r0 < i * 10 + 20)%nat -> (j * 10 <= c0 < j * 10 + 10)%nat ->
  cell t ch r0 c0 = Some d0 -> 0 <= d0 ->
  (forall r col d, (i * 10 <= r < i * 10 + 20)%nat ->
     (j * 10 <= col < j * 10 + 10)%nat ->
     cell t ch r col = Some d -> d == -1 \/ d0 <= d) ->
  exists out v, pool_lidar_tensor t = Ok out /\
    cell out ch i j = Some v /\ v == reencode_cell d0.
Proof.
  intros Hs Hh Hw Hch Hi Hj Hr0 Hc0 E0 Hd0 Hnear.
  destruct (lidar_pooled_cell c h w t ch i j Hs Hh Hw Hch Hi Hj)
    as [out [g [Eout [_ [Eg [Sg Ecell]]]]]].
  exists out. eexists. split; [exact Eout | ]. split; [exact Ecell | ].
  set (g' := map_grid reencode_cell g).
  assert (Sg' : grid_shapeb h w g' = true) by (apply map_grid_shape; exact Sg).
  destruct (pool_cell_max h w 20 10 10 10 g' i j Sg') as [[r [col [Hr [Hc Em]]]] Hle];
    try assumption; try lia.
  set (m := pool_cell max_list 20 10 10 10 g' i j) in *.
  unfold cell in E0. rewrite Eg in E0.
  assert (Hge : reencode_cell d0 <= m).
  { apply (Hle r0 c0); [exact Hr0 | exact Hc0 | ].
    unfold g'. rewrite cell2_map_grid, E0. reflexivity. }
  unfold g' in Em. rewrite cell2_map_grid in Em.
  destruct (cell2 g r col) as [d | ] eqn:Ed; [ | discriminate Em].
  simpl in Em. injection Em as Em.
  pose proof (ReencodeMore.reencode_nonneg d0 Hd0) as Hnn.
  assert (Hle' : m <= reencode_cell d0).
  { rewrite <- Em. destruct (Hnear r col d Hr Hc) as [Hs' | Hfar].
    - unfold cell. rewrite Eg. exact Ed.
    - rewrite (LidarPoolFacts.reencode_sentinel d Hs').
      unfold far_val, lidar_max_range. lra.
    - apply ReencodeMore.reencode_order; assumption. }
  rewrite clamp_nonneg by lra. lra.
Qed.

(** X5.  The nearest return wins the pooling: if a window of the lidar
    downsampler holds a return at range d0 >= 0 and every other cell of the
    window is the sentinel or at least as far, the output cell is the
    encoding of d0. *)
Theorem nearest_return_wins (c h w : nat) (t : tensor) (ch i j r0 c0 : nat)
  (d0 : Q) :
  has_shapeb c h w t = true -> (20 <= h)%nat -> (10 <= w)%nat ->
  (ch < c)%nat -> (i < pool_out h 20 10)%nat -> (j < pool_out w 10 10)%nat ->
  (i * 10 <= r0 < i * 10 + 20)%nat -> (j * 10 <= c0 < j * 10 + 10)%nat ->
  cell t ch r0 c0 = Some d0 -> 0 <= d0 ->
  (forall r col d, (i * 10 <= r < i * 10 + 20)%nat ->
     (j * 10 <= col < j * 10 + 10)%nat ->
     cell t ch r col = Some d -> d == -1 \/ d0 <= d) ->
  exists out v, pool_lidar_tensor t = Ok out /\
    cell out ch i j = Some v /\ v == reencode_cell d0.
Proof. apply nearest_return. Qed.

Lemma nearest_return_wins_witness :
  exists out v, pool_lidar_tensor (full 1 30 20 12) = Ok out /\
    cell out 0 1 1 = Some v /\ v == reencode_cell 12.
Proof.
  apply (nearest_return_wins 1 30 20 (full 1 30 20 12) 0 1 1 10 10 12).
  - vm_compute. reflexivity.
  - lia.
  - lia.
  - lia.
  - vm_compute. lia.
  - vm_compute. lia.
  - lia.
  - lia.
  - reflexivity.
  - lra.
  - intros r col d _ _ Hd. apply cell_full_inv in Hd. subst d. right. lra.
Defined.

End NearestReturn.

(** ** The point splatter on sample sequences *)

(** One splat, all channels: channel 0 changes inside the window, the other
    channels do not change. *)
Lemma splat_step (c h w : nat) (shift : Z) (t : tensor) (s : sample) :
  has_shapeb c h w t = true -> (0 < c)%nat ->
  exists t', splat h w shift t s = Ok t' /\
    has_shapeb c h w t' = true /\
    (forall r col,
       cell t' 0 r col
       = option_map
           (fun old =>
              if in_slice h (Some (fst (splat_bounds (Z.of_nat h) shift (s_y s))))
                            (Some (snd (splat_bounds (Z.of_nat h) shift (s_y s)))) r
                 && in_slice w (Some (fst (splat_bounds (Z.of_nat w) shift (s_x s))))
                               (Some (snd (splat_bounds (Z.of_nat w) shift (s_x s)))) col
              then s_d s else old)
           (cell t 0 r col)) /\
    (forall ch r col, ch <> 0%nat -> cell t' ch r col = cell t ch r col).
Proof.
  intros Hs Hc.
  destruct (splat_cell c h w shift t s Hs Hc) as [t' [Et' [St' Ct']]].
  exists t'. split; [exact Et' | ]. split; [exact St' | ].
  split; [exact Ct' | ].
  intros ch r col Hne.
  destruct (has_shape_channel c h w t 0 Hs Hc) as [g [Eg _]].
  unfold splat in Et'.
  destruct (splat_bounds (Z.of_nat h) shift (s_y s)) as [min_y max_y].
  destruct (splat_bounds (Z.of_nat w) shift (s_x s)) as [min_x max_x].
  destruct (update_channel_ok 0
              (fun g => Ok (fill_slice (Some min_y) (Some max_y)
                                       (Some min_x) (Some max_x) (s_d s) g))
              t g _ Eg eq_refl) as [t2 [Et2 [_ [_ Hother]]]].
  rewrite Et2 in Et'. injection Et' as <-.
  unfold cell. rewrite (Hother ch Hne). reflexivity.
Qed.

Lemma splat_fold (c h w : nat) (shift : Z) (lidar_array : list sample)
  (t0 : tensor) :
  has_shapeb c h w t0 = true -> (0 < c)%nat ->
  exists t,
    fold_left (fun acc s => t <- acc ;; splat h w shift t s)
              lidar_array (Ok t0) = Ok t /\
    has_shapeb c h w t = true /\
    forall ch r col v, cell t ch r col = Some v ->
      cell t0 ch r col = Some v \/ exists s, In s lidar_array /\ v = s_d s.
Proof.
  intros S0 Hc. revert t0 S0.
  induction lidar_array as [ | s rest IH]; intros t0 S0.
  - exists t0. split; [reflexivity | ]. split; [exact S0 | ]. auto.
  - simpl fold_left.
    destruct (splat_step c h w shift t0 s S0 Hc) as [t1 [E1 [S1 [C1 O1]]]].
    rewrite E1. destruct (IH t1 S1) as [t [Et [St Ct]]].
    exists t. split; [exact Et | ]. split; [exact St | ].
    intros ch r col v Hv. destruct (Ct ch r col v Hv) as [H1 | [s' [Hin Ev]]].
    + destruct (Nat.eq_dec ch 0) as [-> | Hne].
      * rewrite C1 in H1.
        destruct (cell t0 0 r col) as [old | ]; [ | discriminate H1].
        simpl in H1. injection H1 as H1.
        destruct (in_slice h _ _ r && in_slice w _ _ col).
        -- right. exists s. split; [left; reflexivity | symmetry; exact H1].
        -- left. f_equal. exact H1.
      * left. rewrite <- (O1 ch r col Hne). exact H1.
    + right. exists s'. split; [right; exact Hin | exact Ev].
Qed.

Lemma fresh_tensor_cells (c h w : nat) (ch r col : nat) (v : Q) :
  cell (map_tensor (fun v => v * -1) (full c h w 1)) ch r col = Some v ->
  v = -1.
Proof.
  rewrite cell_map_tensor.
  destruct (cell (full c h w 1) ch r col) as [x | ] eqn:E;
    [ | intro X; discriminate X].
  apply cell_full_inv in E. subst x. simpl. intro H. injection H as <-.
  reflexivity.
Qed.

Lemma splat_total (lidar_array : list sample) (c h w : nat) (kernel_size : Z) :
  (0 < c)%nat ->
  exists t,
    lidar_array_to_image_like_tensor lidar_array (c, h, w) kernel_size = Ok t /\
    has_shapeb c h w t = true /\
    forall ch r col v, cell t ch r col = Some v ->
      v = -1 \/ exists s, In s lidar_array /\ v = s_d s.
Proof.
  intro Hc. unfold lidar_array_to_image_like_tensor.
  destruct (splat_fold c h w ((kernel_size - 1) / 2)%Z lidar_array
              (map_tensor (fun v => v * -1) (full c h w 1)))
    as [t [Et [St Ct]]]; [apply map_tensor_shape, full_shape | exact Hc | ].
  exists t. split; [exact Et | ]. split; [exact St | ].
  intros ch r col v Hv. destruct (Ct ch r col v Hv) as [H0 | Hs].
  - left. apply (fresh_tensor_cells c h w ch r col v H0).
  - right. exact Hs.
Qed.

(** X6.  The splatter never fails on a grid with at least one channel,
    wherever the samples lie (also outside the image or at its corners): it
    returns a tensor of the requested shape, and every cell holds the
    sentinel -1 or the range of one of the samples. *)
Theorem splatter_never_fails (lidar_array : list sample) (c h w : nat)
  (kernel_size : Z) :
  (0 < c)%nat ->
  exists t,
    lidar_array_to_image_like_tensor lidar_array (c, h, w) kernel_size = Ok t /\
    has_shapeb c h w t = true /\
    forall ch r col v, cell t ch r col = Some v ->
      v = -1 \/ exists s, In s lidar_array /\ v = s_d s.
Proof. apply splat_total. Qed.

Lemma splatter_never_fails_witness :
  exists t,
    lidar_array_to_image_like_tensor
      [{| s_x := 0; s_y := 0; s_d := 5 |};
       {| s_x := -(40); s_y := 5000; s_d := 7 |}] (1, 1280, 1920)%nat 5 = Ok t /\
    has_shapeb 1 1280 1920 t = true /\
    forall ch r col v, cell t ch r col = Some v ->
      v = -1 \/ exists s,
        In s [{| s_x := 0; s_y := 0; s_d := 5 |};
              {| s_x := -(40); s_y := 5000; s_d := 7 |}] /\ v = s_d s.
Proof.
  apply (splatter_never_fails
           [{| s_x := 0; s_y := 0; s_d := 5 |};
            {| s_x := -(40); s_y := 5000; s_d := 7 |}] 1 1280 1920 5).
  lia.
Defined.

Lemma splat_snoc (lidar_array : list sample) (s : sample) (h w : nat)
  (kernel_size : Z) :
  exists t t',
    lidar_array_to_image_like_tensor lidar_array (1, h, w)%nat kernel_size
    = Ok t /\
    lidar_array_to_image_like_tensor (lidar_array ++ [s]) (1, h, w)%nat
      kernel_size = Ok t' /\
    forall r col, (r < h)%nat -> (col < w)%nat ->
      let shift := ((kernel_size - 1) / 2)%Z in
      let by_ := splat_bounds (Z.of_nat h) shift (s_y s) in
      let bx := splat_bounds (Z.of_nat w) shift (s_x s) in
      cell t' 0 r col
      = if in_slice h (Some (fst by_)) (Some (snd by_)) r
           && in_slice w (Some (fst bx)) (Some (snd bx)) col
        then Some (s_d s) else cell t 0 r col.
Proof.
  destruct (splat_total lidar_array 1 h w kernel_size) as [t [Et [St _]]];
    [lia | ].
  destruct (splat_step 1 h w ((kernel_size - 1) / 2)%Z t s St)
    as [t' [Et' [_ [Ct' _]]]]; [lia | ].
  exists t, t'. split; [exact Et | ]. split.
  - unfold lidar_array_to_image_like_tensor in *.
    rewrite fold_left_app, Et. simpl. exact Et'.
  - intros r col Hr Hc. simpl. rewrite Ct'.
    apply has_shapeb_true in St. destruct St as [_ Hg].
    destruct (has_shape_channel 1 h w t 0) as [g [Eg Sg]];
      [apply has_shapeb_true; split; [ | exact Hg] | lia | ].
    { unfold lidar_array_to_image_like_tensor in Et.
      destruct (splat_total lidar_array 1 h w kernel_size) as [t2 [Et2 [St2 _]]];
        [lia | ].
      unfold lidar_array_to_image_like_tensor in Et2.
      rewrite Et in Et2. injection Et2 as <-.
      apply has_shapeb_true in St2. apply St2. }
    destruct (grid_shape_cell h w g r col Sg Hr Hc) as [old Eold].
    unfold cell. rewrite Eg, Eold. simpl.
    destruct (in_slice h _ _ r && in_slice w _ _ col); reflexivity.
Qed.

Lemma py_int_sub (a b : Z) : py_int (inject_Z a - inject_Z b) = (a - b)%Z.
Proof. unfold py_int. simpl. rewrite Z.quot_1_r. lia. Qed.

Lemma py_int_add1 (a b : Z) :
  py_int (inject_Z a + inject_Z b + 1) = (a + b + 1)%Z.
Proof. unfold py_int. simpl. rewrite Z.quot_1_r. lia. Qed.

(** The rows (or columns) one integer coordinate [p] writes on a dimension
    of size [n]: from max(0, p - shift) up to, but not including,
    min(p + shift + 1, n - 1). *)
Lemma splat_window (n : nat) (shift p : Z) (i : nat) :
  (i < n)%nat -> (0 <= p + shift + 1)%Z ->
  in_slice n (Some (fst (splat_bounds (Z.of_nat n) shift (inject_Z p))))
             (Some (snd (splat_bounds (Z.of_nat n) shift (inject_Z p)))) i
  = ((Z.max 0 (p - shift) <=? Z.of_nat i)%Z
     && (Z.of_nat i <? Z.min (p + shift + 1) (Z.of_nat n - 1))%Z).
Proof.
  intros Hi Hp. unfold splat_bounds. simpl fst. simpl snd.
  rewrite py_int_sub, py_int_add1.
  unfold in_slice, slice_lo, slice_hi, slice_bound.
  destruct (Z.ltb_spec (p - shift) 0);
    destruct (Z.gtb_spec (p + shift + 1) (Z.of_nat n - 1));
    repeat match goal with
           | |- context [(?a <? 0)%Z] => destruct (Z.ltb_spec a 0)
           end;
    try lia;
    apply eq_true_iff_eq;
    rewrite !andb_true_iff, !Z.leb_le, !Z.ltb_lt; lia.
Qed.

(** The same for every integer coordinate, also one so far above or left
    of the grid that the stop is negative. *)
Lemma splat_written (n : nat) (shift p : Z) (i : nat) :
  (i < n)%nat ->
  in_slice n (Some (fst (splat_bounds (Z.of_nat n) shift (inject_Z p))))
             (Some (snd (splat_bounds (Z.of_nat n) shift (inject_Z p)))) i
  = written n shift p i.
Proof.
  intro Hi. unfold splat_bounds. simpl fst. simpl snd.
  rewrite py_int_sub, py_int_add1.
  unfold written, in_slice, slice_lo, slice_hi, slice_bound. cbv zeta.
  destruct (Z.ltb_spec (p - shift) 0);
    destruct (Z.gtb_spec (p + shift + 1) (Z.of_nat n - 1));
    destruct (Z.ltb_spec (p + shift + 1) 0);
    repeat match goal with
           | |- context [(?a <? 0)%Z] => destruct (Z.ltb_spec a 0)
           end;
    try lia;
    apply eq_true_iff_eq;
    rewrite !andb_true_iff, !Z.leb_le, !Z.ltb_lt; lia.
Qed.

Lemma splat_last (lidar_array : list sample) (x y : Z) (d : Q) (h w : nat)
  (kernel_size : Z) :
  exists t t',
    lidar_array_to_image_like_tensor lidar_array (1, h, w)%nat kernel_size
    = Ok t /\
    lidar_array_to_image_like_tensor
      (lidar_array ++ [{| s_x := inject_Z x; s_y := inject_Z y; s_d := d |}])
      (1, h, w)%nat kernel_size = Ok t' /\
    forall r col, (r < h)%nat -> (col < w)%nat ->
      cell t' 0 r col
      = if written h ((kernel_size - 1) / 2) y r
           && written w ((kernel_size - 1) / 2) x col
        then Some d else cell t 0 r col.
Proof.
  destruct (splat_snoc lidar_array
              {| s_x := inject_Z x; s_y := inject_Z y; s_d := d |}
              h w kernel_size) as [t [t' [Et [Et' Ct']]]].
  exists t, t'. split; [exact Et | ]. split; [exact Et' | ].
  intros r col Hr Hc. rewrite (Ct' r col Hr Hc). simpl s_y. simpl s_x.
  simpl s_d.
  rewrite (splat_written h _ y r Hr), (splat_written w _ x col Hc).
  reflexivity.
Qed.

(** X7.  Later samples win.  Appending a sample with integer pixel
    coordinates (x, y), wherever it lies, rewrites with its range exactly
    the cells whose row is written by y and whose column is written by x,
    and leaves every other cell as the shorter sequence produced it.  The
    rows written are max(0, y-shift) .. stop-1, where the stop is
    min(y+shift+1, h-1) when y+shift+1 >= 0 and h + (y+shift+1) when it is
    negative (a negative slice stop counts from the end); likewise for the
    columns with x and w. *)
Theorem splatter_last_sample_wins (lidar_array : list sample) (x y : Z)
  (d : Q) (h w : nat) (kernel_size : Z) :
  exists t t',
    lidar_array_to_image_like_tensor lidar_array (1, h, w)%nat kernel_size
    = Ok t /\
    lidar_array_to_image_like_tensor
      (lidar_array ++ [{| s_x := inject_Z x; s_y := inject_Z y; s_d := d |}])
      (1, h, w)%nat kernel_size = Ok t' /\
    (forall r col, (r < h)%nat -> (col < w)%nat ->
       cell t' 0 r col
       = if written h ((kernel_size - 1) / 2) y r
            && written w ((kernel_size - 1) / 2) x col
         then Some d else cell t 0 r col) /\
    (forall n p i,
       written n ((kernel_size - 1) / 2) p i
       = ((Z.max 0 (p - (kernel_size - 1) / 2) <=? Z.of_nat i)%Z
          && (Z.of_nat i
              <? (if (p + (kernel_size - 1) / 2 + 1 <? 0)%Z
                  then Z.of_nat n + (p + (kernel_size - 1) / 2 + 1)
                  else Z.min (p + (kernel_size - 1) / 2 + 1)
                             (Z.of_nat n - 1)))%Z)).
Proof.
  destruct (splat_last lidar_array x y d h w kernel_size)
    as [t [t' [Et [Et' Ct']]]].
  exists t, t'. split; [exact Et | ]. split; [exact Et' | ].
  split; [exact Ct' | ]. intros n p i. reflexivity.
Qed.

(** A sample above the grid (y = -10 on a 10 x 10 grid, kernel 5): its stop
    -7 counts from the end, so rows 0..2 are written; a sample inside
    writes the rows around it. *)
Example splat_above_the_grid :
  exists t,
    lidar_array_to_image_like_tensor
      [{| s_x := 4; s_y := -(10); s_d := 2 |}] (1, 10, 10)%nat 5 = Ok t /\
    cell t 0 0 2 = Some 2 /\ cell t 0 2 6 = Some 2 /\
    cell t 0 3 4 = Some (-1) /\ cell t 0 0 7 = Some (-1) /\
    written 10 2 (-10) 0 = true /\ written 10 2 (-10) 2 = true /\
    written 10 2 (-10) 3 = false /\
    written 10 2 4 2 = true /\ written 10 2 4 6 = true /\
    written 10 2 4 7 = false /\ written 10 2 4 1 = false.
Proof. eexists. vm_compute. repeat split. Qed.

(** X8.  A single sample whose window lies inside the grid, clear of the
    last row and column: with kernel size 2 shift + 1, exactly the
    (2 shift + 1) x (2 shift + 1) cells around (x, y) take the range, all
    other cells keep the sentinel. *)
Theorem splat_interior_window (h w : nat) (x y shift : Z) (d : Q) :
  (0 <= shift)%Z ->
  (shift <= y)%Z -> (y + shift + 1 <= Z.of_nat h - 1)%Z ->
  (shift <= x)%Z -> (x + shift + 1 <= Z.of_nat w - 1)%Z ->
  exists t,
    lidar_array_to_image_like_tensor
      [{| s_x := inject_Z x; s_y := inject_Z y; s_d := d |}]
      (1, h, w)%nat (2 * shift + 1) = Ok t /\
    forall r col, (r < h)%nat -> (col < w)%nat ->
      cell t 0 r col
      = Some (if ((y - shift <=? Z.of_nat r)%Z && (Z.of_nat r <=? y + shift)%Z)
                 && ((x - shift <=? Z.of_nat col)%Z
                     && (Z.of_nat col <=? x + shift)%Z)
              then d else -1).
Proof.
  intros Hs Hy0 Hy1 Hx0 Hx1.
  destruct (splat_single h w (2 * shift + 1)
              {| s_x := inject_Z x; s_y := inject_Z y; s_d := d |})
    as [t [Et Ct]].
  exists t. split; [exact Et | ].
  intros r col Hr Hc. rewrite (Ct r col Hr Hc). f_equal.
  cbv zeta. simpl s_y. simpl s_x. simpl s_d.
  replace ((2 * shift + 1 - 1) / 2)%Z with shift
    by (replace (2 * shift + 1 - 1)%Z with (shift * 2)%Z by lia;
        rewrite Z.div_mul by lia; reflexivity).
  rewrite (splat_window h shift y r Hr) by lia.
  rewrite (splat_window w shift x col Hc) by lia.
  replace ((Z.max 0 (y - shift) <=? Z.of_nat r)%Z
           && (Z.of_nat r <? Z.min (y + shift + 1) (Z.of_nat h - 1))%Z)
    with ((y - shift <=? Z.of_nat r)%Z && (Z.of_nat r <=? y + shift)%Z).
  2:{ apply eq_true_iff_eq.
      rewrite !andb_true_iff, !Z.leb_le, !Z.ltb_lt. lia. }
  replace ((Z.max 0 (x - shift) <=? Z.of_nat col)%Z
           && (Z.of_nat col <? Z.min (x + shift + 1) (Z.of_nat w - 1))%Z)
    with ((x - shift <=? Z.of_nat col)%Z && (Z.of_nat col <=? x + shift)%Z).
  2:{ apply eq_true_iff_eq.
      rewrite !andb_true_iff, !Z.leb_le, !Z.ltb_lt. lia. }
  reflexivity.
Qed.

Lemma splat_interior_window_witness :
  exists t,
    lidar_array_to_image_like_tensor
      [{| s_x := inject_Z 10; s_y := inject_Z 10; s_d := 5 |}]
      (1, 1280, 1920)%nat (2 * 2 + 1) = Ok t /\
    forall r col, (r < 1280)%nat -> (col < 1920)%nat ->
      cell t 0 r col
      = Some (if ((10 - 2 <=? Z.of_nat r)%Z && (Z.of_nat r <=? 10 + 2)%Z)
                 && ((10 - 2 <=? Z.of_nat col)%Z
                     && (Z.of_nat col <=? 10 + 2)%Z)
              then 5 else -1).
Proof.
  apply (splat_interior_window 1280 1920 10 10 2 5); lia.
Defined.

(** ** From samples to the low-resolution lidar tensor *)

Module LidarPipeline.
Import Reencode.

(** Every cell of the downsampled lidar tensor is the clamped encoding of
    some cell of the same channel of the input. *)
Lemma pool_lidar_cells (c h w : nat) (t : tensor) :
  has_shapeb c h w t = true -> (0 < c)%nat ->
  (20 <= h)%nat -> (10 <= w)%nat ->
  exists out, pool_lidar_tensor t = Ok out /\
    has_shapeb c (S (pool_out h 20 10)) (pool_out w 10 10) out = true /\
    forall ch r col v, cell out ch r col = Some v ->
      exists r' c' d, cell t ch r' c' = Some d /\
        v = masked_cell negative_mask (fun _ => 0) (reencode_cell d).
Proof.
  intros Hs Hcpos Hh Hw.
  destruct (LidarPoolFacts.lidar_max_pool_ok c h w t Hs Hcpos Hh Hw)
    as [p [_ [Sp [Fp Eout]]]].
  assert (Hpos : (0 < pool_out h 20 10)%nat) by (unfold pool_out; lia).
  assert (Sout : has_shapeb c (S (pool_out h 20 10)) (pool_out w 10 10)
                   (clamp_negative (pad_tensor p)) = true).
  { apply LidarPoolFacts.clamp_shape. apply pad_tensor_shape; assumption. }
  exists (clamp_negative (pad_tensor p)).
  split; [exact Eout | ]. split; [exact Sout | ].
  assert (Hp : forall ch i j, (ch < c)%nat -> (i < pool_out h 20 10)%nat ->
                 (j < pool_out w 10 10)%nat ->
                 exists r' c' d, cell t ch r' c' = Some d /\
                   cell p ch i j = Some (reencode_cell d)).
  { intros ch i j Hch Hi Hj.
    destruct (has_shape_channel c h w t ch Hs Hch) as [g [Eg Sg]].
    assert (Eg' : nth_error (reencode t) ch = Some (map_grid reencode_cell g)).
    { rewrite LidarPoolFacts.nth_error_reencode, Eg. reflexivity. }
    destruct (Forall2_nth_error_left _ _ _ _ _ Fp Eg')
      as [pg [Epg [_ [_ Cpg]]]].
    destruct (pool_cell_max h w 20 10 10 10 (map_grid reencode_cell g) i j)
      as [[r' [c' [_ [_ Em]]]] _]; try assumption; try lia.
    { apply map_grid_shape. exact Sg. }
    rewrite cell2_map_grid in Em.
    destruct (cell2 g r' c') as [d | ] eqn:Ed; [ | discriminate Em].
    simpl in Em. injection Em as Em.
    exists r', c', d. unfold cell. rewrite Eg, Epg, (Cpg i j Hi Hj).
    split; [exact Ed | ]. f_equal. symmetry. exact Em. }
  intros ch r col v Hv.
  destruct (cell_in_shape _ _ _ _ ch r col v Sout Hv) as [Hch [Hr Hc]].
  unfold clamp_negative, masked_update in Hv. rewrite cell_map_tensor in Hv.
  assert (Hrow : exists i, (i < pool_out h 20 10)%nat /\
                   cell (pad_tensor p) ch r col = cell p ch i col).
  { destruct (Nat.eq_dec r (pool_out h 20 10)) as [-> | Hne].
    - exists (pool_out h 20 10 - 1)%nat. split; [lia | ].
      apply (cell_pad_tensor_last _ _ _ p ch col Sp Hpos).
    - exists r. split; [lia | ].
      apply (cell_pad_tensor_above _ _ _ p ch r col Sp). lia. }
  destruct Hrow as [i [Hi Erow]]. rewrite Erow in Hv.
  destruct (Hp ch i col Hch Hi Hc) as [r' [c' [d [Ed Ep]]]].
  rewrite Ep in Hv. simpl in Hv. injection Hv as <-.
  exists r', c', d. split; [exact Ed | reflexivity].
Qed.

(** X9.  The downsampler invents no value: on a (c, h, w) input with at
    least one channel, h >= 20 and w >= 10 it succeeds, returns shape
    (c, pooled height + 1, pooled width), and each output cell is the
    clamped encoding of some input cell of the same channel. *)
Theorem pool_lidar_tensor_cells_come_from_input (c h w : nat) (t : tensor) :
  has_shapeb c h w t = true -> (0 < c)%nat ->
  (20 <= h)%nat -> (10 <= w)%nat ->
  exists out, pool_lidar_tensor t = Ok out /\
    has_shapeb c (S (pool_out h 20 10)) (pool_out w 10 10) out = true /\
    forall ch r col v, cell out ch r col = Some v ->
      exists r' c' d, cell t ch r' c' = Some d /\
        v = masked_cell negative_mask (fun _ => 0) (reencode_cell d).
Proof. apply pool_lidar_cells. Qed.

Lemma pool_lidar_tensor_cells_come_from_input_witness :
  exists out, pool_lidar_tensor (full 1 30 20 12) = Ok out /\
    has_shapeb 1 (S (pool_out 30 20 10)) (pool_out 20 10 10) out = true /\
    forall ch r col v, cell out ch r col = Some v ->
      exists r' c' d, cell (full 1 30 20 12) ch r' c' = Some d /\
        v = masked_cell negative_mask (fun _ => 0) (reencode_cell d).
Proof.
  apply (pool_lidar_tensor_cells_come_from_input 1 30 20 (full 1 30 20 12)).
  - vm_compute. reflexivity.
  - lia.
  - lia.
  - lia.
Defined.

(** X10.  Splatting a frame's samples and downsampling the grid, as the
    extraction driver does: whatever the pixel coordinates, if every range
    is non-negative the driver's two calls succeed and the stored tensor has
    shape (1, 128, 192) with every cell in [0, 255]. *)
Theorem lidar_frame_tensor (lidar_array : list sample) (kernel_size : Z) :
  (forall s, In s lidar_array -> 0 <= s_d s) ->
  exists range_tensor out,
    lidar_array_to_image_like_tensor lidar_array (1, 1280, 1920)%nat
      kernel_size = Ok range_tensor /\
    pool_lidar_tensor range_tensor = Ok out /\
    has_shapeb 1 128 192 out = true /\
    all_cells (in_range 0 255) out.
Proof.
  intro Hd.
  destruct (splat_total lidar_array 1 1280 1920 kernel_size)
    as [g [Eg [Sg Cg]]]; [lia | ].
  destruct (pool_lidar_cells 1 1280 1920 g Sg) as [out [Eout [Sout Cout]]];
    try lia.
  rewrite LidarPoolFacts.pool_out_height, LidarPoolFacts.pool_out_width in Sout.
  exists g, out. split; [exact Eg | ]. split; [exact Eout | ].
  split; [exact Sout | ].
  intros ch r col v Hv.
  destruct (Cout ch r col v Hv) as [r' [c' [d [Ed ->]]]].
  assert (Hvalid : range_or_sentinel d).
  { destruct (Cg ch r' c' d Ed) as [-> | [s [Hin ->]]].
    - right. reflexivity.
    - left. apply Hd. exact Hin. }
  destruct (ReencodeMore.reencode_valid_bounds d Hvalid) as [L U].
  apply ReencodeMore.clamp_in_range; assumption.
Qed.

Lemma lidar_frame_tensor_witness :
  exists range_tensor out,
    lidar_array_to_image_like_tensor
      [{| s_x := 10; s_y := 10; s_d := 5 |};
       {| s_x := 1919; s_y := 1279; s_d := 80 |}] (1, 1280, 1920)%nat 5
    = Ok range_tensor /\
    pool_lidar_tensor range_tensor = Ok out /\
    has_shapeb 1 128 192 out = true /\
    all_cells (in_range 0 255) out.
Proof.
  apply (lidar_frame_tensor
           [{| s_x := 10; s_y := 10; s_d := 5 |};
            {| s_x := 1919; s_y := 1279; s_d := 80 |}] 5).
  intros s [<- | [<- | []]]; simpl; lra.
Defined.

End LidarPipeline.

(** ** The bottom row of the low-resolution lidar tensor *)

(** The last row of the downsampler's output repeats the row above it. *)
Lemma lidar_bottom_row_copy (c h w : nat) (t out : tensor) :
  has_shapeb c h w t = true -> (0 < c)%nat ->
  (20 <= h)%nat -> (10 <= w)%nat ->
  pool_lidar_tensor t = Ok out ->
  forall ch col,
    cell out ch (pool_out h 20 10) col
    = cell out ch (pool_out h 20 10 - 1) col.
Proof.
  intros Hs Hc Hh Hw Eout.
  destruct (LidarPoolFacts.lidar_max_pool_ok c h w t Hs Hc Hh Hw)
    as [p [_ [Sp [_ E]]]].
  rewrite E in Eout. injection Eout as <-.
  assert (Hpos : (0 < pool_out h 20 10)%nat) by (unfold pool_out; lia).
  intros ch col. unfold clamp_negative, masked_update.
  rewrite !cell_map_tensor.
  rewrite (cell_pad_tensor_last _ _ _ p ch col Sp Hpos).
  rewrite (cell_pad_tensor_above _ _ _ p ch (pool_out h 20 10 - 1) col Sp)
    by lia.
  reflexivity.
Qed.

(** With kernel size 1 a sample clear of the last row or column writes its
    own cell only. *)
Lemma written_point (n : nat) (p : Z) (i : nat) :
  (0 <= p)%Z -> (p + 1 <= Z.of_nat n - 1)%Z ->
  written n ((1 - 1) / 2) p i = (Z.of_nat i =? p)%Z.
Proof.
  intros H0 H1. change ((1 - 1) / 2)%Z with 0%Z. unfold written.
  destruct (Z.ltb_spec (p + 0 + 1) 0); [lia | ].
  apply eq_true_iff_eq. rewrite andb_true_iff, Z.leb_le, Z.ltb_lt, Z.eqb_eq.
  lia.
Qed.

(** The grid of a frame with no lidar return. *)
Lemma no_return_grid (h w : nat) (kernel_size : Z) :
  exists t,
    lidar_array_to_image_like_tensor [] (1, h, w)%nat kernel_size = Ok t /\
    has_shapeb 1 h w t = true /\
    forall r col, (r < h)%nat -> (col < w)%nat -> cell t 0 r col = Some (-1).
Proof.
  exists (map_tensor (fun v => v * -1) (full 1 h w 1)).
  split; [reflexivity | ]. split.
  - apply map_tensor_shape, full_shape.
  - intros r col Hr Hc. apply fresh_range_tensor; [lia | exact Hr | exact Hc].
Qed.

(** The grid of a frame with one return at range 0, at pixel (x, y), splat
    with kernel size 1. *)
Lemma one_return_grid (h w : nat) (x y : Z) :
  (0 <= y)%Z -> (y + 1 <= Z.of_nat h - 1)%Z ->
  (0 <= x)%Z -> (x + 1 <= Z.of_nat w - 1)%Z ->
  exists t,
    lidar_array_to_image_like_tensor
      [{| s_x := inject_Z x; s_y := inject_Z y; s_d := 0 |}]
      (1, h, w)%nat 1 = Ok t /\
    has_shapeb 1 h w t = true /\
    forall r col, (r < h)%nat -> (col < w)%nat ->
      cell t 0 r col
      = Some (if (Z.of_nat r =? y)%Z && (Z.of_nat col =? x)%Z
              then 0 else -1).
Proof.
  intros Hy0 Hy1 Hx0 Hx1.
  destruct (splat_total
              [{| s_x := inject_Z x; s_y := inject_Z y; s_d := 0 |}] 1 h w 1)
    as [t [Et [St _]]]; [lia | ].
  destruct (splat_single h w 1
              {| s_x := inject_Z x; s_y := inject_Z y; s_d := 0 |})
    as [t2 [Et2 Ct]].
  rewrite Et in Et2. injection Et2 as <-.
  exists t. split; [exact Et | ]. split; [exact St | ].
  intros r col Hr Hc. rewrite (Ct r col Hr Hc). cbv zeta.
  simpl s_y. simpl s_x. simpl s_d.
  rewrite (splat_written h _ y r Hr), (splat_written w _ x col Hc).
  rewrite (written_point h y r Hy0 Hy1), (written_point w x col Hx0 Hx1).
  reflexivity.
Qed.

(** C9 as stated fails for the last row of the lidar tensor.  Two frames,
    one without any lidar return and one with a single return at pixel
    row 1265, have the same pixels in rows 1270..1279 (no return), the rows
    from which a stride-10 mapping would draw output row 127.  Their
    low-resolution lidar tensors differ in row 127: 0 for the first, the
    strongest encoding 255 for the second, taken from pixel row 1265. *)
Lemma lidar_bottom_row_off_grid :
  exists no_return one_return out0 out1,
    lidar_array_to_image_like_tensor [] (1, 1280, 1920)%nat 1 = Ok no_return /\
    lidar_array_to_image_like_tensor
      [{| s_x := inject_Z 5; s_y := inject_Z 1265; s_d := 0 |}]
      (1, 1280, 1920)%nat 1 = Ok one_return /\
    (forall r col, (1270 <= r < 1280)%nat -> (col < 1920)%nat ->
       cell no_return 0 r col = Some (-1) /\
       cell one_return 0 r col = Some (-1)) /\
    cell one_return 0 1265 5 = Some 0 /\
    pool_lidar_tensor no_return = Ok out0 /\
    pool_lidar_tensor one_return = Ok out1 /\
    cell out0 0 127 0 = Some 0 /\
    exists v, cell out1 0 127 0 = Some v /\ v == 255.
Proof.
  destruct (no_return_grid 1280 1920 1) as [t0 [E0 [S0 C0]]].
  destruct (one_return_grid 1280 1920 5 1265) as [t1 [E1 [S1 C1]]];
    try lia.
  assert (Hi : (126 < pool_out 1280 20 10)%nat)
    by (rewrite LidarPoolFacts.pool_out_height; lia).
  assert (Hj : (0 < pool_out 1920 10 10)%nat)
    by (rewrite LidarPoolFacts.pool_out_width; lia).
  destruct (NearestReturn.lidar_pooled_cell 1 1280 1920 t0 0 126 0 S0)
    as [out0 [g0 [Eout0 [_ [Eg0 [Sg0 Ecell0]]]]]]; try lia.
  destruct (NearestReturn.nearest_return 1 1280 1920 t1 0 126 0 1265 5 0 S1)
    as [out1 [v [Eout1 [Ecell1 Hv]]]]; try lia.
  { rewrite C1 by lia. reflexivity. }
  { apply Qle_refl. }
  { intros r col d Hr Hc Ed. rewrite C1 in Ed by lia.
    injection Ed as <-.
    destruct ((Z.of_nat r =? 1265)%Z && (Z.of_nat col =? 5)%Z);
      [right; lra | left; reflexivity]. }
  exists t0, t1, out0, out1.
  split; [exact E0 | ]. split; [exact E1 | ]. split.
  { intros r col Hr Hc. split; [apply C0; lia | ].
    rewrite C1 by lia.
    destruct (Z.eqb_spec (Z.of_nat r) 1265); [lia | reflexivity]. }
  split; [rewrite C1 by lia; reflexivity | ].
  split; [exact Eout0 | ]. split; [exact Eout1 | ].
  pose proof (lidar_bottom_row_copy 1 1280 1920 t0 out0 S0) as R0.
  pose proof (lidar_bottom_row_copy 1 1280 1920 t1 out1 S1) as R1.
  rewrite LidarPoolFacts.pool_out_height in R0, R1.
  change (127 - 1)%nat with 126%nat in R0, R1.
  split.
  - rewrite R0 by (lia || exact Eout0). rewrite Ecell0. f_equal.
    rewrite (LidarPoolFacts.sentinel_window_pooled 1280 1920 g0 126 0 Sg0);
      try lia.
    + reflexivity.
    + intros r col x Hr Hc Ex.
      assert (Ec : cell t0 0 r col = Some x)
        by (unfold cell; rewrite Eg0; exact Ex).
      rewrite C0 in Ec by lia. injection Ec as <-. reflexivity.
  - exists v. split.
    + rewrite R1 by (lia || exact Eout1). exact Ecell1.
    + rewrite Hv. vm_compute. reflexivity.
Qed.

(** ** Ground-truth maps, label by label *)

Lemma create_bb_identity (object_class width height : Z) (b : box) :
  recognized object_class = true -> object_class <> 2%Z ->
  _create_ground_truth_bb object_class width height = Ok b ->
  forall i j, (i < b_height b)%nat -> (j < b_width b)%nat -> box_cell b i j = 1.
Proof.
  intros Hrec Hne. unfold _create_ground_truth_bb, np_ones.
  destruct ((height <? 0)%Z || (width <? 0)%Z); [intro X; discriminate X | ].
  simpl bind. destruct (Z.eqb_spec object_class 2); [contradiction | ].
  assert (Hones : forall i j, (i < Z.to_nat height)%nat ->
                    (j < Z.to_nat width)%nat ->
                    box_cell {| b_height := Z.to_nat height;
                                b_width := Z.to_nat width;
                                b_cells := full_grid (Z.to_nat height)
                                             (Z.to_nat width) 1 |} i j = 1).
  { intros i j Hi Hj. unfold box_cell. rewrite nth_cell2. simpl.
    rewrite cell2_full_grid; [reflexivity | | ].
    - destruct (Nat.eqb (Z.to_nat height) 1); lia.
    - destruct (Nat.eqb (Z.to_nat width) 1); lia. }
  destruct (object_class =? 4)%Z.
  - intro E. injection E as <-. exact Hones.
  - destruct (object_class =? 1)%Z; [ | intro X; discriminate X].
    intro E. injection E as <-. exact Hones.
Qed.

(** Writing one label that, if recognized, lies inside the image. *)
Lemma write_label_cells (width_img height_img : Z) (m : tensor) (l : label) :
  (0 <= width_img)%Z -> (0 <= height_img)%Z ->
  has_shapeb 3 (Z.to_nat height_img) (Z.to_nat width_img) m = true ->
  (recognized (l_type l) = true -> inside_image width_img height_img l = true) ->
  exists m', write_label height_img width_img m l = Ok m' /\
    has_shapeb 3 (Z.to_nat height_img) (Z.to_nat width_img) m' = true /\
    forall ch r c,
      (r < Z.to_nat height_img)%nat -> (c < Z.to_nat width_img)%nat ->
      cell m' ch r c
      = if covers l ch r c
        then match _create_ground_truth_bb (l_type l) (l_width l) (l_height l)
             with
             | Ok b => Some (box_cell b (r - Z.to_nat (l_y l))
                                        (c - Z.to_nat (l_x l)))
             | Err _ => None
             end
        else cell m ch r c.
Proof.
  intros HW HH Hs Hin. unfold write_label, covers.
  destruct (recognized (l_type l)) eqn:Hrec; [ | exists m; auto].
  destruct (inside_image_true _ _ _ (Hin eq_refl))
    as [Hx [Hy [Hw [Hh [Hxw Hyh]]]]].
  destruct (create_bb_recognized (l_type l) (l_width l) (l_height l) Hrec Hw Hh)
    as [b [Eb [Bh [Bw _]]]].
  rewrite Eb. simpl bind.
  destruct (has_shape_channel 3 _ _ m (obj_idx (l_type l)) Hs (obj_idx_lt _))
    as [g [Eg Sg]].
  assert (Eh : (l_y l + l_height l)%Z = (l_y l + Z.of_nat (b_height b))%Z)
    by (rewrite Bh; lia).
  assert (Ew : (l_x l + l_width l)%Z = (l_x l + Z.of_nat (b_width b))%Z)
    by (rewrite Bw; lia).
  destruct (assign_box_inside (Z.to_nat height_img) (Z.to_nat width_img)
              (l_y l) (l_x l) b g) as [g' Eg']; try lia.
  rewrite <- Eh, <- Ew in Eg'.
  destruct (assign_box_cell _ _ _ _ _ _ b g g' Sg Eg') as [Sg' Cg'].
  destruct (update_channel_ok (obj_idx (l_type l)) _ m g g' Eg Eg')
    as [m' [Em' [_ [Hsame Hother]]]].
  exists m'. split; [exact Em' | ]. split.
  - refine (update_channel_shape 3 _ _ _ _ m m' Hs _ Em').
    intros g0 g1 S0 E0.
    apply (assign_box_cell _ _ _ _ _ _ b g0 g1 S0 E0).
  - intros ch r c Hr Hc. simpl andb.
    destruct (Nat.eqb_spec (obj_idx (l_type l)) ch) as [<- | Hne].
    + unfold cell. rewrite Hsame, Cg', Eg.
      destruct (grid_shape_cell _ _ g r c Sg Hr Hc) as [old Eold].
      rewrite Eold. simpl option_map.
      rewrite (in_slice_inside (Z.to_nat height_img)) by lia.
      rewrite (in_slice_inside (Z.to_nat width_img)) by lia.
      unfold slice_lo. rewrite !slice_bound_id by lia.
      destruct ((l_y l <=? Z.of_nat r)%Z && (Z.of_nat r <? l_y l + l_height l)%Z
                && ((l_x l <=? Z.of_nat c)%Z
                    && (Z.of_nat c <? l_x l + l_width l)%Z)) eqn:E.
      * apply andb_true_iff in E. destruct E as [E1 E2].
        apply andb_true_iff in E1. destruct E1 as [-> ->].
        apply andb_true_iff in E2. destruct E2 as [-> ->]. reflexivity.
      * destruct (l_y l <=? Z.of_nat r)%Z; simpl in *; [ | reflexivity].
        destruct (Z.of_nat r <? l_y l + l_height l)%Z; simpl in *;
          [ | reflexivity].
        destruct (l_x l <=? Z.of_nat c)%Z; simpl in *; [ | reflexivity].
        rewrite E. reflexivity.
    + simpl. unfold cell. rewrite (Hother ch); [reflexivity | ].
      intro Heq. apply Hne. symmetry. exact Heq.
Qed.

Lemma create_maps_snoc (ground_truth : list label) (l : label)
  (width_img height_img : Z) :
  (0 <= width_img)%Z -> (0 <= height_img)%Z ->
  (forall x, In x (ground_truth ++ [l]) -> recognized (l_type x) = true ->
             inside_image width_img height_img x = true) ->
  exists m m',
    create_ground_truth_maps ground_truth width_img height_img = Ok m /\
    create_ground_truth_maps (ground_truth ++ [l]) width_img height_img
    = Ok m' /\
    has_shapeb 3 (Z.to_nat height_img) (Z.to_nat width_img) m' = true /\
    forall ch r c,
      (r < Z.to_nat height_img)%nat -> (c < Z.to_nat width_img)%nat ->
      cell m' ch r c
      = if covers l ch r c
        then match _create_ground_truth_bb (l_type l) (l_width l) (l_height l)
             with
             | Ok b => Some (box_cell b (r - Z.to_nat (l_y l))
                                        (c - Z.to_nat (l_x l)))
             | Err _ => None
             end
        else cell m ch r c.
Proof.
  intros HW HH Hin.
  destruct (create_maps_inside ground_truth width_img height_img HW HH)
    as [m [Em [Sm _]]].
  { intros x Hx. apply Hin. apply in_or_app. left. exact Hx. }
  destruct (write_label_cells width_img height_img m l HW HH Sm)
    as [m' [Em' [Sm' Cm']]].
  { apply Hin. apply in_or_app. right. left. reflexivity. }
  exists m, m'. split; [exact Em | ]. split; [ | split; [exact Sm' | exact Cm']].
  unfold create_ground_truth_maps in *.
  destruct (np_zeros3 height_img width_img) as [z | e]; [ | discriminate Em].
  simpl bind in *. rewrite fold_left_app, Em. simpl. exact Em'.
Qed.

(** X11.  Last-written box wins.  For a frame whose recognized labels lie
    inside the image, appending a recognized label overwrites exactly the
    cells of its box in its own channel with its template (all 1 for a
    vehicle or cyclist) and leaves every other cell, in all three channels,
    as the shorter frame produced it. *)
Theorem last_label_wins (ground_truth : list label) (l : label)
  (width_img height_img : Z) :
  (0 <= width_img)%Z -> (0 <= height_img)%Z ->
  (forall x, In x ground_truth -> recognized (l_type x) = true ->
             inside_image width_img height_img x = true) ->
  recognized (l_type l) = true -> inside_image width_img height_img l = true ->
  exists m m' b,
    create_ground_truth_maps ground_truth width_img height_img = Ok m /\
    create_ground_truth_maps (ground_truth ++ [l]) width_img height_img
    = Ok m' /\
    _create_ground_truth_bb (l_type l) (l_width l) (l_height l) = Ok b /\
    (forall ch r c,
       (r < Z.to_nat height_img)%nat -> (c < Z.to_nat width_img)%nat ->
       cell m' ch r c
       = if covers l ch r c
         then Some (box_cell b (r - Z.to_nat (l_y l)) (c - Z.to_nat (l_x l)))
         else cell m ch r c) /\
    (l_type l <> 2%Z ->
     forall i j, (i < b_height b)%nat -> (j < b_width b)%nat ->
                 box_cell b i j = 1).
Proof.
  intros HW HH Hin Hrec Hl.
  destruct (create_maps_snoc ground_truth l width_img height_img HW HH)
    as [m [m' [Em [Em' [_ Cm']]]]].
  { intros x Hx. apply in_app_or in Hx. destruct Hx as [Hx | [<- | []]].
    - apply Hin. exact Hx.
    - intros _. exact Hl. }
  destruct (inside_image_true _ _ _ Hl) as [_ [_ [Hw [Hh _]]]].
  destruct (create_bb_recognized (l_type l) (l_width l) (l_height l) Hrec Hw Hh)
    as [b [Eb _]].
  exists m, m', b. split; [exact Em | ]. split; [exact Em' | ].
  split; [exact Eb | ]. split.
  - intros ch r c Hr Hc. rewrite (Cm' ch r c Hr Hc), Eb. reflexivity.
  - intro Hne. apply (create_bb_identity _ _ _ b Hrec Hne Eb).
Qed.

Lemma last_label_wins_witness :
  let frame :=
    [{| l_type := 1; l_x := 100; l_y := 200; l_width := 300; l_height := 150 |}]
  in
  let l :=
    {| l_type := 1; l_x := 150; l_y := 250; l_width := 20; l_height := 30 |}
  in
  exists m m' b,
    create_ground_truth_maps frame 1920 1280 = Ok m /\
    create_ground_truth_maps (frame ++ [l]) 1920 1280 = Ok m' /\
    _create_ground_truth_bb (l_type l) (l_width l) (l_height l) = Ok b /\
    (forall ch r c,
       (r < Z.to_nat 1280)%nat -> (c < Z.to_nat 1920)%nat ->
       cell m' ch r c
       = if covers l ch r c
         then Some (box_cell b (r - Z.to_nat (l_y l)) (c - Z.to_nat (l_x l)))
         else cell m ch r c) /\
    (l_type l <> 2%Z ->
     forall i j, (i < b_height b)%nat -> (j < b_width b)%nat ->
                 box_cell b i j = 1).
Proof.
  intros frame l. apply (last_label_wins frame l 1920 1280).
  - lia.
  - lia.
  - intros x [<- | []] _. reflexivity.
  - reflexivity.
  - reflexivity.
Defined.

Lemma create_maps_background (ground_truth : list label)
  (width_img height_img : Z) :
  (0 <= width_img)%Z -> (0 <= height_img)%Z ->
  (forall x, In x ground_truth -> recognized (l_type x) = true ->
             inside_image width_img height_img x = true) ->
  exists m,
    create_ground_truth_maps ground_truth width_img height_img = Ok m /\
    forall ch r c,
      (ch < 3)%nat -> (r < Z.to_nat height_img)%nat ->
      (c < Z.to_nat width_img)%nat ->
      (forall x, In x ground_truth -> covers x ch r c = false) ->
      cell m ch r c = Some 0.
Proof.
  intros HW HH.
  induction ground_truth as [ | l rest IH] using rev_ind; intro Hin.
  - exists (full 3 (Z.to_nat height_img) (Z.to_nat width_img) 0). split.
    + unfold create_ground_truth_maps. rewrite np_zeros3_ok by assumption.
      reflexivity.
    + intros ch r c Hch Hr Hc _. unfold cell, full.
      rewrite nth_error_repeat_lt by exact Hch.
      apply cell2_full_grid; assumption.
  - destruct (create_maps_snoc rest l width_img height_img HW HH Hin)
      as [m [m' [Em [Em' [_ Cm']]]]].
    destruct IH as [m0 [Em0 C0]].
    { intros x Hx. apply Hin. apply in_or_app. left. exact Hx. }
    rewrite Em in Em0. injection Em0 as <-.
    exists m'. split; [exact Em' | ].
    intros ch r c Hch Hr Hc Hnone. rewrite (Cm' ch r c Hr Hc).
    rewrite (Hnone l) by (apply in_or_app; right; left; reflexivity).
    apply C0; try assumption.
    intros x Hx. apply Hnone. apply in_or_app. left. exact Hx.
Qed.

(** X12.  Background stays 0: in the map of a frame whose recognized labels
    lie inside the image, a cell of channel ch that no label of that channel
    covers is 0. *)
Theorem uncovered_cells_are_zero (ground_truth : list label)
  (width_img height_img : Z) :
  (0 <= width_img)%Z -> (0 <= height_img)%Z ->
  (forall x, In x ground_truth -> recognized (l_type x) = true ->
             inside_image width_img height_img x = true) ->
  exists m,
    create_ground_truth_maps ground_truth width_img height_img = Ok m /\
    forall ch r c,
      (ch < 3)%nat -> (r < Z.to_nat height_img)%nat ->
      (c < Z.to_nat width_img)%nat ->
      (forall x, In x ground_truth -> covers x ch r c = false) ->
      cell m ch r c = Some 0.
Proof. apply create_maps_background. Qed.

Lemma uncovered_cells_are_zero_witness :
  let frame :=
    [{| l_type := 1; l_x := 100; l_y := 200; l_width := 300; l_height := 150 |};
     {| l_type := 3; l_x := -(5); l_y := 7; l_width := 9000; l_height := 2 |}]
  in
  exists m,
    create_ground_truth_maps frame 1920 1280 = Ok m /\
    forall ch r c,
      (ch < 3)%nat -> (r < Z.to_nat 1280)%nat -> (c < Z.to_nat 1920)%nat ->
      (forall x, In x frame -> covers x ch r c = false) ->
      cell m ch r c = Some 0.
Proof.
  intro frame. apply (uncovered_cells_are_zero frame 1920 1280).
  - lia.
  - lia.
  - intros x [<- | [<- | []]] Hrec; [reflexivity | discriminate Hrec].
Defined.

(** ** Boxes with a negative corner *)

Lemma crossing_slice_len (n : nat) (lo len : Z) :
  (lo < 0)%Z -> (0 < lo + len)%Z -> (2 <= len)%Z ->
  broadcastable (Z.to_nat len) (slice_len n (Some lo) (Some (lo + len)%Z))
  = false.
Proof.
  intros H0 H1 H2. unfold broadcastable, slice_len, slice_lo, slice_hi,
    slice_bound.
  destruct (Z.ltb_spec lo 0); [ | lia].
  destruct (Z.ltb_spec (lo + len) 0); [lia | ].
  apply orb_false_iff. split; apply Nat.eqb_neq; lia.
Qed.

Lemma box_crossing_low_edge (l : label) (width_img height_img : Z) :
  (0 <= width_img)%Z -> (0 <= height_img)%Z ->
  recognized (l_type l) = true ->
  (0 <= l_width l)%Z -> (0 <= l_height l)%Z ->
  (l_x l < 0 /\ 0 < l_x l + l_width l /\ 2 <= l_width l
   \/ l_y l < 0 /\ 0 < l_y l + l_height l /\ 2 <= l_height l)%Z ->
  create_ground_truth_maps [l] width_img height_img = Err ShapeMismatch.
Proof.
  intros HW HH Hrec Hw Hh Hout. unfold create_ground_truth_maps.
  rewrite np_zeros3_ok by assumption. simpl.
  unfold write_label. rewrite Hrec.
  destruct (create_bb_recognized (l_type l) (l_width l) (l_height l) Hrec Hw Hh)
    as [b [Eb [Bh [Bw _]]]].
  rewrite Eb. simpl bind.
  destruct (has_shape_channel 3 _ _ _ (obj_idx (l_type l))
              (full_shape 3 (Z.to_nat height_img) (Z.to_nat width_img) 0)
              (obj_idx_lt _)) as [g [Eg _]].
  apply (update_channel_err _ _ _ g _ Eg).
  unfold assign_box. rewrite Bh, Bw.
  destruct Hout as [[Hx [H2 Hover]] | [Hy [H2 Hover]]].
  - rewrite (crossing_slice_len (Z.to_nat width_img)) by lia.
    rewrite andb_false_r. reflexivity.
  - rewrite (crossing_slice_len (Z.to_nat height_img)) by lia.
    reflexivity.
Qed.

(** X13.  A recognized box, at least two pixels wide (tall), that crosses
    the left (top) edge of the image, its corner negative and its far edge
    positive, makes [create_ground_truth_maps] fail with the shape mismatch:
    the negative slice start counts from the far side and the slice comes
    out shorter than the template. *)
Theorem box_across_left_or_top_edge_fails (l : label)
  (width_img height_img : Z) :
  (0 <= width_img)%Z -> (0 <= height_img)%Z ->
  recognized (l_type l) = true ->
  (0 <= l_width l)%Z -> (0 <= l_height l)%Z ->
  (l_x l < 0 /\ 0 < l_x l + l_width l /\ 2 <= l_width l
   \/ l_y l < 0 /\ 0 < l_y l + l_height l /\ 2 <= l_height l)%Z ->
  create_ground_truth_maps [l] width_img height_img = Err ShapeMismatch.
Proof. apply box_crossing_low_edge. Qed.

Lemma box_across_left_or_top_edge_fails_witness :
  create_ground_truth_maps
    [{| l_type := 2; l_x := -(3); l_y := 100; l_width := 40; l_height := 90 |}]
    1920 1280
  = Err ShapeMismatch.
Proof.
  apply (box_across_left_or_top_edge_fails
           {| l_type := 2; l_x := -(3); l_y := 100;
              l_width := 40; l_height := 90 |} 1920 1280);
    simpl; try reflexivity; lia.
Defined.

Lemma slice_wrap (n : nat) (lo len : Z) :
  (lo + len < 0)%Z -> (0 <= len)%Z -> (- Z.of_nat n <= lo)%Z ->
  slice_lo n (Some lo) = (lo + Z.of_nat n)%Z /\
  slice_hi n (Some (lo + len)%Z) = (lo + len + Z.of_nat n)%Z.
Proof.
  intros H0 H1 H2. unfold slice_lo, slice_hi, slice_bound.
  destruct (Z.ltb_spec lo 0); [ | lia].
  destruct (Z.ltb_spec (lo + len) 0); [ | lia]. lia.
Qed.

Lemma wrapped_box (l : label) (width_img height_img : Z) :
  (0 <= width_img)%Z -> (0 <= height_img)%Z ->
  recognized (l_type l) = true ->
  (0 <= l_y l)%Z -> (0 <= l_height l)%Z ->
  (l_y l + l_height l <= height_img)%Z ->
  (0 <= l_width l)%Z -> (l_x l + l_width l < 0)%Z ->
  (- width_img <= l_x l)%Z ->
  exists m b,
    create_ground_truth_maps [l] width_img height_img = Ok m /\
    _create_ground_truth_bb (l_type l) (l_width l) (l_height l) = Ok b /\
    forall r c,
      (r < Z.to_nat height_img)%nat -> (c < Z.to_nat width_img)%nat ->
      cell m (obj_idx (l_type l)) r c
      = Some (if ((l_y l <=? Z.of_nat r)%Z
                  && (Z.of_nat r <? l_y l + l_height l)%Z)
                 && ((width_img + l_x l <=? Z.of_nat c)%Z
                     && (Z.of_nat c <? width_img + l_x l + l_width l)%Z)
              then box_cell b (r - Z.to_nat (l_y l))
                              (c - Z.to_nat (width_img + l_x l))
              else 0).
Proof.
  intros HW HH Hrec Hy Hh Hyh Hw Hxw Hx.
  unfold create_ground_truth_maps. rewrite np_zeros3_ok by assumption.
  simpl. unfold write_label. rewrite Hrec.
  destruct (create_bb_recognized (l_type l) (l_width l) (l_height l) Hrec Hw Hh)
    as [b [Eb [Bh [Bw _]]]].
  rewrite Eb. simpl bind.
  set (H := Z.to_nat height_img). set (W := Z.to_nat width_img).
  pose proof (full_shape 3 H W 0) as S0.
  destruct (has_shape_channel 3 H W _ (obj_idx (l_type l)) S0 (obj_idx_lt _))
    as [g [Eg Sg]].
  destruct (slice_wrap W (l_x l) (l_width l)) as [Elo Ehi]; try lia.
  assert (Eg' : exists g', assign_box H W (l_y l) (l_y l + l_height l)
                             (l_x l) (l_x l + l_width l) b g = Ok g').
  { unfold assign_box.
    rewrite (slice_len_inside H) by lia.
    unfold slice_len. rewrite Elo, Ehi, Bh, Bw.
    replace (Z.to_nat (l_x l + l_width l + Z.of_nat W - (l_x l + Z.of_nat W)))
      with (Z.to_nat (l_width l)) by (f_equal; lia).
    unfold broadcastable. rewrite !Nat.eqb_refl. simpl.
    eexists. reflexivity. }
  destruct Eg' as [g' Eg'].
  destruct (assign_box_cell _ _ _ _ _ _ b g g' Sg Eg') as [_ Cg'].
  destruct (update_channel_ok (obj_idx (l_type l)) _ _ g g' Eg Eg')
    as [m [Em [_ [Hsame _]]]].
  exists m, b. split; [exact Em | ]. split; [reflexivity | ].
  intros r c Hr Hc. unfold cell. rewrite Hsame, Cg'.
  assert (Eold : cell2 g r c = Some 0).
  { unfold full in Eg. rewrite nth_error_repeat_lt in Eg by apply obj_idx_lt.
    injection Eg as <-. apply cell2_full_grid; assumption. }
  rewrite Eold. cbn [option_map]. f_equal.
  rewrite (in_slice_inside H) by lia.
  replace (in_slice W (Some (l_x l)) (Some (l_x l + l_width l)%Z) c)
    with ((width_img + l_x l <=? Z.of_nat c)%Z
          && (Z.of_nat c <? width_img + l_x l + l_width l)%Z).
  2:{ unfold in_slice. rewrite Elo, Ehi. unfold W. rewrite Z2Nat.id by lia.
      f_equal; f_equal; lia. }
  unfold slice_lo at 1. rewrite slice_bound_id by (unfold H; lia).
  rewrite Elo. unfold W. rewrite Z2Nat.id by lia.
  replace (l_x l + width_img)%Z with (width_img + l_x l)%Z by lia.
  reflexivity.
Qed.

(** X14.  A recognized box lying wholly to the left of the image (its right
    edge negative, its left edge no further out than the image width) does
    not fail and is not skipped: both slice bounds count from the right, and
    the template is written [width_img + x] columns in, at the right side of
    the image. *)
Theorem box_left_of_image_wraps (l : label) (width_img height_img : Z) :
  (0 <= width_img)%Z -> (0 <= height_img)%Z ->
  recognized (l_type l) = true ->
  (0 <= l_y l)%Z -> (0 <= l_height l)%Z ->
  (l_y l + l_height l <= height_img)%Z ->
  (0 <= l_width l)%Z -> (l_x l + l_width l < 0)%Z ->
  (- width_img <= l_x l)%Z ->
  exists m b,
    create_ground_truth_maps [l] width_img height_img = Ok m /\
    _create_ground_truth_bb (l_type l) (l_width l) (l_height l) = Ok b /\
    forall r c,
      (r < Z.to_nat height_img)%nat -> (c < Z.to_nat width_img)%nat ->
      cell m (obj_idx (l_type l)) r c
      = Some (if ((l_y l <=? Z.of_nat r)%Z
                  && (Z.of_nat r <? l_y l + l_height l)%Z)
                 && ((width_img + l_x l <=? Z.of_nat c)%Z
                     && (Z.of_nat c <? width_img + l_x l + l_width l)%Z)
              then box_cell b (r - Z.to_nat (l_y l))
                              (c - Z.to_nat (width_img + l_x l))
              else 0).
Proof. apply wrapped_box. Qed.

Lemma box_left_of_image_wraps_witness :
  let l :=
    {| l_type := 1; l_x := -(50); l_y := 10; l_width := 20; l_height := 30 |}
  in
  exists m b,
    create_ground_truth_maps [l] 1920 1280 = Ok m /\
    _create_ground_truth_bb (l_type l) (l_width l) (l_height l) = Ok b /\
    forall r c,
      (r < Z.to_nat 1280)%nat -> (c < Z.to_nat 1920)%nat ->
      cell m (obj_idx (l_type l)) r c
      = Some (if ((l_y l <=? Z.of_nat r)%Z
                  && (Z.of_nat r <? l_y l + l_height l)%Z)
                 && ((1920 + l_x l <=? Z.of_nat c)%Z
                     && (Z.of_nat c <? 1920 + l_x l + l_width l)%Z)
              then box_cell b (r - Z.to_nat (l_y l))
                              (c - Z.to_nat (1920 + l_x l))
              else 0).
Proof.
  intro l. apply (box_left_of_image_wraps l 1920 1280);
    simpl; try reflexivity; lia.
Defined.

(** ** Labels as the extraction driver builds them *)

Lemma py_int_nonneg (q : Q) :
  0 <= q -> (0 <= py_int q)%Z /\ inject_Z (py_int q) <= q.
Proof.
  destruct q as [n d]. unfold Qle, py_int. simpl. intro H.
  assert (Hn : (0 <= n)%Z) by lia.
  rewrite Z.quot_div_nonneg by lia. split.
  - apply Z.div_pos; lia.
  - rewrite Z.mul_1_r. rewrite Z.mul_comm. apply Z.mul_div_le. lia.
Qed.

Lemma label_entry_inside (cl : camera_label) (width_img height_img : Z) :
  0 <= box_length cl -> 0 <= box_width cl ->
  0 <= center_x cl - (1 # 2) * box_length cl ->
  center_x cl + (1 # 2) * box_length cl <= inject_Z width_img ->
  0 <= center_y cl - (1 # 2) * box_width cl ->
  center_y cl + (1 # 2) * box_width cl <= inject_Z height_img ->
  inside_image width_img height_img (label_entry cl) = true.
Proof.
  intros Hl Hw Hx0 Hx1 Hy0 Hy1.
  destruct (py_int_nonneg _ Hl) as [L0 L1].
  destruct (py_int_nonneg _ Hw) as [W0 W1].
  destruct (py_int_nonneg _ Hx0) as [X0 X1].
  destruct (py_int_nonneg _ Hy0) as [Y0 Y1].
  unfold inside_image, label_entry. simpl.
  rewrite !andb_true_iff, !Z.leb_le.
  refine (conj (conj (conj (conj (conj X0 Y0) L0) W0) _) _).
  - rewrite Zle_Qle, inject_Z_plus. lra.
  - rewrite Zle_Qle, inject_Z_plus. lra.
Qed.

(** X15.  Labels built by the extraction driver from camera boxes that lie
    inside the image (centre minus and plus half the extent within
    [0, width] x [0, height], extent non-negative) always satisfy what the
    heat-map synthesis needs: the truncated corner and extent keep the box
    inside, so [create_ground_truth_maps] succeeds with a (3, height, width)
    map whose cells lie in [0, 1], whatever the classes are. *)
Theorem driver_labels_are_inside (camera_labels : list camera_label)
  (width_img height_img : Z) :
  (0 <= width_img)%Z -> (0 <= height_img)%Z ->
  (forall cl, In cl camera_labels ->
     0 <= box_length cl /\ 0 <= box_width cl /\
     0 <= center_x cl - (1 # 2) * box_length cl /\
     center_x cl + (1 # 2) * box_length cl <= inject_Z width_img /\
     0 <= center_y cl - (1 # 2) * box_width cl /\
     center_y cl + (1 # 2) * box_width cl <= inject_Z height_img) ->
  exists m,
    create_ground_truth_maps (label_dict camera_labels) width_img height_img
    = Ok m /\
    has_shapeb 3 (Z.to_nat height_img) (Z.to_nat width_img) m = true /\
    all_cells unit_interval m.
Proof.
  intros HW HH Hin. apply create_maps_inside; try assumption.
  intros l Hl _. unfold label_dict in Hl. apply in_map_iff in Hl.
  destruct Hl as [cl [<- Hcl]].
  destruct (Hin cl Hcl) as [A [B [C [D [E F]]]]].
  apply label_entry_inside; assumption.
Qed.

Lemma driver_labels_are_inside_witness :
  let boxes :=
    [{| cl_type := 2; center_x := 1000 # 3; center_y := 1201 # 2;
        box_length := 81 # 2; box_width := 301 # 3 |};
     {| cl_type := 3; center_x := 10; center_y := 10;
        box_length := 20; box_width := 20 |}]
  in
  exists m,
    create_ground_truth_maps (label_dict boxes) 1920 1280 = Ok m /\
    has_shapeb 3 (Z.to_nat 1280) (Z.to_nat 1920) m = true /\
    all_cells unit_interval m.
Proof.
  intro boxes. apply (driver_labels_are_inside boxes 1920 1280).
  - lia.
  - lia.
  - intros cl [<- | [<- | []]];
      cbn [box_length box_width center_x center_y];
      (split; [ | split; [ | split; [ | split; [ | split]]]]);
      vm_compute; discriminate.
Defined.

(** X16.  Synthesising the heat map of a frame and max-pooling it, as the
    driver does for the default 1920 x 1280 image: when the recognized
    labels lie inside the image both calls succeed and the stored heat map
    has shape (3, 128, 192) with every cell in [0, 1]. *)
Theorem downsized_heat_map (ground_truth : list label) :
  (forall l, In l ground_truth -> recognized (l_type l) = true ->
             inside_image 1920 1280 l = true) ->
  exists heat_map out,
    create_ground_truth_maps ground_truth 1920 1280 = Ok heat_map /\
    maxpool_tensor heat_map = Ok out /\
    has_shapeb 3 128 192 out = true /\
    all_cells unit_interval out.
Proof.
  intro Hin.
  destruct (create_maps_inside ground_truth 1920 1280) as [hm [Ehm [Shm Chm]]];
    [lia | lia | exact Hin | ].
  change (Z.to_nat 1280) with 1280%nat in Shm.
  change (Z.to_nat 1920) with 1920%nat in Shm.
  destruct (maxpool_tensor_cells 3 1280 1920 hm Shm) as [p [Ep [Sp Cp]]];
    try lia.
  rewrite LidarPoolFacts.pool_out_height10, LidarPoolFacts.pool_out_width in Sp.
  exists hm, p. split; [exact Ehm | ]. split; [exact Ep | ].
  split; [exact Sp | ].
  intros ch i j v Hv.
  destruct (cell_in_shape _ _ _ p ch i j v Sp Hv) as [Hch [Hi Hj]].
  destruct (Cp ch i j Hch) as [v' [Ev' [[r [col [_ [_ Ecell]]]] _]]].
  - rewrite LidarPoolFacts.pool_out_height10. exact Hi.
  - rewrite LidarPoolFacts.pool_out_width. exact Hj.
  - rewrite Hv in Ev'. injection Ev' as <-.
    apply (Chm ch r col v Ecell).
Qed.

Lemma downsized_heat_map_witness :
  exists heat_map out,
    create_ground_truth_maps
      [{| l_type := 2; l_x := 0; l_y := 0; l_width := 8; l_height := 10 |}]
      1920 1280 = Ok heat_map /\
    maxpool_tensor heat_map = Ok out /\
    has_shapeb 3 128 192 out = true /\
    all_cells unit_interval out.
Proof.
  apply (downsized_heat_map
           [{| l_type := 2; l_x := 0; l_y := 0; l_width := 8; l_height := 10 |}]).
  intros l [<- | []] _. reflexivity.
Defined.

(** ** More on the overlap metric *)

Lemma zip_with_comm {A B : Type} (f : A -> A -> B) (l1 l2 : list A) :
  (forall a b, f a b = f b a) -> zip_with f l1 l2 = zip_with f l2 l1.
Proof.
  intro Hf. unfold zip_with. revert l2.
  induction l1 as [ | a t IH]; intro l2.
  - destruct l2; reflexivity.
  - destruct l2 as [ | b u]; [reflexivity | ].
    simpl. rewrite Hf, IH. reflexivity.
Qed.

Lemma iou_class_comm (threshold : Q) (gt est : grid) :
  iou_class threshold gt est = iou_class threshold est gt.
Proof.
  unfold iou_class, intersection, union.
  rewrite (zip_with_comm (zip_with andb) (binarize threshold est));
    [ | intros a b; apply zip_with_comm; apply andb_comm].
  rewrite (zip_with_comm (zip_with orb) (binarize threshold est));
    [ | intros a b; apply zip_with_comm; apply orb_comm].
  reflexivity.
Qed.

(** X17.  The metric is symmetric: swapping ground truth and estimate gives
    the same per-class scores. *)
Theorem overlap_metric_symmetric (ground_truth_map estimated_heat_map : tensor)
  (threshold : Q) :
  compute_IoU_whole_img_per_class ground_truth_map estimated_heat_map threshold
  = compute_IoU_whole_img_per_class estimated_heat_map ground_truth_map
      threshold.
Proof.
  unfold compute_IoU_whole_img_per_class. apply zip_with_comm.
  apply iou_class_comm.
Qed.

Lemma zip_with_diag {A B : Type} (f : A -> A -> B) (l : list A) :
  zip_with f l l = map (fun a => f a a) l.
Proof.
  unfold zip_with. induction l as [ | a t IH]; simpl; [ | rewrite IH];
    reflexivity.
Qed.

Lemma self_counts (threshold : Q) (g : grid) :
  intersection threshold g g = count_true (binarize threshold g) /\
  union threshold g g = count_true (binarize threshold g).
Proof.
  unfold intersection, union. rewrite !zip_with_diag. split; f_equal.
  - rewrite <- (map_id (binarize threshold g)) at 2. apply map_ext.
    intro r. rewrite zip_with_diag. rewrite <- (map_id r) at 2.
    apply map_ext. intro b. destruct b; reflexivity.
  - rewrite <- (map_id (binarize threshold g)) at 2. apply map_ext.
    intro r. rewrite zip_with_diag. rewrite <- (map_id r) at 2.
    apply map_ext. intro b. destruct b; reflexivity.
Qed.

Lemma count_row_pos (r : list bool) : In true r -> (0 < count_row r)%nat.
Proof.
  unfold count_row. induction r as [ | b t IH]; intro H; [contradiction | ].
  destruct H as [E | H].
  - subst b. simpl. lia.
  - destruct b; simpl; [lia | apply IH; exact H].
Qed.

Lemma count_true_pos (b : bgrid) (r : list bool) :
  In r b -> In true r -> (0 < count_true b)%nat.
Proof.
  intros Hr Ht. induction b as [ | x t IH]; [contradiction | ].
  simpl. destruct Hr as [-> | Hr].
  - pose proof (count_row_pos r Ht). lia.
  - specialize (IH Hr). lia.
Qed.

Lemma self_iou (threshold : Q) (g : grid) :
  ((exists r c v, cell2 g r c = Some v /\ threshold <= v) ->
   exists q, iou_class threshold g g = Num q /\ q == 1) /\
  ((forall r c v, cell2 g r c = Some v -> v < threshold) ->
   iou_class threshold g g = Num 0).
Proof.
  destruct (self_counts threshold g) as [Ei Eu]. split.
  - intros [r [c [v [Ev Hv]]]].
    assert (Hpos : (0 < count_true (binarize threshold g))%nat).
    { unfold cell2 in Ev.
      destruct (nth_error g r) as [rw | ] eqn:Er; [ | discriminate Ev].
      apply count_true_pos
        with (r := map (fun v => Qge_bool v threshold) rw).
      - unfold binarize. apply in_map. eapply nth_error_In. exact Er.
      - apply in_map_iff. exists v. split.
        + apply Qle_bool_iff. exact Hv.
        + eapply nth_error_In. exact Ev. }
    unfold iou_class, true_divide. rewrite Ei, Eu.
    destruct (Nat.eqb_spec (count_true (binarize threshold g)) 0); [lia | ].
    simpl. eexists. split; [reflexivity | ].
    pose proof (inject_nat_pos _ Hpos) as Hq.
    unfold Qdiv. apply Qmult_inv_r. lra.
  - intro Hall.
    assert (E0 : binarize threshold g
                 = map (fun rw => repeat false (length rw)) g).
    { unfold binarize. apply map_ext_in. intros rw Hrw.
      apply map_const_repeat. intros v Hv.
      apply In_nth_error in Hrw. destruct Hrw as [r Er].
      apply In_nth_error in Hv. destruct Hv as [c Ec].
      apply Qle_bool_false. apply (Hall r c v). unfold cell2.
      rewrite Er. exact Ec. }
    assert (Ez : count_true (binarize threshold g) = 0%nat).
    { rewrite E0. clear. induction g as [ | rw t IH]; [reflexivity | ].
      simpl. rewrite IH, count_row_repeat. reflexivity. }
    unfold iou_class, true_divide. rewrite Ei, Eu, Ez. reflexivity.
Qed.

(** X18.  A perfect estimate scores 1 for a class that is present (some
    cell at or above the threshold) and 0 for a class that is absent: the
    zero-union rule makes "nothing there, nothing predicted" count as a
    miss. *)
Theorem perfect_estimate_score (threshold : Q) (g : grid) :
  ((exists r c v, cell2 g r c = Some v /\ threshold <= v) ->
   exists q, iou_class threshold g g = Num q /\ q == 1) /\
  ((forall r c v, cell2 g r c = Some v -> v < threshold) ->
   iou_class threshold g g = Num 0).
Proof. apply self_iou. Qed.

(** ** The batch mean *)

Lemma mapi_from_set {A : Type} (row x : A) (done rest : list A) (n : nat) :
  mapi_from (fun k old => if Nat.eqb k (n + length done) then row else old)
            n (done ++ x :: rest)
  = done ++ row :: rest.
Proof.
  revert n. induction done as [ | d t IH]; intro n; simpl.
  - rewrite Nat.add_0_r, Nat.eqb_refl. f_equal.
    assert (H : forall m l, (n < m)%nat ->
                  mapi_from (fun k old => if Nat.eqb k n then row else old) m l
                  = l).
    { intros m l. revert m. induction l as [ | a l IHl]; intros m Hm; simpl;
        [reflexivity | ].
      destruct (Nat.eqb_spec m n); [lia | ]. rewrite IHl by lia. reflexivity. }
    apply H. lia.
  - destruct (Nat.eqb_spec n (n + S (length t))); [lia | ]. f_equal.
    replace (n + S (length t))%nat with (S n + length t)%nat by lia.
    apply IH.
Qed.

Lemma mapi_set {A : Type} (row x : A) (done rest : list A) :
  mapi (fun k old => if Nat.eqb k (length done) then row else old)
       (done ++ x :: rest)
  = done ++ row :: rest.
Proof. exact (mapi_from_set row x done rest 0). Qed.

Lemma per_class_length (gt est : tensor) (threshold : Q) :
  length (compute_IoU_whole_img_per_class gt est threshold)
  = Nat.min (length gt) (length est).
Proof.
  unfold compute_IoU_whole_img_per_class, zip_with.
  rewrite length_map. apply length_combine.
Qed.

Lemma iou_loop_rows (classes : nat) (threshold : Q)
  (pairs : list (tensor * tensor)) (done : list (list score)) (extra : nat) :
  (forall p, In p pairs ->
     length (compute_IoU_whole_img_per_class (fst p) (snd p) threshold)
     = classes) ->
  iou_loop classes threshold (length done) pairs
    (done ++ repeat (repeat (Num 0) classes) (length pairs + extra))
  = Ok (done
        ++ map (fun p => compute_IoU_whole_img_per_class (fst p) (snd p)
                           threshold) pairs
        ++ repeat (repeat (Num 0) classes) extra).
Proof.
  revert done. induction pairs as [ | [g e] rest IH]; intros done Hlen.
  - reflexivity.
  - cbn [iou_loop]. unfold assign_row.
    rewrite length_app, repeat_length.
    destruct (Nat.ltb_spec (length done)
                (length done + (length ((g, e) :: rest) + extra)));
      [ | simpl in *; lia].
    pose proof (Hlen (g, e) (or_introl eq_refl)) as Hrow. simpl in Hrow.
    rewrite Hrow, Nat.eqb_refl. cbn [bind].
    change (length ((g, e) :: rest) + extra)%nat
      with (S (length rest + extra)).
    cbn [repeat]. rewrite mapi_set.
    replace (done ++ compute_IoU_whole_img_per_class g e threshold
                  :: repeat (repeat (Num 0) classes) (length rest + extra))
      with ((done ++ [compute_IoU_whole_img_per_class g e threshold])
            ++ repeat (repeat (Num 0) classes) (length rest + extra))
      by (rewrite <- app_assoc; reflexivity).
    replace (S (length done))
      with (length (done ++ [compute_IoU_whole_img_per_class g e threshold]))
      by (rewrite length_app; simpl; lia).
    rewrite IH by (intros p Hp; apply Hlen; right; exact Hp).
    rewrite <- app_assoc. reflexivity.
Qed.

Lemma batch_rows (classes : nat) (gt_batch est_batch : list tensor)
  (threshold : Q) :
  (forall g, In g gt_batch -> length g = classes) ->
  (forall e, In e est_batch -> length e = classes) ->
  compute_IoU_whole_img_batch classes gt_batch est_batch threshold
  = Ok (mean_axis0 classes
          (zip_with (fun g e => compute_IoU_whole_img_per_class g e threshold)
                    gt_batch est_batch
           ++ repeat (repeat (Num 0) classes)
                     (length gt_batch - length est_batch))).
Proof.
  intros Hg He. unfold compute_IoU_whole_img_batch. cbv zeta.
  replace (repeat (repeat (Num 0) classes) (length gt_batch))
    with (repeat (repeat (Num 0) classes)
            (length (combine gt_batch est_batch)
             + (length gt_batch - length est_batch)))
    by (f_equal; rewrite length_combine; lia).
  pose proof (iou_loop_rows classes threshold (combine gt_batch est_batch) []
                (length gt_batch - length est_batch)) as Hloop.
  cbn [length app] in Hloop. rewrite Hloop.
  - reflexivity.
  - intros [g e] Hp. simpl. rewrite per_class_length.
    rewrite (Hg g (in_combine_l _ _ _ _ Hp)), (He e (in_combine_r _ _ _ _ Hp)).
    apply Nat.min_id.
Qed.

Lemma shape_classes (classes h w : nat) (batch : list tensor) :
  (forall g, In g batch -> has_shapeb classes h w g = true) ->
  forall g, In g batch -> length g = classes.
Proof.
  intros H g Hin. apply (has_shapeb_true classes h w g). apply H. exact Hin.
Qed.

(** X19.  Instances without an estimate count as zero.  For a ground-truth
    batch and an estimate batch whose maps all have the same shape
    (classes, h, w), the batch score is the mean over as many rows as there
    are ground-truth instances: the per-class scores of the paired
    instances, then an all-zero row for each ground-truth instance beyond
    the end of the estimate batch; estimates beyond the end of the
    ground-truth batch are ignored. *)
Theorem batch_mean_rows (classes h w : nat) (gt_batch est_batch : list tensor)
  (threshold : Q) :
  (forall g, In g gt_batch -> has_shapeb classes h w g = true) ->
  (forall e, In e est_batch -> has_shapeb classes h w e = true) ->
  compute_IoU_whole_img_batch classes gt_batch est_batch threshold
  = Ok (mean_axis0 classes
          (zip_with (fun g e => compute_IoU_whole_img_per_class g e threshold)
                    gt_batch est_batch
           ++ repeat (repeat (Num 0) classes)
                     (length gt_batch - length est_batch))).
Proof.
  intros Hg He.
  apply batch_rows; [apply (shape_classes classes h w gt_batch Hg)
                    | apply (shape_classes classes h w est_batch He)].
Qed.

Lemma batch_mean_rows_witness :
  compute_IoU_whole_img_batch 1
    [full 1 4 4 1; full 1 4 4 1] [full 1 4 4 1] (7 # 10)
  = Ok (mean_axis0 1
          (zip_with (fun g e => compute_IoU_whole_img_per_class g e (7 # 10))
                    [full 1 4 4 1; full 1 4 4 1] [full 1 4 4 1]
           ++ repeat (repeat (Num 0) 1)
                     (length [full 1 4 4 1; full 1 4 4 1]
                      - length [full 1 4 4 1]))).
Proof.
  apply (batch_mean_rows 1 4 4 [full 1 4 4 1; full 1 4 4 1] [full 1 4 4 1]
           (7 # 10)).
  - intros g [<- | [<- | []]]; reflexivity.
  - intros e [<- | []]. reflexivity.
Defined.

Lemma fold_score_add (col : list score) (a : Q) :
  (forall s, In s col -> exists q, s = Num q /\ unit_interval q) ->
  exists total, fold_left score_add col (Num a) = Num total /\
    a <= total /\ total <= a + inject_Z (Z.of_nat (length col)).
Proof.
  revert a. induction col as [ | s t IH]; intros a H.
  - exists a. split; [reflexivity | ].
    change (inject_Z (Z.of_nat (length (@nil score)))) with 0. split; lra.
  - destruct (H s (or_introl eq_refl)) as [q [-> [L U]]].
    destruct (IH (a + q)) as [total [E [L' U']]].
    { intros x Hx. apply H. right. exact Hx. }
    exists total. split; [exact E | ].
    change (length (Num q :: t)) with (S (length t)).
    rewrite inject_nat_succ. split; lra.
Qed.

Lemma per_class_scores (gt est : tensor) (threshold : Q) (s : score) :
  In s (compute_IoU_whole_img_per_class gt est threshold) ->
  exists q, s = Num q /\ unit_interval q.
Proof.
  unfold compute_IoU_whole_img_per_class, zip_with. intro H.
  apply in_map_iff in H. destruct H as [[g e] [<- _]]. simpl.
  destruct (iou_class_score threshold g e) as [q [E [U _]]].
  exists q. split; assumption.
Qed.

Lemma batch_range (classes : nat) (gt_batch est_batch : list tensor)
  (threshold : Q) :
  (forall g, In g gt_batch -> length g = classes) ->
  (forall e, In e est_batch -> length e = classes) ->
  exists scores,
    compute_IoU_whole_img_batch classes gt_batch est_batch threshold
    = Ok scores /\
    length scores = classes /\
    (gt_batch <> [] ->
     forall s, In s scores -> exists q, s = Num q /\ unit_interval q) /\
    (gt_batch = [] -> forall s, In s scores -> s = Nan).
Proof.
  intros Hg He. rewrite (batch_rows classes gt_batch est_batch threshold Hg He).
  set (rows := zip_with _ gt_batch est_batch ++ repeat _ _).
  exists (mean_axis0 classes rows). split; [reflexivity | ]. split.
  { unfold mean_axis0. rewrite length_map, length_seq. reflexivity. }
  assert (Hlen : length rows = length gt_batch).
  { unfold rows, zip_with.
    rewrite length_app, length_map, length_combine, repeat_length. lia. }
  assert (Hrows : forall row, In row rows ->
            length row = classes /\
            forall s, In s row -> exists q, s = Num q /\ unit_interval q).
  { intros row Hrow. unfold rows in Hrow. apply in_app_or in Hrow.
    destruct Hrow as [Hrow | Hrow].
    - unfold zip_with in Hrow. apply in_map_iff in Hrow.
      destruct Hrow as [[g e] [<- Hp]]. simpl. split.
      + rewrite per_class_length.
        rewrite (Hg g (in_combine_l _ _ _ _ Hp)),
                (He e (in_combine_r _ _ _ _ Hp)).
        apply Nat.min_id.
      + apply per_class_scores.
    - apply repeat_spec in Hrow. subst row. split; [apply repeat_length | ].
      intros s Hs. apply repeat_spec in Hs. subst s.
      exists 0. split; [reflexivity | unfold unit_interval; lra]. }
  split.
  - intros Hne s Hs. unfold mean_axis0 in Hs. apply in_map_iff in Hs.
    destruct Hs as [k [<- Hk]]. apply in_seq in Hk.
    destruct (fold_score_add (map (fun row => nth k row Nan) rows) 0)
      as [total [E [L U]]].
    { intros s Hs. apply in_map_iff in Hs. destruct Hs as [row [<- Hrow]].
      destruct (Hrows row Hrow) as [Hl Hall]. apply Hall.
      apply nth_In. lia. }
    rewrite E. simpl score_div_nat. rewrite length_map in U.
    assert (Hpos : (0 < length rows)%nat).
    { rewrite Hlen. destruct gt_batch; [congruence | simpl; lia]. }
    destruct (Nat.eqb_spec (length rows) 0); [lia | ].
    eexists. split; [reflexivity | ].
    pose proof (inject_nat_pos _ Hpos) as Hq. split.
    + apply Qle_shift_div_l; [exact Hq | lra].
    + apply Qle_shift_div_r; [exact Hq | lra].
  - intros -> s Hs. unfold rows in Hs. simpl in Hs.
    unfold mean_axis0 in Hs. simpl in Hs.
    apply in_map_iff in Hs. destruct Hs as [k [<- _]]. reflexivity.
Qed.

(** X20.  For a ground-truth batch and an estimate batch whose maps all
    have the same shape (classes, h, w) the batch score has one entry per
    class; with at least one ground-truth instance every entry is a number
    in [0, 1], and with an empty batch every entry is nan (the mean of no
    rows). *)
Theorem batch_mean_range (classes h w : nat) (gt_batch est_batch : list tensor)
  (threshold : Q) :
  (forall g, In g gt_batch -> has_shapeb classes h w g = true) ->
  (forall e, In e est_batch -> has_shapeb classes h w e = true) ->
  exists scores,
    compute_IoU_whole_img_batch classes gt_batch est_batch threshold
    = Ok scores /\
    length scores = classes /\
    (gt_batch <> [] ->
     forall s, In s scores -> exists q, s = Num q /\ unit_interval q) /\
    (gt_batch = [] -> forall s, In s scores -> s = Nan).
Proof.
  intros Hg He.
  apply batch_range; [apply (shape_classes classes h w gt_batch Hg)
                     | apply (shape_classes classes h w est_batch He)].
Qed.

Lemma batch_mean_range_witness :
  exists scores,
    compute_IoU_whole_img_batch 1
      [full 1 4 4 1; full 1 4 4 0] [full 1 4 4 1; full 1 4 4 1] (7 # 10)
    = Ok scores /\
    length scores = 1%nat /\
    ([full 1 4 4 1; full 1 4 4 0] <> [] ->
     forall s, In s scores -> exists q, s = Num q /\ unit_interval q) /\
    ([full 1 4 4 1; full 1 4 4 0] = [] ->
     forall s, In s scores -> s = Nan).
Proof.
  apply (batch_mean_range 1 4 4 [full 1 4 4 1; full 1 4 4 0]
           [full 1 4 4 1; full 1 4 4 1] (7 # 10)).
  - intros g [<- | [<- | []]]; reflexivity.
  - intros e [<- | [<- | []]]; reflexivity.
Defined.

(** ** Train, validation and test selection *)

Lemma py_int_upper (q : Q) : 0 <= q -> q < inject_Z (py_int q + 1).
Proof.
  destruct q as [n d]. unfold Qle, Qlt, py_int. simpl. intro H.
  assert (Hn : (0 <= n)%Z) by lia.
  rewrite Z.quot_div_nonneg by lia. rewrite Z.mul_1_r.
  pose proof (Z.mul_succ_div_gt n (Z.pos d)) as Hgt. lia.
Qed.

Lemma py_int_mono (q1 q2 : Q) :
  0 <= q1 -> q1 <= q2 -> (py_int q1 <= py_int q2)%Z.
Proof.
  intros H0 H12.
  destruct (py_int_nonneg q1 H0) as [_ L1].
  pose proof (py_int_upper q2) as U2.
  assert (H : inject_Z (py_int q1) < inject_Z (py_int q2 + 1)) by lra.
  rewrite <- Zlt_Qlt in H. lia.
Qed.

Lemma py_int_le (q : Q) (n : Z) :
  0 <= q -> q <= inject_Z n -> (py_int q <= n)%Z.
Proof.
  intros H0 Hn. destruct (py_int_nonneg q H0) as [_ L].
  rewrite Zle_Qle. lra.
Qed.

Lemma py_int_ge (q : Q) (n : Z) :
  inject_Z n <= q -> 0 <= q -> (n <= py_int q)%Z.
Proof.
  intros Hn H0. pose proof (py_int_upper q H0) as U.
  assert (H : inject_Z n < inject_Z (py_int q + 1)) by lra.
  rewrite <- Zlt_Qlt in H. lia.
Qed.

Lemma py_slice_inside {A} (l : list A) (a b : Z) :
  (0 <= a)%Z -> (a <= b)%Z -> (b <= Z.of_nat (length l))%Z ->
  py_slice l a b = firstn (Z.to_nat b - Z.to_nat a) (skipn (Z.to_nat a) l).
Proof.
  intros H0 H1 H2. unfold py_slice, slice_len, slice_lo, slice_hi.
  rewrite !slice_bound_id by lia. f_equal. lia.
Qed.

Lemma three_slices {A} (l : list A) (a b : nat) :
  (a <= b)%nat -> (b <= length l)%nat ->
  firstn (a - 0) (skipn 0 l) ++ firstn (b - a) (skipn a l)
  ++ firstn (length l - b) (skipn b l) = l.
Proof.
  intros Hab Hb. rewrite Nat.sub_0_r. simpl skipn.
  rewrite (firstn_all2 (skipn b l)) by (rewrite length_skipn; lia).
  replace (skipn b l) with (skipn (b - a) (skipn a l))
    by (rewrite skipn_skipn; f_equal; lia).
  rewrite firstn_skipn. apply firstn_skipn.
Qed.

Lemma subsets_partition (indices : list nat) (a b : Z) :
  (0 <= a)%Z -> (a <= b)%Z -> (b <= Z.of_nat (length indices))%Z ->
  concat (subsets indices [0%Z; a; b; Z.of_nat (length indices)]) = indices.
Proof.
  intros H0 H1 H2. unfold subsets. simpl map. simpl concat.
  rewrite !py_slice_inside by lia. rewrite app_nil_r, Nat2Z.id.
  change (Z.to_nat 0) with 0%nat.
  apply three_slices; lia.
Qed.

(** X21.  The first directory is split without loss: for shares
    train, val >= 0 with train + val <= 1, the train, val and test index
    lists taken from the shuffled indices are consecutive pieces of it, and
    together they are the whole list, so every sample is moved exactly once
    (the test share itself is never read: test gets what is left). *)
Theorem first_directory_partition (train val test : Q) (indices : list nat)
  (rest : list (list nat)) :
  0 <= train -> 0 <= val -> train + val <= 1 ->
  exists parts more,
    distribute (train, val, test) (indices :: rest) = parts :: more /\
    length parts = 3%nat /\ concat parts = indices /\
    parts = subsets indices
              [0%Z; py_int (train * inject_Z (Z.of_nat (length indices)));
               py_int (train * inject_Z (Z.of_nat (length indices))
                       + val * inject_Z (Z.of_nat (length indices)));
               Z.of_nat (length indices)].
Proof.
  intros Ht Hv Hsum. eexists. eexists. split; [reflexivity | ].
  cbn [scale_split split_indices]. split; [reflexivity | ].
  split; [ | reflexivity].
  set (n := inject_Z (Z.of_nat (length indices))).
  assert (Hn : 0 <= n) by (unfold n, Qle; simpl; lia).
  assert (H1 : 0 <= train * n) by (apply Qmult_le_0_compat; assumption).
  assert (H2 : 0 <= val * n) by (apply Qmult_le_0_compat; assumption).
  assert (H3 : train * n + val * n <= n).
  { setoid_replace (train * n + val * n) with ((train + val) * n) by ring.
    setoid_replace n with (1 * n) at 2 by ring.
    apply Qmult_le_compat_r; assumption. }
  apply subsets_partition.
  - apply py_int_nonneg. exact H1.
  - apply py_int_mono; lra.
  - apply py_int_le; [lra | exact H3].
Qed.

Lemma first_directory_partition_witness :
  exists parts more,
    distribute (8 # 10, 1 # 10, 1 # 10) ([3; 0; 4; 1; 2]%nat :: []) = parts :: more /\
    length parts = 3%nat /\ concat parts = [3; 0; 4; 1; 2]%nat /\
    parts = subsets [3; 0; 4; 1; 2]%nat
              [0%Z;
               py_int ((8 # 10) * inject_Z (Z.of_nat (length [3; 0; 4; 1; 2]%nat)));
               py_int ((8 # 10) * inject_Z (Z.of_nat (length [3; 0; 4; 1; 2]%nat))
                       + (1 # 10) * inject_Z (Z.of_nat (length [3; 0; 4; 1; 2]%nat)));
               Z.of_nat (length [3; 0; 4; 1; 2]%nat)].
Proof.
  apply (first_directory_partition (8 # 10) (1 # 10) (1 # 10)
           [3; 0; 4; 1; 2]%nat []); lra.
Defined.

Lemma py_slice_all {A} (l : list A) (b : Z) :
  (Z.of_nat (length l) <= b)%Z -> py_slice l 0 b = l.
Proof.
  intro H. unfold py_slice, slice_len, slice_lo, slice_hi, slice_bound.
  simpl (0 <? 0)%Z. cbv iota.
  destruct (Z.ltb_spec b 0); [lia | ].
  rewrite (Z.min_r b) by lia. rewrite (Z.min_l 0) by lia.
  rewrite Z.sub_0_r, Nat2Z.id. simpl skipn. apply firstn_all.
Qed.

Lemma py_slice_past_end {A} (l : list A) (a b : Z) :
  (Z.of_nat (length l) <= a)%Z -> py_slice l a b = [].
Proof.
  intro H. unfold py_slice, slice_lo, slice_bound.
  destruct (Z.ltb_spec a 0); [lia | ].
  rewrite Z.min_r by lia. rewrite Nat2Z.id, skipn_all. apply firstn_nil.
Qed.

(** X22.  The split leaks from one directory to the next: [split] is
    overwritten with its product by the sample count, so for the second
    directory the shares are already counts.  Whenever the train share of
    the first directory covers at least one sample (train * n1 >= 1), every
    sample of the second directory goes to train and none to val or test. *)
Theorem second_directory_all_train (train val test : Q)
  (indices1 indices2 : list nat) :
  0 <= val -> 1 <= train * inject_Z (Z.of_nat (length indices1)) ->
  exists parts1,
    distribute (train, val, test) [indices1; indices2]
    = [parts1; [indices2; []; []]].
Proof.
  intros Hv Ht. eexists. cbn [distribute]. f_equal. f_equal.
  cbn [scale_split split_indices].
  set (n1 := inject_Z (Z.of_nat (length indices1))) in *.
  set (n2 := inject_Z (Z.of_nat (length indices2))).
  assert (Hn1 : 0 <= n1) by (unfold n1, Qle; simpl; lia).
  assert (Hn2 : 0 <= n2) by (unfold n2, Qle; simpl; lia).
  assert (Ha : n2 <= train * n1 * n2).
  { setoid_replace n2 with (1 * n2) at 1 by ring.
    apply Qmult_le_compat_r; assumption. }
  assert (Hb : 0 <= val * n1 * n2).
  { apply Qmult_le_0_compat; [apply Qmult_le_0_compat | ]; assumption. }
  assert (Ga : (Z.of_nat (length indices2) <= py_int (train * n1 * n2))%Z)
    by (apply py_int_ge; [exact Ha | lra]).
  assert (Gb : (Z.of_nat (length indices2)
                <= py_int (train * n1 * n2 + val * n1 * n2))%Z)
    by (apply py_int_ge; [fold n2; lra | lra]).
  unfold subsets. simpl map.
  rewrite py_slice_all by exact Ga.
  rewrite (py_slice_past_end indices2 (py_int (train * n1 * n2))) by exact Ga.
  rewrite (py_slice_past_end indices2 (py_int (train * n1 * n2 + val * n1 * n2)))
    by exact Gb.
  reflexivity.
Qed.

Lemma second_directory_all_train_witness :
  exists parts1,
    distribute (8 # 10, 1 # 10, 1 # 10)
      [[3; 0; 4; 1; 2]%nat; [1; 2; 0]%nat]
    = [parts1; [[1; 2; 0]%nat; []; []]].
Proof.
  apply (second_directory_all_train (8 # 10) (1 # 10) (1 # 10)
           [3; 0; 4; 1; 2]%nat [1; 2; 0]%nat).
  - lra.
  - vm_compute. discriminate.
Defined.

(** ** Small pedestrian boxes *)

(** X23.  The pedestrian template on small boxes.  With fewer than 5 rows
    the row fraction is 0, the "bottom" band is the whole box, and no cell
    keeps full confidence: side columns hold 0.5, the others 0.75.  With
    fewer than 4 columns the column fraction is 0, every column is a side
    column, and 0.75 never occurs: 0.3 above, 0.5 below, 1 in between. *)
Theorem pedestrian_small_box (h w r c : nat) :
  (r < h)%nat -> (c < w)%nat ->
  exists b,
    _create_ground_truth_bb 2 (Z.of_nat w) (Z.of_nat h) = Ok b /\
    ((h < 5)%nat ->
     cell2 (b_cells b) r c
     = Some (if ((Z.of_nat c <? Z.of_nat w / 4)
                 || (Z.of_nat w / 4 * 3 <=? Z.of_nat c))%Z
             then 1 # 2 else 3 # 4)) /\
    ((w < 4)%nat ->
     cell2 (b_cells b) r c
     = Some (if (Z.of_nat r <? Z.of_nat h / 5)%Z then 3 # 10
             else if (Z.of_nat h / 5 * 3 <=? Z.of_nat r)%Z then 1 # 2
             else 1)).
Proof.
  intros Hr Hc.
  destruct (np_ones (Z.of_nat h) (Z.of_nat w)) as [b0 | e] eqn:E0.
  - exists (_create_ground_truth_bb_pedestrian b0).
    unfold _create_ground_truth_bb. rewrite E0. simpl bind.
    split; [reflexivity | ].
    pose proof (pedestrian_cells h w b0 r c E0 Hr Hc) as Hcell.
    cbv zeta in Hcell. rewrite Hcell. split.
    + intro Hh. rewrite (Z.div_small (Z.of_nat h) 5) by lia.
      destruct (Z.ltb_spec (Z.of_nat r) 0); [lia | ].
      destruct (Z.leb_spec (0 * 3) (Z.of_nat r)); [ | lia].
      simpl andb.
      destruct ((Z.of_nat c <? Z.of_nat w / 4)
                || (Z.of_nat w / 4 * 3 <=? Z.of_nat c))%Z; reflexivity.
    + intro Hw. rewrite (Z.div_small (Z.of_nat w) 4) by lia.
      destruct (Z.ltb_spec (Z.of_nat c) 0); [lia | ].
      destruct (Z.leb_spec (0 * 3) (Z.of_nat c)); [ | lia].
      simpl orb. rewrite !andb_true_r.
      destruct (Z.of_nat r <? Z.of_nat h / 5)%Z; [reflexivity | ].
      destruct (Z.of_nat h / 5 * 3 <=? Z.of_nat r)%Z; reflexivity.
  - unfold np_ones in E0.
    destruct (Z.ltb_spec (Z.of_nat h) 0); [lia | ].
    destruct (Z.ltb_spec (Z.of_nat w) 0); [lia | ]. discriminate E0.
Qed.

Lemma pedestrian_small_box_witness :
  exists b,
    _create_ground_truth_bb 2 (Z.of_nat 3) (Z.of_nat 4) = Ok b /\
    ((4 < 5)%nat ->
     cell2 (b_cells b) 0 1
     = Some (if ((Z.of_nat 1 <? Z.of_nat 3 / 4)
                 || (Z.of_nat 3 / 4 * 3 <=? Z.of_nat 1))%Z
             then 1 # 2 else 3 # 4)) /\
    ((3 < 4)%nat ->
     cell2 (b_cells b) 0 1
     = Some (if (Z.of_nat 0 <? Z.of_nat 4 / 5)%Z then 3 # 10
             else if (Z.of_nat 4 / 5 * 3 <=? Z.of_nat 0)%Z then 1 # 2
             else 1)).
Proof.
  apply (pedestrian_small_box 4 3 0 1); lia.
Defined.
